(** * brand-form: colour codec, brand-kit schema and export pipeline

    A shallow embedding of the brand-kit form's three pieces of logic:
    - the colour codec ([hexToRgb], [rgbToHex], [rgbToCmyk], [cmykToRgb],
      [hexToCmyk], [cmykToHex]) of the form component;
    - the zod schema [brandDataSchema] of [schemas/brand-schema.ts];
    - the export handler [onSubmit] of the form component.

    JavaScript numbers are IEEE-754 binary64 values and are modelled by
    Rocq's primitive floats, so every [/], [-], [*] below rounds exactly as
    the engine does.  Strings are sequences of code units; the model covers
    the code units below U+0100 (one [ascii] each). *)

From stdpp Require Import gmap strings list.
From Stdlib Require Import ZArith Uint63 Floats Ascii String Lia.

Local Open Scope string_scope.
Local Open Scope Z_scope.

(** ** JavaScript built-ins used by the source *)

Module JS.

(** *** Characters *)

Definition code (c : ascii) : N := N_of_ascii c.

(** WhiteSpace and LineTerminator code units (what [trim], [parseInt] and
    the regular-expression class [\s] skip): TAB, LF, VT, FF, CR, SP, NBSP. *)
Definition isWhiteSpace (c : ascii) : bool :=
  match code c with
  | 9 | 10 | 11 | 12 | 13 | 32 | 160 => true
  | _ => false
  end%N.

Definition isDigit (c : ascii) : bool :=
  ((48 <=? code c) && (code c <=? 57))%N.

Definition isHexDigit (c : ascii) : bool :=
  (isDigit c
   || ((65 <=? code c) && (code c <=? 70))
   || ((97 <=? code c) && (code c <=? 102)))%N.

(** [String.prototype.toLowerCase] on one code unit: A-Z, and the Latin-1
    capitals U+00C0-U+00DE except the multiplication sign U+00D7. *)
Definition lowerChar (c : ascii) : ascii :=
  let n := code c in
  if (((65 <=? n) && (n <=? 90))
      || ((192 <=? n) && (n <=? 222) && negb (n =? 215)))%N
  then ascii_of_N (n + 32) else c.

(** *** Strings *)

Fixpoint String_toLowerCase (s : string) : string :=
  match s with
  | EmptyString => EmptyString
  | String c r => String (lowerChar c) (String_toLowerCase r)
  end.

(** [s.replace(ch, '')] with a one-character string pattern: only the first
    occurrence is removed. *)
Fixpoint String_replace_first (ch : ascii) (s : string) : string :=
  match s with
  | EmptyString => EmptyString
  | String c r => if Ascii.eqb c ch then r else String c (String_replace_first ch r)
  end.

(** [s.substring(i, j)] for [i <= j]. *)
Definition String_substring (i j : nat) (s : string) : string :=
  String.substring i (j - i) s.

(** [s.split(sep)] with a one-character separator: never empty, [""] splits
    to [[""]]. *)
Fixpoint String_split (sep : ascii) (s : string) : list string :=
  match s with
  | EmptyString => [EmptyString]
  | String c r =>
      if Ascii.eqb c sep then EmptyString :: String_split sep r
      else match String_split sep r with
           | [] => [String c EmptyString]
           | p :: ps => String c p :: ps
           end
  end.

Fixpoint trimStart (s : string) : string :=
  match s with
  | EmptyString => EmptyString
  | String c r => if isWhiteSpace c then trimStart r else s
  end.

Fixpoint trimEnd (s : string) : string :=
  match s with
  | EmptyString => EmptyString
  | String c r =>
      match trimEnd r with
      | EmptyString => if isWhiteSpace c then EmptyString else String c EmptyString
      | r' => String c r'
      end
  end.

Definition String_trim (s : string) : string := trimEnd (trimStart s).

(** [Array.prototype.join('')]. *)
Definition Array_join (l : list string) : string :=
  fold_right String.append EmptyString l.

(** [s.replace(/\s+/g, "-")]: every maximal run of white space becomes one
    hyphen. *)
Fixpoint replace_spaces (inrun : bool) (s : string) : string :=
  match s with
  | EmptyString => EmptyString
  | String c r =>
      if isWhiteSpace c
      then (if inrun then replace_spaces true r else String "-" (replace_spaces true r))
      else String c (replace_spaces false r)
  end.

(** *** Numbers *)

(** The Number value of a mathematical integer: integers up to 2^53 in
    magnitude are Numbers; beyond that, round to nearest, ties to even,
    overflow to infinity. *)
Definition of_Z (z : Z) : float :=
  if Z.abs z <=? 9007199254740992 then
    (if z <? 0 then PrimFloat.opp (PrimFloat.of_uint63 (Uint63.of_Z (- z)))
     else PrimFloat.of_uint63 (Uint63.of_Z z))
  else SF2Prim (SpecFloat.binary_normalize 53 1024 z 0 false).

(** The mathematical value of an integral Number ([None] for NaN, the
    infinities and Numbers with a fractional part): a finite Number is
    [v * 2 ^ e] for its signed mantissa [v] and exponent [e]. *)
Definition to_Z (x : float) : option Z :=
  match Prim2SF x with
  | S754_zero _ => Some 0
  | S754_finite s m e =>
      let v := if s then Z.neg m else Z.pos m in
      if 0 <=? e then Some (Z.shiftl v e)
      else if Z.land v (Z.ones (- e)) =? 0 then Some (Z.shiftr v (- e)) else None
  | _ => None
  end.

Definition isNaN (x : float) : bool := PrimFloat.is_nan x.

Definition digitValue (c : ascii) : option Z :=
  let n := Z.of_N (code c) in
  if (48 <=? n) && (n <=? 57) then Some (n - 48)
  else if (97 <=? n) && (n <=? 122) then Some (n - 87)
  else if (65 <=? n) && (n <=? 90) then Some (n - 55)
  else None.

(** The longest prefix of radix-[R] digits, as a mathematical integer;
    [None] when the prefix is empty. *)
Fixpoint digitsPrefix (R : Z) (acc : option Z) (s : string) : option Z :=
  match s with
  | EmptyString => acc
  | String c r =>
      match digitValue c with
      | Some d =>
          if d <? R
          then digitsPrefix R (Some (match acc with Some a => a * R + d | None => d end)) r
          else acc
      | None => acc
      end
  end.

Definition stripHexPrefix (s : string) : option string :=
  match s with
  | String "0" (String "x" r) => Some r
  | String "0" (String "X" r) => Some r
  | _ => None
  end.

(** [parseInt(str, radix)]; [radix = None] is the one-argument call. *)
Definition parseInt (str : string) (radix : option Z) : float :=
  let S0 := trimStart str in
  let '(neg, S1) :=
    match S0 with
    | String "-" r => (true, r)
    | String "+" r => (false, r)
    | _ => (false, S0)
    end in
  let R0 := match radix with Some r => r | None => 0 end in
  if negb (R0 =? 0) && ((R0 <? 2) || (36 <? R0)) then PrimFloat.nan
  else
    let strip := (R0 =? 0) || (R0 =? 16) in
    let '(R, S2) :=
      match (if strip then stripHexPrefix S1 else None) with
      | Some r => (16, r)
      | None => (if R0 =? 0 then 10 else R0, S1)
      end in
    match digitsPrefix R None S2 with
    | None => PrimFloat.nan
    | Some m => if neg then PrimFloat.opp (of_Z m) else of_Z m
    end.

(** [Math.max(a, b, c)]: NaN if any argument is, and +0 above -0. *)
Definition max2 (a b : float) : float :=
  if isNaN a || isNaN b then PrimFloat.nan
  else if PrimFloat.ltb a b then b
  else if PrimFloat.ltb b a then a
  else if PrimFloat.get_sign a then b else a.

Definition Math_max (a b c : float) : float := max2 (max2 a b) c.

(** The integer nearest to a finite non-zero Number [v * 2 ^ e], the one
    towards +infinity when two are equally close: [floor (x + 1/2)]. *)
Definition roundHalfUp (x : float) : option Z :=
  match Prim2SF x with
  | S754_finite s m e =>
      let v := if s then Z.neg m else Z.pos m in
      Some (if 0 <=? e then Z.shiftl v e
            else Z.shiftr (2 * v + Z.shiftl 1 (- e)) (1 - e))
  | _ => None
  end.

(** [Math.round(x)]: NaN, infinities and zeros are returned as they are, and
    a result of zero keeps the sign of [x]. *)
Definition Math_round (x : float) : float :=
  match roundHalfUp x with
  | Some n =>
      if n =? 0 then (if PrimFloat.get_sign x then PrimFloat.neg_zero else PrimFloat.zero)
      else of_Z n
  | None => x
  end.

(** Digits of a natural number in radix [R] (lower-case letters). *)
Definition digitChar (d : Z) : ascii :=
  if d <? 10 then ascii_of_N (Z.to_N (d + 48)) else ascii_of_N (Z.to_N (d + 87)).

Fixpoint digitsFuel (fuel : nat) (R n : Z) (acc : string) : string :=
  match fuel with
  | O => acc
  | S fuel' =>
      let acc' := String (digitChar (n mod R)) acc in
      if n / R =? 0 then acc' else digitsFuel fuel' R (n / R) acc'
  end.

(** More fuel than [n] has digits in any radix of two or more. *)
Definition digits (R n : Z) : string :=
  digitsFuel (S (Z.to_nat (Z.log2 n))) R n EmptyString.

Fixpoint stripTrailingZeros (s : string) : string :=
  match s with
  | EmptyString => EmptyString
  | String c r =>
      match stripTrailingZeros r with
      | EmptyString => if Ascii.eqb c "0" then EmptyString else String c EmptyString
      | r' => String c r'
      end
  end.

(** The shortest decimal that reads back as [x], for [x] with the positive
    integral value [v]: the least number [k] of leading digits such that
    [v] cut to [k] digits (rounded down or up) still converts to [x]; of the
    two cuts, the one closer to [v]. *)
Fixpoint shortestFuel (fuel : nat) (x : float) (v n k : Z) : Z :=
  match fuel with
  | O => v
  | S fuel' =>
      let p := 10 ^ (n - k) in
      let lo := (v / p) * p in
      let hi := lo + p in
      let okLo := PrimFloat.eqb (of_Z lo) x in
      let okHi := PrimFloat.eqb (of_Z hi) x in
      if okLo && okHi then
        (if v - lo <? hi - v then lo
         else if hi - v <? v - lo then hi
         else if Z.even (lo / p) then lo else hi)
      else if okLo then lo
      else if okHi then hi
      else shortestFuel fuel' x v n (k + 1)
  end.

Definition shortest (x : float) (v : Z) : Z :=
  if v <? 9007199254740992 then v
  else let n := Z.of_nat (String.length (digits 10 v)) in
       shortestFuel (Z.to_nat n) x v n 1.

(** [Number::toString(x)] in radix 10, for the Numbers the source formats:
    results of [parseInt] and [Math.round], which are NaN, infinite or
    integral.  Below 1e21 all digits are written; from 1e21 on the
    exponent form is used. *)
Definition Number_toString (x : float) : string :=
  if isNaN x then "NaN"
  else match to_Z x with
       | None =>
           if PrimFloat.ltb x PrimFloat.zero then "-Infinity" else "Infinity"
       | Some 0 => "0"
       | Some z =>
           let c := shortest (PrimFloat.abs x) (Z.abs z) in
           let ds := digits 10 c in
           let n := Z.of_nat (String.length ds) in
           let body :=
             if n <=? 21 then ds
             else match stripTrailingZeros ds with
                  | String d EmptyString => String d ("e+" ++ digits 10 (n - 1))
                  | String d r => String d ("." ++ r ++ "e+" ++ digits 10 (n - 1))
                  | EmptyString => ds
                  end in
           if z <? 0 then String "-" body else body
       end.

(** [x.toString(16)] for the Numbers [rgbToHex] formats (results of
    [parseInt]: NaN, infinite or integral): the exact hexadecimal digits. *)
Definition Number_toString16 (x : float) : string :=
  if isNaN x then "NaN"
  else match to_Z x with
       | None =>
           if PrimFloat.ltb x PrimFloat.zero then "-Infinity" else "Infinity"
       | Some z =>
           if z <? 0 then String "-" (digits 16 (Z.abs z)) else digits 16 z
       end.

(** A template-literal slot [${v}] holding a Number or [undefined]. *)
Definition template (v : option float) : string :=
  match v with
  | Some x => Number_toString x
  | None => "undefined"
  end.

End JS.

(** ** The colour codec *)

Import JS.

Definition hexToRgb (hex : string) : string :=
  let cleaned := String_replace_first "#" hex in
  if negb (Nat.eqb (String.length cleaned) 6) then ""
  else
    let r := parseInt (String_substring 0 2 cleaned) (Some 16) in
    let g := parseInt (String_substring 2 4 cleaned) (Some 16) in
    let b := parseInt (String_substring 4 6 cleaned) (Some 16) in
    Number_toString r ++ ", " ++ Number_toString g ++ ", " ++ Number_toString b.

(** [s.split(',').map(v => parseInt(v.trim()))]. *)
Definition parseParts (s : string) : list float :=
  map (fun v => parseInt (String_trim v) None) (String_split "," s).

Definition rgbToHex (rgb : string) : string :=
  let parts := parseParts rgb in
  if negb (Nat.eqb (List.length parts) 3) || existsb isNaN parts then ""
  else
    match parts with
    | [r; g; b] =>
        String "#" (Array_join (map (fun x =>
          let hex := Number_toString16 x in
          if Nat.eqb (String.length hex) 1 then String "0" hex else hex) [r; g; b]))
    | _ => ""
    end.

Definition rgbToCmyk (rgb : string) : string :=
  let parts := parseParts rgb in
  if negb (Nat.eqb (List.length parts) 3) || existsb isNaN parts then ""
  else
    match map (fun v => v / 255)%float parts with
    | [r; g; b] =>
        let k := (1 - Math_max r g b)%float in
        if PrimFloat.eqb k 1 then "0, 0, 0, 100"
        else
          let c := Math_round (((1 - r - k) / (1 - k)) * 100)%float in
          let m := Math_round (((1 - g - k) / (1 - k)) * 100)%float in
          let y := Math_round (((1 - b - k) / (1 - k)) * 100)%float in
          Number_toString c ++ ", " ++ Number_toString m ++ ", "
            ++ Number_toString y ++ ", " ++ Number_toString (Math_round (k * 100)%float)
    | _ => ""
    end.

Definition hexToCmyk (hex : string) : string :=
  let rgb := hexToRgb hex in
  if String.eqb rgb "" then ""
  else
    let parts := parseParts rgb in
    rgbToCmyk (template (parts !! 0%nat) ++ ", " ++ template (parts !! 1%nat)
                 ++ ", " ++ template (parts !! 2%nat)).

Definition cmykToRgb (cmyk : string) : string :=
  let parts := parseParts cmyk in
  if negb (Nat.eqb (List.length parts) 4) || existsb isNaN parts then ""
  else
    match map (fun v => v / 100)%float parts with
    | [c; m; y; k] =>
        let r := Math_round (255 * (1 - c) * (1 - k))%float in
        let g := Math_round (255 * (1 - m) * (1 - k))%float in
        let b := Math_round (255 * (1 - y) * (1 - k))%float in
        Number_toString r ++ ", " ++ Number_toString g ++ ", " ++ Number_toString b
    | _ => ""
    end.

Definition cmykToHex (cmyk : string) : string :=
  let rgb := cmykToRgb cmyk in
  if String.eqb rgb "" then "" else rgbToHex rgb.

(** ** Regular expressions

    The patterns of the schema are anchored at both ends ([^...$]) and carry
    no flags, so [RegExp.prototype.test] is a whole-string match.  Matching
    is by Brzozowski derivatives. *)

Module Regex.

Inductive regex : Type :=
| Empty
| Eps
| Cls (p : ascii -> bool)
| Seq (r1 r2 : regex)
| Alt (r1 r2 : regex)
| Star (r : regex).

Fixpoint nullable (r : regex) : bool :=
  match r with
  | Empty => false
  | Eps => true
  | Cls _ => false
  | Seq r1 r2 => nullable r1 && nullable r2
  | Alt r1 r2 => nullable r1 || nullable r2
  | Star _ => true
  end.

Fixpoint deriv (r : regex) (c : ascii) : regex :=
  match r with
  | Empty => Empty
  | Eps => Empty
  | Cls p => if p c then Eps else Empty
  | Seq r1 r2 =>
      if nullable r1 then Alt (Seq (deriv r1 c) r2) (deriv r2 c)
      else Seq (deriv r1 c) r2
  | Alt r1 r2 => Alt (deriv r1 c) (deriv r2 c)
  | Star r1 => Seq (deriv r1 c) (Star r1)
  end.

Fixpoint matches (r : regex) (s : string) : bool :=
  match s with
  | EmptyString => nullable r
  | String c s' => matches (deriv r c) s'
  end.

(** [r{n}] and [r{0,n}]. *)
Fixpoint rep (n : nat) (r : regex) : regex :=
  match n with
  | O => Eps
  | S n' => Seq r (rep n' r)
  end.

Fixpoint upto (n : nat) (r : regex) : regex :=
  match n with
  | O => Eps
  | S n' => Alt Eps (Seq r (upto n' r))
  end.

Definition chr (c : ascii) : regex := Cls (Ascii.eqb c).
Definition digit : regex := Cls isDigit.
Definition space : regex := Cls isWhiteSpace.

(** [\d{1,3}] *)
Definition digits13 : regex := Seq digit (upto 2 digit).

(** [/^#[0-9A-Fa-f]{6}$/] *)
Definition hexPattern : regex := Seq (chr "#") (rep 6 (Cls isHexDigit)).

(** [/^\d{1,3},\s*\d{1,3},\s*\d{1,3}$/] *)
Definition rgbPattern : regex :=
  Seq digits13 (Seq (chr ",") (Seq (Star space)
    (Seq digits13 (Seq (chr ",") (Seq (Star space) digits13))))).

(** [/^\d{1,3},\s*\d{1,3},\s*\d{1,3},\s*\d{1,3}$/] *)
Definition cmykPattern : regex :=
  Seq digits13 (Seq (chr ",") (Seq (Star space)
    (Seq digits13 (Seq (chr ",") (Seq (Star space)
      (Seq digits13 (Seq (chr ",") (Seq (Star space) digits13)))))))).

(** [/^\d{4}-\d{2}-\d{2}$/] *)
Definition datePattern : regex :=
  Seq (rep 4 digit) (Seq (chr "-") (Seq (rep 2 digit) (Seq (chr "-") (rep 2 digit)))).

End Regex.

(** ** Helpers for the proofs about the codec *)

(** A bounded universal quantifier over integers, decided by evaluation. *)
Fixpoint forallZ (n : nat) (lo : Z) (p : Z -> bool) : bool :=
  match n with
  | O => true
  | S n' => p lo && forallZ n' (lo + 1) p
  end.

Fixpoint hasChar (ch : ascii) (s : string) : bool :=
  match s with
  | EmptyString => false
  | String c r => Ascii.eqb c ch || hasChar ch r
  end.

Definition allAscii : list ascii := map ascii_of_nat (seq 0 256).

(** The decimal text of an integer, as the codec writes it. *)
Definition dec (n : Z) : string := Number_toString (of_Z n).

(** [parseInt(v.trim())] of one comma-separated part. *)
Definition part (s : string) : float := parseInt (String_trim s) None.

(** One component of [rgbToHex]: two hexadecimal digits, zero-padded. *)
Definition hexByte (x : float) : string :=
  let hex := Number_toString16 x in
  if Nat.eqb (String.length hex) 1 then String "0" hex else hex.

(** What the proofs need of the Number of an integer in 0..255 and of its
    decimal text. *)
Definition byteOK (n : Z) : bool :=
  let x := of_Z n in
  let s := Number_toString x in
  negb (hasChar "," s)
  && PrimFloat.Leibniz.eqb (part s) x
  && negb (isNaN x)
  && Regex.matches Regex.digits13 s
  && negb (String.eqb s "").

(** The byte two hexadecimal digits spell. *)
Definition byteOfHex (c1 c2 : ascii) : Z :=
  match to_Z (parseInt (String c1 (String c2 "")) (Some 16)) with
  | Some n => n
  | None => 0
  end.

Definition hexPairOK (c1 c2 : ascii) : bool :=
  if isHexDigit c1 && isHexDigit c2 then
    let x := parseInt (String c1 (String c2 "")) (Some 16) in
    let n := byteOfHex c1 c2 in
    (0 <=? n) && (n <=? 255)
    && PrimFloat.Leibniz.eqb x (of_Z n)
    && String.eqb (hexByte (of_Z n)) (String (lowerChar c1) (String (lowerChar c2) ""))
  else true.

Definition hexByteOK (n : Z) : bool :=
  match hexByte (of_Z n) with
  | String c1 (String c2 EmptyString) =>
      isHexDigit c1 && isHexDigit c2
      && PrimFloat.Leibniz.eqb (parseInt (String c1 (String c2 "")) (Some 16)) (of_Z n)
  | _ => false
  end.

(** The arithmetic of [rgbToCmyk] and [cmykToRgb] on one component. *)
Definition f255 (n : Z) : float := (of_Z n / 255)%float.
Definition f100 (n : Z) : float := (of_Z n / 100)%float.
Definition blackOf (mx : float) : float := (1 - mx)%float.
Definition scaled (x k : float) : float := (((1 - x - k) / (1 - k)) * 100)%float.
Definition channel (c k : float) : float := (255 * (1 - c) * (1 - k))%float.

(** The integer [Math.round] yields (0 where it yields a zero). *)
Definition roundInt (x : float) : Z :=
  match roundHalfUp x with
  | Some n => n
  | None => 0
  end.

(** [Math.round x] is the Number of [roundInt x] (so not -0, NaN or an
    infinity), and that integer satisfies [P]. *)
Definition roundCheck (x : float) (P : Z -> bool) : bool :=
  match roundHalfUp x with
  | Some n => (negb (n =? 0) || negb (PrimFloat.get_sign x)) && P n
  | None => PrimFloat.Leibniz.eqb x PrimFloat.zero && P 0
  end.

Definition cyanZ (x mx : Z) : Z := roundInt (scaled (f255 x) (blackOf (f255 mx))).
Definition blackZ (mx : Z) : Z := roundInt (blackOf (f255 mx) * 100)%float.
Definition channelZ (c k : Z) : Z := roundInt (channel (f100 c) (f100 k)).

Fixpoint rangeZ (n : nat) (lo : Z) : list Z :=
  match n with
  | O => []
  | S n' => lo :: rangeZ n' (lo + 1)
  end.

(** [Math.max] on two components agrees with the order of the integers. *)
Definition maxOK : bool :=
  let tbl := map (fun n => (n, f255 n)) (rangeZ 256 0) in
  forallb (fun p => forallb (fun q =>
    PrimFloat.Leibniz.eqb (max2 (snd p) (snd q)) (if fst p <? fst q then snd q else snd p))
    tbl) tbl.

Definition inRange (lo hi z : Z) : bool := (lo <=? z) && (z <=? hi).

(** For a largest component [mx] and every component [x <= mx]: the scaled
    percentages are not negative, they round to integers 0..100, and
    converting those back gives a component within 2 of [x]. *)
Definition forwardOK (mx : Z) : bool :=
  let k := blackOf (f255 mx) in
  negb (PrimFloat.eqb k 1)
  && negb (PrimFloat.get_sign (k * 100)%float)
  && roundCheck (k * 100)%float (fun K =>
       inRange 0 100 K
       && forallZ (Z.to_nat (mx + 1)) 0 (fun x =>
            negb (PrimFloat.get_sign (scaled (f255 x) k))
            && roundCheck (scaled (f255 x) k) (fun C =>
                 inRange 0 100 C && (Z.abs (channelZ C K - x) <=? 2)))).

Definition backwardOK (c : Z) : bool :=
  let fc := f100 c in
  forallZ 101 0 (fun k => roundCheck (channel fc (f100 k)) (inRange 0 255)).

(** The decimal text of three and of four integers, as the codec joins
    them. *)
Definition rgbText (r g b : Z) : string := dec r ++ ", " ++ dec g ++ ", " ++ dec b.
Definition cmykText (c m y k : Z) : string :=
  dec c ++ ", " ++ dec m ++ ", " ++ dec y ++ ", " ++ dec k.

(** Converting [h] to CMYK and back gives a hex string whose three
    components are within [d] of those of [h]. *)
Definition driftWithin (d : Z) (h : string) : Prop :=
  let h' := cmykToHex (hexToCmyk h) in
  Regex.matches Regex.hexPattern h' = true
  /\ exists r g b r' g' b',
       (0 <= r <= 255 /\ 0 <= g <= 255 /\ 0 <= b <= 255)
       /\ (0 <= r' <= 255 /\ 0 <= g' <= 255 /\ 0 <= b' <= 255)
       /\ hexToRgb h = rgbText r g b
       /\ hexToRgb h' = rgbText r' g' b'
       /\ Z.abs (r' - r) <= d /\ Z.abs (g' - g) <= d /\ Z.abs (b' - b) <= d.

(** Rounding half away from zero, as the specification words it: the
    nearest integer, the one of larger magnitude when two are equally
    close. *)
Definition roundHalfAway (x : float) : option Z :=
  match Prim2SF x with
  | S754_finite s m e =>
      let n := if 0 <=? e then Z.shiftl (Z.pos m) e
               else Z.shiftr (2 * Z.pos m + Z.shiftl 1 (- e)) (1 - e) in
      Some (if s then - n else n)
  | _ => None
  end.

(** [n] is the integer nearest to the finite Number [x], the larger one
    when [x] lies half-way between two: with [x = v * 2 ^ e], either [x] is
    the integer [n] itself, or [n - 1/2 <= v / 2 ^ (- e) < n + 1/2]. *)
Definition nearestTiesUp (x : float) (n : Z) : Prop :=
  exists s m e, Prim2SF x = S754_finite s m e
    /\ let v := if s then Z.neg m else Z.pos m in
       if 0 <=? e then n = v * 2 ^ e
       else (2 * n - 1) * 2 ^ (- e) <= 2 * v < (2 * n + 1) * 2 ^ (- e).

(** The Number [x] is the integer [n]: [x === n].  Both zeros are the
    integer 0, so a part that [parseInt] reads as [-0] is covered. *)
Definition isInteger (x : float) (n : Z) : Prop := PrimFloat.eqb x (of_Z n) = true.

(** [n] is an integer nearest to the fraction [num / den]:
    [|n - num / den| <= 1/2]. *)
Definition nearestInteger (num den n : Z) : Prop := Z.abs (2 * (den * n - num)) <= den.

(** Rounding the fraction [num / den >= 0] half away from zero, as the
    specification words it: [floor (num / den + 1/2)]. *)
Definition halfAwayFraction (num den : Z) : Z := (2 * num + den) / (2 * den).

(** What the proofs need of [-0] beside a component [n]: [Math.max] puts
    the component above it, and the Number of [n] is not [-0]. *)
Definition negZeroOK (n : Z) : bool :=
  PrimFloat.Leibniz.eqb (max2 PrimFloat.neg_zero (f255 n)) (f255 n)
  && PrimFloat.Leibniz.eqb (max2 (f255 n) PrimFloat.neg_zero) (f255 n)
  && negb (PrimFloat.Leibniz.eqb (of_Z n) PrimFloat.neg_zero).

(** For a largest component [mx] and every component [x <= mx], the
    percentages [rgbToCmyk] writes are integers nearest to the exact
    ones, [100 * (mx - x) / mx] and [100 * (255 - mx) / 255]. *)
Definition nearOK (mx : Z) : bool :=
  (Z.abs (2 * (255 * blackZ mx - 100 * (255 - mx))) <=? 255)
  && forallZ (Z.to_nat (mx + 1)) 0 (fun x =>
       Z.abs (2 * (mx * cyanZ x mx - 100 * (mx - x))) <=? mx).

(** ** The zod combinators the schema is built from

    A schema is data: the tree the [z.*] calls build.  [parse] is the
    library's synchronous [_parse] (zod 3): it walks schema and value
    together, pushes an issue for every failed check and keeps going, so
    the issues come out in depth-first schema order.  A candidate document
    is any JavaScript value; an object is its list of own properties. *)

Module Zod.

Set Warnings "-register-all".

Inductive Value : Type :=
| VUndefined
| VNull
| VBool (b : bool)
| VNum (x : float)
| VStr (s : string)
| VArr (items : list Value)
| VObj (fields : list (string * Value)).

Inductive PathSeg : Type :=
| Key (k : string)
| Idx (i : nat).

Inductive IssueCode : Type :=
| invalid_type
| too_small
| too_big
| invalid_string
| invalid_enum_value.

(** [message = None] stands for the library's default text for the code. *)
Record Issue : Type := mkIssue {
  code : IssueCode;
  path : list PathSeg;
  message : option string
}.

(** The checks chained on [z.string()]; [SUrl] carries the host's URL
    parser ([new URL(s)] does not throw). *)
Inductive StringCheck : Type :=
| SMin (n : nat) (msg : option string)
| SRegex (r : Regex.regex) (msg : option string)
| SUrl (valid : string -> bool) (msg : option string).

Inductive NumberCheck : Type :=
| NMin (bound : float) (msg : option string)
| NMax (bound : float) (msg : option string).

Inductive Schema : Type :=
| ZString (checks : list StringCheck)
| ZNumber (checks : list NumberCheck)
| ZEnum (values : list string)
| ZArray (element : Schema) (minLength : option (nat * option string))
| ZObject (shape : list (string * Schema))
| ZOptional (inner : Schema)
| ZDefault (inner : Schema) (defaultValue : Value).

(** [data[key]] and [key in data]. *)
Fixpoint lookup (k : string) (fs : list (string * Value)) : Value :=
  match fs with
  | [] => VUndefined
  | (k', v) :: rest => if String.eqb k k' then v else lookup k rest
  end.

Fixpoint hasKey (k : string) (fs : list (string * Value)) : bool :=
  match fs with
  | [] => false
  | (k', _) :: rest => String.eqb k k' || hasKey k rest
  end.

Definition isUndefined (v : Value) : bool :=
  match v with
  | VUndefined => true
  | _ => false
  end.

(** The issue for a value of the wrong type; a missing value reads
    "Required". *)
Definition typeIssue (v : Value) : Issue :=
  mkIssue invalid_type []
    (match v with VUndefined => Some "Required" | _ => None end).

Definition atSeg (p : PathSeg) (i : Issue) : Issue :=
  mkIssue (code i) (p :: path i) (message i).

Definition stringCheckOk (c : StringCheck) (s : string) : bool :=
  match c with
  | SMin n _ => Nat.leb n (String.length s)
  | SRegex r _ => Regex.matches r s
  | SUrl valid _ => valid s
  end.

Definition stringCheckIssue (c : StringCheck) : Issue :=
  match c with
  | SMin _ msg => mkIssue too_small [] msg
  | SRegex _ msg => mkIssue invalid_string [] msg
  | SUrl _ msg => mkIssue invalid_string [] msg
  end.

Definition numberCheckOk (c : NumberCheck) (x : float) : bool :=
  match c with
  | NMin bound _ => negb (PrimFloat.ltb x bound)
  | NMax bound _ => negb (PrimFloat.ltb bound x)
  end.

Definition numberCheckIssue (c : NumberCheck) : Issue :=
  match c with
  | NMin _ msg => mkIssue too_small [] msg
  | NMax _ msg => mkIssue too_big [] msg
  end.

Definition checkString (s : string) (c : StringCheck) : list Issue :=
  if stringCheckOk c s then [] else [stringCheckIssue c].

Definition checkNumber (x : float) (c : NumberCheck) : list Issue :=
  if numberCheckOk c x then [] else [numberCheckIssue c].

Definition checkMinLength (m : option (nat * option string)) (len : nat) : list Issue :=
  match m with
  | Some (n, msg) => if Nat.ltb len n then [mkIssue too_small [] msg] else []
  | None => []
  end.

(** Issues of the items of an array, each under its index. *)
Fixpoint itemIssues (i : nat) (rs : list (list Issue * Value)) : list Issue :=
  match rs with
  | [] => []
  | r :: rest => (map (atSeg (Idx i)) (fst r) ++ itemIssues (S i) rest)%list
  end.

(** Issues of the properties of an object, each under its key, and the
    output object: the keys of the shape, without those that are absent
    from the input and parse to [undefined]. *)
Fixpoint fieldIssues (rs : list (string * (list Issue * Value))) : list Issue :=
  match rs with
  | [] => []
  | (k, r) :: rest => (map (atSeg (Key k)) (fst r) ++ fieldIssues rest)%list
  end.

Fixpoint fieldOutputs (fs : list (string * Value))
    (rs : list (string * (list Issue * Value))) : list (string * Value) :=
  match rs with
  | [] => []
  | (k, r) :: rest =>
      if isUndefined (snd r) && negb (hasKey k fs) then fieldOutputs fs rest
      else (k, snd r) :: fieldOutputs fs rest
  end.

Fixpoint parse (s : Schema) (v : Value) {struct s} : list Issue * Value :=
  match s with
  | ZString checks =>
      match v with
      | VStr str => (flat_map (checkString str) checks, v)
      | _ => ([typeIssue v], v)
      end
  | ZNumber checks =>
      match v with
      | VNum x =>
          if isNaN x then ([typeIssue v], v)
          else (flat_map (checkNumber x) checks, v)
      | _ => ([typeIssue v], v)
      end
  | ZEnum values =>
      match v with
      | VStr str =>
          if existsb (String.eqb str) values then ([], v)
          else ([mkIssue invalid_enum_value [] None], v)
      | _ => ([typeIssue v], v)
      end
  | ZArray element minLength =>
      match v with
      | VArr items =>
          let rs := map (parse element) items in
          ((checkMinLength minLength (List.length items) ++ itemIssues 0 rs)%list,
           VArr (map snd rs))
      | _ => ([typeIssue v], v)
      end
  | ZObject shape =>
      match v with
      | VObj fs =>
          let rs :=
            (fix fields (sh : list (string * Schema)) :=
               match sh with
               | [] => []
               | (k, sk) :: rest => (k, parse sk (lookup k fs)) :: fields rest
               end) shape in
          (fieldIssues rs, VObj (fieldOutputs fs rs))
      | _ => ([typeIssue v], v)
      end
  | ZOptional inner =>
      match v with
      | VUndefined => ([], VUndefined)
      | _ => parse inner v
      end
  | ZDefault inner defaultValue =>
      parse inner (match v with VUndefined => defaultValue | _ => v end)
  end.

Definition issues (s : Schema) (v : Value) : list Issue := fst (parse s v).

Inductive SafeParseResult : Type :=
| Success (data : Value)
| Failure (errors : list Issue).

Definition safeParse (s : Schema) (v : Value) : SafeParseResult :=
  match parse s v with
  | ([], out) => Success out
  | (errs, _) => Failure errs
  end.

(** The constraints a value violates, one rule per check of the schema,
    with no order among them. *)
Inductive violates : Schema -> Value -> Issue -> Prop :=
| viol_string_type checks v :
    (forall s, v <> VStr s) -> violates (ZString checks) v (typeIssue v)
| viol_string_check checks c s :
    In c checks -> stringCheckOk c s = false ->
    violates (ZString checks) (VStr s) (stringCheckIssue c)
| viol_number_type checks v :
    (forall x, v = VNum x -> isNaN x = true) -> violates (ZNumber checks) v (typeIssue v)
| viol_number_check checks c x :
    isNaN x = false -> In c checks -> numberCheckOk c x = false ->
    violates (ZNumber checks) (VNum x) (numberCheckIssue c)
| viol_enum_type values v :
    (forall s, v <> VStr s) -> violates (ZEnum values) v (typeIssue v)
| viol_enum_value values s :
    ~ In s values -> violates (ZEnum values) (VStr s) (mkIssue invalid_enum_value [] None)
| viol_array_type element m v :
    (forall items, v <> VArr items) -> violates (ZArray element m) v (typeIssue v)
| viol_array_min element n msg items :
    (List.length items < n)%nat ->
    violates (ZArray element (Some (n, msg))) (VArr items) (mkIssue too_small [] msg)
| viol_array_item element m items i v iss :
    items !! i = Some v -> violates element v iss ->
    violates (ZArray element m) (VArr items) (atSeg (Idx i) iss)
| viol_object_type shape v :
    (forall fs, v <> VObj fs) -> violates (ZObject shape) v (typeIssue v)
| viol_object_field shape fs k sk iss :
    In (k, sk) shape -> violates sk (lookup k fs) iss ->
    violates (ZObject shape) (VObj fs) (atSeg (Key k) iss)
| viol_optional inner v iss :
    v <> VUndefined -> violates inner v iss -> violates (ZOptional inner) v iss
| viol_default inner d v iss :
    violates inner (match v with VUndefined => d | _ => v end) iss ->
    violates (ZDefault inner d) v iss.

(** Two values that differ only in the order of the properties of their
    objects, at any depth.  Property names are unique within an object. *)
Inductive sameUpToOrder : Value -> Value -> Prop :=
| same_undefined : sameUpToOrder VUndefined VUndefined
| same_null : sameUpToOrder VNull VNull
| same_bool b : sameUpToOrder (VBool b) (VBool b)
| same_num x : sameUpToOrder (VNum x) (VNum x)
| same_str s : sameUpToOrder (VStr s) (VStr s)
| same_arr l l' : Forall2 sameUpToOrder l l' -> sameUpToOrder (VArr l) (VArr l')
| same_obj fs fs' gs :
    List.NoDup (map fst fs) ->
    Forall2 (fun a b => fst a = fst b /\ sameUpToOrder (snd a) (snd b)) fs gs ->
    Permutation gs fs' ->
    sameUpToOrder (VObj fs) (VObj fs').

(** The per-field results of an object schema, in shape order. *)
Definition fieldResults (shape : list (string * Schema)) (fs : list (string * Value))
  : list (string * (list Issue * Value)) :=
  map (fun p => (fst p, parse (snd p) (lookup (fst p) fs))) shape.

End Zod.

(** ** The brand-kit schema ([schemas/brand-schema.ts]) *)

Module BrandSchema.
Import Zod Regex.

Definition logoVariantSchema : Schema :=
  ZObject [
    ("label", ZString [SMin 1 (Some "Label is required")]);
    ("src", ZString [SMin 1 (Some "Source path is required")])
  ].

Definition logoSchema : Schema :=
  ZObject [
    ("name", ZString [SMin 1 (Some "Logo name is required")]);
    ("description", ZString [SMin 1 (Some "Description is required")]);
    ("variants", ZArray logoVariantSchema (Some (1%nat, Some "At least one variant is required")))
  ].

Definition colorValuesSchema : Schema :=
  ZObject [
    ("hex", ZString [SRegex hexPattern (Some "Must be a valid hex color (e.g., #035259)")]);
    ("rgb", ZString [SRegex rgbPattern (Some "Must be in format: R, G, B (e.g., 3, 82, 89)")]);
    ("cmyk", ZString [SRegex cmykPattern (Some "Must be in format: C, M, Y, K (e.g., 34, 3, 0, 65)")])
  ].

Definition colorSchema : Schema :=
  ZObject [
    ("name", ZString [SMin 1 (Some "Color name is required")]);
    ("role", ZArray (ZEnum ["Primary"; "Secondary"; "Data"])
               (Some (1%nat, Some "At least one role is required")));
    ("values", colorValuesSchema)
  ].

Definition fontSourceSchema : Schema :=
  ZObject [
    ("type", ZEnum ["google"; "local"; "url"]);
    ("family", ZString [SMin 1 (Some "Font family is required")]);
    ("weights", ZArray (ZNumber []) (Some (1%nat, Some "At least one font weight is required")))
  ].

Definition fontSchema : Schema :=
  ZObject [
    ("name", ZString [SMin 1 (Some "Font name is required")]);
    ("source", fontSourceSchema)
  ].

Definition typographyExampleSchema : Schema :=
  ZObject [
    ("label", ZString [SMin 1 (Some "Label is required")]);
    ("font", ZString [SMin 1 (Some "Font is required")]);
    ("sizePx", ZNumber [NMin 1 (Some "Size must be at least 1px")]);
    ("weight", ZNumber [NMin 100 None; NMax 900 None]);
    ("text", ZString [SMin 1 (Some "Example text is required")]);
    ("lineHeight", ZOptional (ZNumber []));
    ("letterSpacing", ZOptional (ZString []))
  ].

Definition typographySchema : Schema :=
  ZObject [
    ("fonts", ZArray fontSchema (Some (1%nat, Some "At least one font is required")));
    ("examples", ZArray typographyExampleSchema
                   (Some (1%nat, Some "At least one example is required")))
  ].

Definition galleryItemSchema : Schema :=
  ZObject [
    ("caption", ZOptional (ZString []));
    ("src", ZString [SMin 1 (Some "Source path is required")])
  ].

(** [isURL] is the host's URL parser, which [z.string().url()] calls. *)
Definition brandInfoSchema (isURL : string -> bool) : Schema :=
  ZObject [
    ("name", ZString [SMin 1 (Some "Brand name is required")]);
    ("description", ZString [SMin 1 (Some "Description is required")]);
    ("website", ZString [SUrl isURL (Some "Must be a valid URL")]);
    ("updatedAt", ZString [SRegex datePattern (Some "Must be in format: YYYY-MM-DD")])
  ].

Definition brandDataShape (isURL : string -> bool) : list (string * Schema) :=
  [ ("brand", brandInfoSchema isURL);
    ("logos", ZArray logoSchema (Some (1%nat, Some "At least one logo is required")));
    ("colors", ZArray colorSchema (Some (1%nat, Some "At least one color is required")));
    ("typography", typographySchema);
    ("gallery", ZDefault (ZArray galleryItemSchema None) (VArr [])) ].

Definition brandDataSchema (isURL : string -> bool) : Schema :=
  ZObject (brandDataShape isURL).

End BrandSchema.

Module ZodSpec.
Import Zod.

Set Warnings "-register-all".

(** A schema in which no two checks of one value raise the same issue and
    no shape names a property twice (every schema the [z.*] calls of the
    source build is one). *)
Inductive wfSchema : Schema -> Prop :=
| wf_string checks :
    List.NoDup (map stringCheckIssue checks) -> wfSchema (ZString checks)
| wf_number checks :
    List.NoDup (map numberCheckIssue checks) -> wfSchema (ZNumber checks)
| wf_enum values : wfSchema (ZEnum values)
| wf_array element m : wfSchema element -> wfSchema (ZArray element m)
| wf_object shape :
    List.NoDup (map fst shape) -> Forall (fun p => wfSchema (snd p)) shape ->
    wfSchema (ZObject shape)
| wf_optional inner : wfSchema inner -> wfSchema (ZOptional inner)
| wf_default inner d : wfSchema inner -> wfSchema (ZDefault inner d).

(** A value all of whose objects name each property once. *)
Inductive wfValue : Value -> Prop :=
| wf_undefined : wfValue VUndefined
| wf_null : wfValue VNull
| wf_bool b : wfValue (VBool b)
| wf_num x : wfValue (VNum x)
| wf_str s : wfValue (VStr s)
| wf_arr l : Forall wfValue l -> wfValue (VArr l)
| wf_obj fs :
    List.NoDup (map fst fs) -> Forall (fun p => wfValue (snd p)) fs -> wfValue (VObj fs).

(** Validation fails and reports the issue [i]. *)
Definition rejectedWith (s : Schema) (v : Value) (i : Issue) : Prop :=
  exists errs, safeParse s v = Failure errs /\ In i errs.

End ZodSpec.

(** A brand kit for the examples: valid when the four arrays are not empty
    and [hex] is a hex colour; it has no [gallery] property. *)
Definition exampleLogos : Zod.Value :=
  Zod.VArr [Zod.VObj [
    ("name", Zod.VStr "Acme");
    ("description", Zod.VStr "Primary logo");
    ("variants", Zod.VArr [Zod.VObj [("label", Zod.VStr "PNG");
                                      ("src", Zod.VStr "assets/logos/raw.png")]])]].

Definition exampleColors (hex : string) : Zod.Value :=
  Zod.VArr [Zod.VObj [
    ("name", Zod.VStr "Teal");
    ("role", Zod.VArr [Zod.VStr "Primary"]);
    ("values", Zod.VObj [("hex", Zod.VStr hex); ("rgb", Zod.VStr "3, 82, 89");
                         ("cmyk", Zod.VStr "97, 8, 0, 65")])]].

Definition exampleFonts : Zod.Value :=
  Zod.VArr [Zod.VObj [
    ("name", Zod.VStr "Inter");
    ("source", Zod.VObj [("type", Zod.VStr "google"); ("family", Zod.VStr "Inter");
                         ("weights", Zod.VArr [Zod.VNum 400])])]].

Definition exampleExamples : Zod.Value :=
  Zod.VArr [Zod.VObj [
    ("label", Zod.VStr "Heading"); ("font", Zod.VStr "Inter");
    ("sizePx", Zod.VNum 16); ("weight", Zod.VNum 400); ("text", Zod.VStr "Hello")]].

Definition exampleBrand : Zod.Value :=
  Zod.VObj [("name", Zod.VStr "Acme Co"); ("description", Zod.VStr "Tools");
            ("website", Zod.VStr "https://acme.example");
            ("updatedAt", Zod.VStr "2024-01-31")].

Definition exampleFields (logos colors fonts examples : Zod.Value)
  : list (string * Zod.Value) :=
  [("brand", exampleBrand); ("logos", logos); ("colors", colors);
   ("typography", Zod.VObj [("fonts", fonts); ("examples", examples)])].

(** A stand-in for the host's URL parser in the examples. *)
Definition exampleIsURL (s : string) : bool := String.prefix "https://" s.

(** ** The export handler ([onSubmit] of the form component)

    [onSubmit] receives the validated form values, a [BrandData], and reads
    the component's [uploadedFiles] state.  It fills a JSZip archive, and
    writes the archive paths into the document as it goes; a property read
    on [undefined] throws, which the model renders as [None]. *)

Module BrandForm.

Record LogoVariant : Type := mkLogoVariant {
  variant_label : string;
  variant_src : string
}.

Record Logo : Type := mkLogo {
  logo_name : string;
  logo_description : string;
  logo_variants : list LogoVariant
}.

Record ColorValues : Type := mkColorValues {
  values_hex : string;
  values_rgb : string;
  values_cmyk : string
}.

Record Color : Type := mkColor {
  color_name : string;
  color_role : list string;
  color_values : ColorValues
}.

Record FontSource : Type := mkFontSource {
  source_type : string;
  source_family : string;
  source_weights : list float
}.

Record Font : Type := mkFont {
  font_name : string;
  font_source : FontSource
}.

Record TypographyExample : Type := mkTypographyExample {
  example_label : string;
  example_font : string;
  example_sizePx : float;
  example_weight : float;
  example_text : string;
  example_lineHeight : option float;
  example_letterSpacing : option string
}.

Record Typography : Type := mkTypography {
  typography_fonts : list Font;
  typography_examples : list TypographyExample
}.

Record GalleryItem : Type := mkGalleryItem {
  gallery_caption : option string;
  gallery_src : string
}.

Record BrandInfo : Type := mkBrandInfo {
  brand_name : string;
  brand_description : string;
  brand_website : string;
  brand_updatedAt : string
}.

Record BrandData : Type := mkBrandData {
  brand : BrandInfo;
  logos : list Logo;
  colors : list Color;
  typography : Typography;
  gallery : list GalleryItem
}.

(** A browser [File]: its name and its bytes. *)
Record File : Type := mkFile {
  file_name : string;
  file_bytes : list Byte.byte
}.

(** [uploadedFiles]: each object is the list of its entries as
    [Object.entries] yields them (the keys are array indices, so in
    ascending order).  A logo's array of variant files can have holes. *)
Record UploadedFiles : Type := mkUploadedFiles {
  uploaded_logos : list (nat * list (option File));
  uploaded_gallery : list (nat * File);
  uploaded_fonts : list (nat * list File)
}.

(** *** JSZip *)

(** What an archive path holds: a folder, a file's bytes, or the text of
    the document ([JSON.stringify(data, null, 2)], kept as the document). *)
Inductive Entry : Type :=
| Folder
| Blob (f : File)
| Json (doc : BrandData).

Fixpoint endsWithSlash (s : string) : bool :=
  match s with
  | EmptyString => false
  | String c EmptyString => Ascii.eqb c "/"
  | String _ r => endsWithSlash r
  end.

Definition forceTrailingSlash (path : string) : string :=
  if endsWithSlash path then path else path ++ "/".

(** The position of the last [/] of [s], counted from [i]. *)
Fixpoint lastSlash (i : nat) (s : string) : option nat :=
  match s with
  | EmptyString => None
  | String c r =>
      match lastSlash (S i) r with
      | Some j => Some j
      | None => if Ascii.eqb c "/" then Some i else None
      end
  end.

(** [parentFolder]: the path up to the last [/], not counting a trailing
    one; empty when there is none or it is the first character. *)
Definition parentFolder (path : string) : string :=
  let p := if endsWithSlash path
           then String.substring 0 (String.length path - 1) path else path in
  match lastSlash 0 p with
  | Some (S i) => String.substring 0 (S i) p
  | _ => EmptyString
  end.

(** [folderAdd]: the folder and the folders above it, where they are not in
    the archive yet.  The fuel bounds the depth; the length of the path is
    enough. *)
Fixpoint folderAdd (fuel : nat) (name : string) (files : gmap string Entry)
  : gmap string Entry :=
  let name := forceTrailingSlash name in
  match files !! name with
  | Some _ => files
  | None =>
      let parent := parentFolder name in
      let files' :=
        match fuel with
        | S fuel' => if String.eqb parent "" then files else folderAdd fuel' parent files
        | O => files
        end in
      <[name := Folder]> files'
  end.

(** [folder.file(name, data)] on the folder with path [root]: the folders
    above the entry are created, and the entry replaces what its path
    held. *)
Definition file (root name : string) (e : Entry) (files : gmap string Entry)
  : gmap string Entry :=
  let path := root ++ name in
  let parent := parentFolder path in
  <[path := e]> (if String.eqb parent "" then files
                 else folderAdd (String.length path) parent files).

(** [zip.folder(name)] on the folder with path [root]. *)
Definition folder (root name : string) (files : gmap string Entry)
  : gmap string Entry :=
  folderAdd (String.length (root ++ name)) (root ++ name) files.

(** *** [onSubmit] *)

(** [name.toLowerCase().replace(/\s+/g, "-")] *)
Definition slug (name : string) : string :=
  replace_spaces false (String_toLowerCase name).

(** [file.name.split(".").pop()] *)
Definition extension (name : string) : string :=
  List.last (String_split "." name) EmptyString.

(** A template-literal slot holding an array index plus one. *)
Definition ordinal (i : nat) : string :=
  Number_toString (of_Z (Z.of_nat i + 1)).

Definition logoFilename (name : string) (variantIndex : nat) (f : File) : string :=
  slug name ++ "-" ++ ordinal variantIndex ++ "." ++ extension (file_name f).

Definition galleryFilename (galleryIndex : nat) (f : File) : string :=
  "photo-" ++ ordinal galleryIndex ++ "." ++ extension (file_name f).

Definition fontFilename (name : string) (f : File) : string :=
  slug name ++ "-" ++ file_name f.

(** The archive and the document while [onSubmit] runs. *)
Record State : Type := mkState {
  zip : gmap string Entry;
  data : BrandData
}.

Definition setVariantSrc (src : string) (v : LogoVariant) : LogoVariant :=
  mkLogoVariant (variant_label v) src.

Definition setLogoVariants (vs : list LogoVariant) (l : Logo) : Logo :=
  mkLogo (logo_name l) (logo_description l) vs.

Definition setLogos (ls : list Logo) (d : BrandData) : BrandData :=
  mkBrandData (brand d) ls (colors d) (typography d) (gallery d).

Definition setGallerySrc (src : string) (g : GalleryItem) : GalleryItem :=
  mkGalleryItem (gallery_caption g) src.

Definition setGallery (gs : list GalleryItem) (d : BrandData) : BrandData :=
  mkBrandData (brand d) (logos d) (colors d) (typography d) gs.

(** The body of [files.forEach((file, variantIndex) => ...)] for one logo
    file. *)
Definition logoStep (logoIndex variantIndex : nat) (f : File) (st : State)
  : option State :=
  match logos (data st) !! logoIndex with
  | None => None
  | Some logo =>
      let filename := logoFilename (logo_name logo) variantIndex f in
      let zip' := file "assets/logos/" filename (Blob f) (zip st) in
      match logo_variants logo !! variantIndex with
      | None => None
      | Some variant =>
          let variant' := setVariantSrc ("/assets/logos/" ++ filename) variant in
          let logo' := setLogoVariants (<[variantIndex := variant']> (logo_variants logo)) logo in
          Some (mkState zip' (setLogos (<[logoIndex := logo']> (logos (data st))) (data st)))
      end
  end.

(** [forEach] skips the holes of the array. *)
Fixpoint logoFiles (logoIndex variantIndex : nat) (files : list (option File))
    (st : State) : option State :=
  match files with
  | [] => Some st
  | None :: rest => logoFiles logoIndex (S variantIndex) rest st
  | Some f :: rest =>
      match logoStep logoIndex variantIndex f st with
      | None => None
      | Some st' => logoFiles logoIndex (S variantIndex) rest st'
      end
  end.

Fixpoint processLogos (entries : list (nat * list (option File))) (st : State)
  : option State :=
  match entries with
  | [] => Some st
  | (logoIndex, files) :: rest =>
      match logoFiles logoIndex 0 files st with
      | None => None
      | Some st' => processLogos rest st'
      end
  end.

Definition galleryStep (galleryIndex : nat) (f : File) (st : State) : option State :=
  let filename := galleryFilename galleryIndex f in
  let zip' := file "assets/gallery/" filename (Blob f) (zip st) in
  match gallery (data st) !! galleryIndex with
  | None => None
  | Some item =>
      let item' := setGallerySrc ("/assets/gallery/" ++ filename) item in
      Some (mkState zip' (setGallery (<[galleryIndex := item']> (gallery (data st))) (data st)))
  end.

Fixpoint processGallery (entries : list (nat * File)) (st : State) : option State :=
  match entries with
  | [] => Some st
  | (galleryIndex, f) :: rest =>
      match galleryStep galleryIndex f st with
      | None => None
      | Some st' => processGallery rest st'
      end
  end.

Definition fontStep (fontIndex : nat) (f : File) (st : State) : option State :=
  match typography_fonts (typography (data st)) !! fontIndex with
  | None => None
  | Some font =>
      let filename := fontFilename (font_name font) f in
      Some (mkState (file "assets/fonts/" filename (Blob f) (zip st)) (data st))
  end.

Fixpoint fontFiles (fontIndex : nat) (files : list File) (st : State) : option State :=
  match files with
  | [] => Some st
  | f :: rest =>
      match fontStep fontIndex f st with
      | None => None
      | Some st' => fontFiles fontIndex rest st'
      end
  end.

Fixpoint processFonts (entries : list (nat * list File)) (st : State) : option State :=
  match entries with
  | [] => Some st
  | (fontIndex, files) :: rest =>
      match fontFiles fontIndex files st with
      | None => None
      | Some st' => processFonts rest st'
      end
  end.

(** What [onSubmit] hands to the download: the archive, the document
    written to [data.json], and the name of the download. *)
Record Archive : Type := mkArchive {
  entries : gmap string Entry;
  document : BrandData;
  download : string
}.

Definition newZip : gmap string Entry :=
  folder "assets/" "fonts"
    (folder "assets/" "gallery"
       (folder "assets/" "logos"
          (folder "" "assets" ∅))).

Definition onSubmit (uploadedFiles : UploadedFiles) (d : BrandData) : option Archive :=
  match processLogos (uploaded_logos uploadedFiles) (mkState newZip d) with
  | None => None
  | Some st1 =>
      match processGallery (uploaded_gallery uploadedFiles) st1 with
      | None => None
      | Some st2 =>
          match processFonts (uploaded_fonts uploadedFiles) st2 with
          | None => None
          | Some st3 =>
              Some (mkArchive (file "" "data.json" (Json (data st3)) (zip st3))
                      (data st3)
                      (slug (brand_name (brand (data st3))) ++ "-brand-kit.zip"))
          end
      end
  end.

End BrandForm.

Module ExportSpec.
Import BrandForm.

(** A pending asset: a file the user put in a slot. *)
Inductive Asset : Type :=
| LogoAsset (logoIndex variantIndex : nat) (f : File)
| GalleryAsset (galleryIndex : nat) (f : File)
| FontAsset (fontIndex : nat) (f : File).

Definition assetFile (a : Asset) : File :=
  match a with
  | LogoAsset _ _ f => f
  | GalleryAsset _ f => f
  | FontAsset _ f => f
  end.

Definition assetFolder (a : Asset) : string :=
  match a with
  | LogoAsset _ _ _ => "assets/logos/"
  | GalleryAsset _ _ => "assets/gallery/"
  | FontAsset _ _ => "assets/fonts/"
  end.

(** The name of the asset's archive entry within its folder, for the
    document [d] ([None] when the document has no such logo or font). *)
Definition assetFilename (d : BrandData) (a : Asset) : option string :=
  match a with
  | LogoAsset li vi f =>
      match logos d !! li with
      | Some logo => Some (logoFilename (logo_name logo) vi f)
      | None => None
      end
  | GalleryAsset gi f => Some (galleryFilename gi f)
  | FontAsset fi f =>
      match typography_fonts (typography d) !! fi with
      | Some font => Some (fontFilename (font_name font) f)
      | None => None
      end
  end.

Definition assetPath (d : BrandData) (a : Asset) : option string :=
  match assetFilename d a with
  | Some name => Some (assetFolder a ++ name)
  | None => None
  end.

(** The pending assets of [uploadedFiles], in the order [onSubmit] visits
    them. *)
Fixpoint logoAssets (logoIndex variantIndex : nat) (files : list (option File))
  : list Asset :=
  match files with
  | [] => []
  | None :: rest => logoAssets logoIndex (S variantIndex) rest
  | Some f :: rest =>
      LogoAsset logoIndex variantIndex f :: logoAssets logoIndex (S variantIndex) rest
  end.

Definition allLogoAssets (entries : list (nat * list (option File))) : list Asset :=
  flat_map (fun e => logoAssets (fst e) 0 (snd e)) entries.

Definition allGalleryAssets (entries : list (nat * File)) : list Asset :=
  map (fun e => GalleryAsset (fst e) (snd e)) entries.

Definition allFontAssets (entries : list (nat * list File)) : list Asset :=
  flat_map (fun e => map (FontAsset (fst e)) (snd e)) entries.

Definition pendingAssets (u : UploadedFiles) : list Asset :=
  (allLogoAssets (uploaded_logos u) ++ allGalleryAssets (uploaded_gallery u)
   ++ allFontAssets (uploaded_fonts u))%list.

(** What [onSubmit] does for one pending asset, and for a list of them. *)
Definition step (a : Asset) (st : State) : option State :=
  match a with
  | LogoAsset li vi f => logoStep li vi f st
  | GalleryAsset gi f => galleryStep gi f st
  | FontAsset fi f => fontStep fi f st
  end.

Fixpoint run (assets : list Asset) (st : State) : option State :=
  match assets with
  | [] => Some st
  | a :: rest =>
      match step a st with
      | None => None
      | Some st' => run rest st'
      end
  end.

(** [logos[li].variants[vi].src] and [gallery[gi].src]. *)
Definition variantSrc (d : BrandData) (li vi : nat) : option string :=
  match logos d !! li with
  | Some logo =>
      match logo_variants logo !! vi with
      | Some v => Some (variant_src v)
      | None => None
      end
  | None => None
  end.

Definition gallerySrc (d : BrandData) (gi : nat) : option string :=
  match gallery d !! gi with
  | Some g => Some (gallery_src g)
  | None => None
  end.

(** Documents that differ at most in the [src] of logo variants and
    gallery items. *)
Definition sameLogo (l l' : Logo) : Prop :=
  logo_name l' = logo_name l /\ logo_description l' = logo_description l
  /\ Forall2 (fun v v' => variant_label v' = variant_label v)
       (logo_variants l) (logo_variants l').

Definition sameFrame (d d' : BrandData) : Prop :=
  brand d' = brand d /\ colors d' = colors d /\ typography d' = typography d
  /\ Forall2 sameLogo (logos d) (logos d')
  /\ Forall2 (fun g g' => gallery_caption g' = gallery_caption g) (gallery d) (gallery d').

(** The slots of the document that have a pending asset. *)
Fixpoint logoSlots (assets : list Asset) : list (nat * nat) :=
  match assets with
  | [] => []
  | LogoAsset li vi _ :: rest => (li, vi) :: logoSlots rest
  | _ :: rest => logoSlots rest
  end.

Fixpoint gallerySlots (assets : list Asset) : list nat :=
  match assets with
  | [] => []
  | GalleryAsset gi _ :: rest => gi :: gallerySlots rest
  | _ :: rest => gallerySlots rest
  end.

End ExportSpec.

(** The kit of the scenario: one logo named "Acme" with one variant; the
    other parts of the kit are arbitrary. *)
Definition acmeKit (b : BrandForm.BrandInfo) (description label src : string)
    (cs : list BrandForm.Color) (t : BrandForm.Typography)
    (g : list BrandForm.GalleryItem) : BrandForm.BrandData :=
  BrandForm.mkBrandData b
    [BrandForm.mkLogo "Acme" description [BrandForm.mkLogoVariant label src]] cs t g.

(** One pending asset, in slot (logo 0, variant 0). *)
Definition oneLogoFile (f : BrandForm.File) : BrandForm.UploadedFiles :=
  BrandForm.mkUploadedFiles [(0%nat, [Some f])] [] [].

Definition exampleInfo : BrandForm.BrandInfo :=
  BrandForm.mkBrandInfo "Acme Co" "Tools" "https://acme.example" "2024-01-31".

Definition exampleTypography : BrandForm.Typography :=
  BrandForm.mkTypography
    [BrandForm.mkFont "Inter" (BrandForm.mkFontSource "google" "Inter" [400%float])]
    [BrandForm.mkTypographyExample "Heading" "Inter" 16 400 "Hello" None None].

(** Two logos whose names differ only in case, each with a pending file for
    its first variant. *)
Definition twoLogosKit : BrandForm.BrandData :=
  BrandForm.mkBrandData exampleInfo
    [BrandForm.mkLogo "Acme" "Primary" [BrandForm.mkLogoVariant "PNG" "a.png"];
     BrandForm.mkLogo "acme" "Mono" [BrandForm.mkLogoVariant "PNG" "b.png"]]
    [] exampleTypography [].

Definition twoLogoFiles : BrandForm.UploadedFiles :=
  BrandForm.mkUploadedFiles
    [(0%nat, [Some (BrandForm.mkFile "colour.png" [Byte.x01])]);
     (1%nat, [Some (BrandForm.mkFile "mono.png" [Byte.x02])])] [] [].

Definition isBlob (e : BrandForm.Entry) : bool :=
  match e with
  | BrandForm.Blob _ => true
  | _ => false
  end.

(** The file entries of an archive. *)
Definition blobEntries (a : BrandForm.Archive) : list (string * BrandForm.Entry) :=
  filter (fun p => isBlob (snd p)) (map_to_list (BrandForm.entries a)).

(** ** The colour panel of the form component

    The handlers of the panel of one colour: the three Convert buttons,
    the role check boxes, and the bookkeeping of which panel is open. *)

Module ColorPanel.
Import BrandForm.

(** A string used as a condition: only the empty string is falsy. *)
Definition truthy (s : string) : bool := negb (String.eqb s "").

(** [form.setValue] on the three paths under [colors.i.values]. *)
Definition setHex (hex : string) (v : ColorValues) : ColorValues :=
  mkColorValues hex (values_rgb v) (values_cmyk v).

Definition setRgb (rgb : string) (v : ColorValues) : ColorValues :=
  mkColorValues (values_hex v) rgb (values_cmyk v).

Definition setCmyk (cmyk : string) (v : ColorValues) : ColorValues :=
  mkColorValues (values_hex v) (values_rgb v) cmyk.

(** [onClick] of the Convert button beside the hex field. *)
Definition convertHex (v : ColorValues) : ColorValues :=
  let hex := values_hex v in
  if truthy hex then
    let rgb := hexToRgb hex in
    let cmyk := hexToCmyk hex in
    let v1 := if truthy rgb then setRgb rgb v else v in
    if truthy cmyk then setCmyk cmyk v1 else v1
  else v.

(** [onClick] of the Convert button beside the RGB field. *)
Definition convertRgb (v : ColorValues) : ColorValues :=
  let rgb := values_rgb v in
  if truthy rgb then
    let hex := rgbToHex rgb in
    let cmyk := rgbToCmyk rgb in
    let v1 := if truthy hex then setHex hex v else v in
    if truthy cmyk then setCmyk cmyk v1 else v1
  else v.

(** [onClick] of the Convert button beside the CMYK field. *)
Definition convertCmyk (v : ColorValues) : ColorValues :=
  let cmyk := values_cmyk v in
  if truthy cmyk then
    let rgb := cmykToRgb cmyk in
    let hex := cmykToHex cmyk in
    let v1 := if truthy rgb then setRgb rgb v else v in
    if truthy hex then setHex hex v1 else v1
  else v.

(** The colour values as the candidate that validation sees. *)
Definition valuesValue (v : ColorValues) : Zod.Value :=
  Zod.VObj [("hex", Zod.VStr (values_hex v)); ("rgb", Zod.VStr (values_rgb v));
            ("cmyk", Zod.VStr (values_cmyk v))].


(** The state of the panel list: the colours of the form and
    [expandedColorIndex] ([None] is [null]). *)
Record Panels : Type := mkPanels {
  panel_colors : list Color;
  expandedColorIndex : option nat
}.

(** [onClick] of the header of panel [colorIndex]. *)
Definition togglePanel (colorIndex : nat) (p : Panels) : Panels :=
  mkPanels (panel_colors p)
    (if decide (expandedColorIndex p = Some colorIndex) then None else Some colorIndex).

(** [onClick] of the bin of panel [colorIndex]: [removeColor(colorIndex)]
    takes the colour out of the field array, then the open panel is
    adjusted. *)
Definition removeColor (colorIndex : nat) (p : Panels) : Panels :=
  mkPanels (delete colorIndex (panel_colors p))
    (match expandedColorIndex p with
     | Some e =>
         if Nat.eqb e colorIndex
         then (if Nat.ltb 0 colorIndex then Some (colorIndex - 1)%nat else None)
         else if Nat.ltb colorIndex e then Some (e - 1)%nat
         else Some e
     | None => None
     end).

(** [onClick] of Add Color: the new colour goes last and its panel opens. *)
Definition addColor (p : Panels) : Panels :=
  mkPanels (panel_colors p ++ [mkColor "" ["Primary"] (mkColorValues "" "" "")])
    (Some (List.length (panel_colors p))).

(** The open panel, when there is one, is a panel of the list. *)
Definition expandedInRange (p : Panels) : Prop :=
  match expandedColorIndex p with
  | Some e => (e < List.length (panel_colors p))%nat
  | None => True
  end.

(** The colour whose panel is open. *)
Definition expandedColor (p : Panels) : option Color :=
  match expandedColorIndex p with
  | Some e => panel_colors p !! e
  | None => None
  end.

End ColorPanel.

(** ** The font weights field of the form component *)

Module FontPanel.
Import BrandForm.

(** [Array.prototype.join(sep)]. *)
Fixpoint Array_join_sep (sep : string) (l : list string) : string :=
  match l with
  | [] => ""
  | [x] => x
  | x :: rest => x ++ sep ++ Array_join_sep sep rest
  end.

(** The [value] of the weights input: [weights.join(", ")]. *)
Definition weightsText (weights : list float) : string :=
  Array_join_sep ", " (map Number_toString weights).

(** [onChange] of the weights input: the weights set from the text. *)
Definition weightsOnChange (text : string) : list float :=
  List.filter (fun w => negb (isNaN w)) (parseParts text).

(** A font source as the candidate that validation sees. *)
Definition sourceValue (s : FontSource) : Zod.Value :=
  Zod.VObj [("type", Zod.VStr (source_type s)); ("family", Zod.VStr (source_family s));
            ("weights", Zod.VArr (map Zod.VNum (source_weights s)))].

End FontPanel.

(** Every character of a string satisfies [p]. *)
Fixpoint allChars (p : ascii -> bool) (s : string) : bool :=
  match s with
  | EmptyString => true
  | String c r => p c && allChars p r
  end.

(** A character that is neither white space nor a capital letter. *)
Definition slugChar (c : ascii) : bool :=
  negb (isWhiteSpace c) && Ascii.eqb (lowerChar c) c.

(** What the proofs need of the Number of an integer and of its decimal
    text, for the integers a font weight can be. *)
Definition weightOK (n : Z) : bool :=
  let x := of_Z n in
  let s := Number_toString x in
  negb (hasChar "," s) && PrimFloat.Leibniz.eqb (part s) x && negb (isNaN x).

(** ** When the export completes *)

Module ExportSlots.
Import BrandForm ExportSpec.

(** The document has the slot of a pending asset: the logo and its
    variant, the gallery item, or the font that [onSubmit] reads for it. *)
Definition slotExists (d : BrandData) (a : Asset) : bool :=
  match a with
  | LogoAsset li vi _ =>
      match logos d !! li with
      | Some logo =>
          match logo_variants logo !! vi with
          | Some _ => true
          | None => false
          end
      | None => false
      end
  | GalleryAsset gi _ =>
      match gallery d !! gi with
      | Some _ => true
      | None => false
      end
  | FontAsset fi _ =>
      match typography_fonts (typography d) !! fi with
      | Some _ => true
      | None => false
      end
  end.

(** The paths of the folders [onSubmit] creates before anything else. *)
Definition folderPaths : list string :=
  ["assets/"; "assets/logos/"; "assets/gallery/"; "assets/fonts/"].

End ExportSlots.

(** ** The upload handlers of the form component

    The handlers that put files in [uploadedFiles] and take them out, as
    functions on the form's values and that state.  The objects of
    [uploadedFiles] are keyed by array indices, so their entries are in
    ascending key order. *)

Module Uploads.
Import BrandForm ExportSpec.

(** [obj[key]] *)
Fixpoint getKey {A : Type} (key : nat) (entries : list (nat * A)) : option A :=
  match entries with
  | [] => None
  | (k, v) :: rest => if Nat.eqb k key then Some v else getKey key rest
  end.

(** [{ ...obj, [key]: value }] *)
Fixpoint setKey {A : Type} (key : nat) (value : A) (entries : list (nat * A))
  : list (nat * A) :=
  match entries with
  | [] => [(key, value)]
  | (k, v) :: rest =>
      if Nat.eqb k key then (key, value) :: rest
      else if Nat.ltb key k then (key, value) :: (k, v) :: rest
      else (k, v) :: setKey key value rest
  end.

(** [delete obj[key]] *)
Definition deleteKey {A : Type} (key : nat) (entries : list (nat * A)) : list (nat * A) :=
  List.filter (fun e => negb (Nat.eqb (fst e) key)) entries.

(** [array[index] = x]: an index past the end leaves holes before it. *)
Definition arraySet {A : Type} (index : nat) (x : A) (array : list (option A))
  : list (option A) :=
  if Nat.ltb index (List.length array) then <[index := Some x]> array
  else (array ++ replicate (index - List.length array) None ++ [Some x])%list.

(** [array.filter((_, i) => keep(i))]: [i] is the index in [array]. *)
Fixpoint filterIndex {A : Type} (keep : nat -> bool) (i : nat) (array : list A) : list A :=
  match array with
  | [] => []
  | x :: rest =>
      if keep i then x :: filterIndex keep (S i) rest
      else filterIndex keep (S i) rest
  end.

(** The same on an array with holes: [filter] skips them, and its result
    has none. *)
Fixpoint filterIndexSparse {A : Type} (keep : nat -> bool) (i : nat)
    (array : list (option A)) : list (option A) :=
  match array with
  | [] => []
  | None :: rest => filterIndexSparse keep (S i) rest
  | Some x :: rest =>
      if keep i then Some x :: filterIndexSparse keep (S i) rest
      else filterIndexSparse keep (S i) rest
  end.

(** The form: its values and the [uploadedFiles] state. *)
Record Form : Type := mkForm {
  values : BrandData;
  uploadedFiles : UploadedFiles
}.

(** [uploadedFiles.logos[logoIndex]?.[variantIndex]] and
    [uploadedFiles.gallery[galleryIndex]]. *)
Definition pendingLogo (u : UploadedFiles) (logoIndex variantIndex : nat) : option File :=
  match getKey logoIndex (uploaded_logos u) with
  | Some files =>
      match files !! variantIndex with
      | Some (Some f) => Some f
      | _ => None
      end
  | None => None
  end.

Definition pendingGallery (u : UploadedFiles) (galleryIndex : nat) : option File :=
  getKey galleryIndex (uploaded_gallery u).

(** The updater the logo upload handlers pass to [setUploadedFiles]. *)
Definition uploadLogo (logoIndex variantIndex : nat) (file : File) (prev : UploadedFiles)
  : UploadedFiles :=
  let newLogos := uploaded_logos prev in
  let newLogos :=
    match getKey logoIndex newLogos with
    | Some _ => newLogos
    | None => setKey logoIndex [] newLogos
    end in
  let files :=
    match getKey logoIndex newLogos with
    | Some files => files
    | None => []
    end in
  mkUploadedFiles (setKey logoIndex (arraySet variantIndex file files) newLogos)
    (uploaded_gallery prev) (uploaded_fonts prev).

(** [onClick] of Remove Variant: the variant is filtered out of the logo's
    variants and its file out of the logo's files.  Reading the variants
    of a logo that is not there throws. *)
Definition removeVariant (logoIndex variantIndex : nat) (s : Form) : option Form :=
  match logos (values s) !! logoIndex with
  | None => None
  | Some logo =>
      let keep := fun i => negb (Nat.eqb i variantIndex) in
      let variants := filterIndex keep 0 (logo_variants logo) in
      let prev := uploadedFiles s in
      let newLogos := uploaded_logos prev in
      let newLogos :=
        match getKey logoIndex newLogos with
        | Some files => setKey logoIndex (filterIndexSparse keep 0 files) newLogos
        | None => newLogos
        end in
      Some (mkForm
              (setLogos (<[logoIndex := setLogoVariants variants logo]> (logos (values s)))
                 (values s))
              (mkUploadedFiles newLogos (uploaded_gallery prev) (uploaded_fonts prev)))
  end.

(** The body of [files.forEach] in the gallery upload handlers:
    [appendGallery] adds the item to the form's values at once, so the
    next file sees the new length. *)
Definition uploadGalleryFile (file : File) (s : Form) : Form :=
  let currentLength := List.length (gallery (values s)) in
  let prev := uploadedFiles s in
  mkForm
    (setGallery
       (gallery (values s)
        ++ [mkGalleryItem (Some "") ("/assets/gallery/" ++ file_name file)])
       (values s))
    (mkUploadedFiles (uploaded_logos prev)
       (setKey currentLength file (uploaded_gallery prev)) (uploaded_fonts prev)).

Definition uploadGallery (files : list File) (s : Form) : Form :=
  fold_left (fun s file => uploadGalleryFile file s) files s.

(** [onClick] of the bin of a gallery item: [removeGallery(galleryIndex)]
    takes the item out of the field array, and the file under that key is
    deleted. *)
Definition removeGalleryItem (galleryIndex : nat) (s : Form) : Form :=
  let prev := uploadedFiles s in
  mkForm (setGallery (delete galleryIndex (gallery (values s))) (values s))
    (mkUploadedFiles (uploaded_logos prev)
       (deleteKey galleryIndex (uploaded_gallery prev)) (uploaded_fonts prev)).

(** [onChange] of the font files input. *)
Definition uploadFonts (fontIndex : nat) (files : list File) (prev : UploadedFiles)
  : UploadedFiles :=
  if Nat.ltb 0 (List.length files)
  then mkUploadedFiles (uploaded_logos prev) (uploaded_gallery prev)
         (setKey fontIndex files (uploaded_fonts prev))
  else prev.

(** [onClick] of the bin of a logo and of a font: [removeLogo(logoIndex)]
    and [removeFont(fontIndex)] take the item out of the field array;
    [uploadedFiles] is not touched. *)
Definition removeLogo (logoIndex : nat) (s : Form) : Form :=
  mkForm (setLogos (delete logoIndex (logos (values s))) (values s)) (uploadedFiles s).

Definition removeFont (fontIndex : nat) (s : Form) : Form :=
  mkForm
    (mkBrandData (brand (values s)) (logos (values s)) (colors (values s))
       (mkTypography (delete fontIndex (typography_fonts (typography (values s))))
          (typography_examples (typography (values s))))
       (gallery (values s)))
    (uploadedFiles s).

(** The keys of an object of [uploadedFiles] are in ascending order. *)
Fixpoint ascending (lo : nat) (keys : list nat) : Prop :=
  match keys with
  | [] => True
  | k :: rest => (lo <= k)%nat /\ ascending (S k) rest
  end.

Definition ascendingKeys (u : UploadedFiles) : Prop :=
  ascending 0 (map fst (uploaded_logos u))
  /\ ascending 0 (map fst (uploaded_gallery u))
  /\ ascending 0 (map fst (uploaded_fonts u)).

(** Every pending asset has its slot in the document. *)
Definition slotsExist (d : BrandData) (u : UploadedFiles) : Prop :=
  forall x, In x (pendingAssets u) -> ExportSlots.slotExists d x = true.

(** The state of the form when it is mounted. *)
Definition noFiles : UploadedFiles := mkUploadedFiles [] [] [].

End Uploads.

(** ** What validation returns *)

Module ZodOutput.
Import Zod.

(** A schema that never returns [undefined] when it accepts: any but an
    optional one. *)
Fixpoint definedOutput (s : Schema) : bool :=
  match s with
  | ZOptional _ => false
  | ZDefault inner _ => definedOutput inner
  | _ => true
  end.

(** Every default of the schema, at any depth, is put on a schema that
    never returns [undefined]. *)
Fixpoint defaultsDefined (s : Schema) : bool :=
  match s with
  | ZArray element _ => defaultsDefined element
  | ZObject shape => forallb (fun p => defaultsDefined (snd p)) shape
  | ZOptional inner => defaultsDefined inner
  | ZDefault inner _ => definedOutput inner && defaultsDefined inner
  | _ => true
  end.

End ZodOutput.

(** ** The types the schema infers

    [brand-schema.ts] exports [BrandData] and the types of its parts as
    [z.infer] of the schemas.  Reading a value at such a type is reading
    its properties at the types of the record's fields; an optional
    property may be absent or [undefined]. *)

Module Infer.
Import Zod BrandForm.

Definition str (v : Value) : option string :=
  match v with
  | VStr s => Some s
  | _ => None
  end.

Definition num (v : Value) : option float :=
  match v with
  | VNum x => Some x
  | _ => None
  end.

Definition arr {A : Type} (item : Value -> option A) (v : Value) : option (list A) :=
  match v with
  | VArr items => mapM item items
  | _ => None
  end.

Definition optional {A : Type} (item : Value -> option A) (v : Value) : option (option A) :=
  match v with
  | VUndefined => Some None
  | _ => x ← item v; Some (Some x)
  end.

Definition obj {A : Type} (fields : list (string * Value) -> option A) (v : Value)
  : option A :=
  match v with
  | VObj fs => fields fs
  | _ => None
  end.

Definition logoVariant : Value -> option LogoVariant :=
  obj (fun fs =>
    label ← str (lookup "label" fs);
    src ← str (lookup "src" fs);
    Some (mkLogoVariant label src)).

Definition logo : Value -> option Logo :=
  obj (fun fs =>
    name ← str (lookup "name" fs);
    description ← str (lookup "description" fs);
    variants ← arr logoVariant (lookup "variants" fs);
    Some (mkLogo name description variants)).

Definition colorValues : Value -> option ColorValues :=
  obj (fun fs =>
    hex ← str (lookup "hex" fs);
    rgb ← str (lookup "rgb" fs);
    cmyk ← str (lookup "cmyk" fs);
    Some (mkColorValues hex rgb cmyk)).

Definition color : Value -> option Color :=
  obj (fun fs =>
    name ← str (lookup "name" fs);
    role ← arr str (lookup "role" fs);
    values ← colorValues (lookup "values" fs);
    Some (mkColor name role values)).

Definition fontSource : Value -> option FontSource :=
  obj (fun fs =>
    type ← str (lookup "type" fs);
    family ← str (lookup "family" fs);
    weights ← arr num (lookup "weights" fs);
    Some (mkFontSource type family weights)).

Definition font : Value -> option Font :=
  obj (fun fs =>
    name ← str (lookup "name" fs);
    source ← fontSource (lookup "source" fs);
    Some (mkFont name source)).

Definition typographyExample : Value -> option TypographyExample :=
  obj (fun fs =>
    label ← str (lookup "label" fs);
    font ← str (lookup "font" fs);
    sizePx ← num (lookup "sizePx" fs);
    weight ← num (lookup "weight" fs);
    text ← str (lookup "text" fs);
    lineHeight ← optional num (lookup "lineHeight" fs);
    letterSpacing ← optional str (lookup "letterSpacing" fs);
    Some (mkTypographyExample label font sizePx weight text lineHeight letterSpacing)).

Definition typography : Value -> option Typography :=
  obj (fun fs =>
    fonts ← arr font (lookup "fonts" fs);
    examples ← arr typographyExample (lookup "examples" fs);
    Some (mkTypography fonts examples)).

Definition galleryItem : Value -> option GalleryItem :=
  obj (fun fs =>
    caption ← optional str (lookup "caption" fs);
    src ← str (lookup "src" fs);
    Some (mkGalleryItem caption src)).

Definition brandInfo : Value -> option BrandInfo :=
  obj (fun fs =>
    name ← str (lookup "name" fs);
    description ← str (lookup "description" fs);
    website ← str (lookup "website" fs);
    updatedAt ← str (lookup "updatedAt" fs);
    Some (mkBrandInfo name description website updatedAt)).


(** What a schema accepts reads at the type [A]. *)
Definition infers {A : Type} (s : Schema) (read : Value -> option A) : Prop :=
  forall v out, parse s v = ([], out) -> exists x, read out = Some x.

End Infer.

(** What the proofs need of the Number that [parseInt] reads in radix 16
    from two characters, whatever they are: its text holds no comma and
    reads back, in radix 10, as a Number with the same text. *)
Definition pairTextOK (c1 c2 : ascii) : bool :=
  let t := Number_toString (parseInt (String c1 (String c2 "")) (Some 16)) in
  negb (hasChar "," t) && String.eqb (Number_toString (part t)) t.

(** * Facts about the colour codec *)

Lemma forallZ_spec n : forall lo p, forallZ n lo p = true ->
  forall z, lo <= z < lo + Z.of_nat n -> p z = true.
Proof.
  induction n as [|n IH]; intros lo p H z Hz; [lia|].
  cbn [forallZ] in H. apply andb_true_iff in H as [H0 H1].
  destruct (Z.eq_dec z lo) as [->|Hne]; [exact H0|].
  apply (IH (lo + 1) p H1). lia.
Qed.

Lemma in_allAscii c : In c allAscii.
Proof.
  unfold allAscii. rewrite <- (ascii_nat_embedding c).
  apply in_map, in_seq. pose proof (nat_ascii_bounded c). lia.
Qed.

Lemma forallb_allAscii p : forallb p allAscii = true -> forall c, p c = true.
Proof. intros H c. exact (proj1 (forallb_forall p allAscii) H c (in_allAscii c)). Qed.

Lemma float_eqb_eq x y : PrimFloat.Leibniz.eqb x y = true -> x = y.
Proof. apply FloatAxioms.Leibniz.eqb_spec. Qed.

(** *** Splitting at commas *)

Lemma split_not_nil sep s : String_split sep s <> [].
Proof.
  destruct s as [|c r]; cbn [String_split]; [discriminate|].
  destruct (Ascii.eqb c sep); [discriminate|].
  destruct (String_split sep r); discriminate.
Qed.

Lemma split_no_sep sep a : hasChar sep a = false -> String_split sep a = [a].
Proof.
  induction a as [|c r IH]; cbn [String_split hasChar]; [reflexivity|].
  intros H. apply orb_false_iff in H as [Hc Hr].
  rewrite Hc, (IH Hr). reflexivity.
Qed.

Lemma append_nil_l (s : string) : "" ++ s = s.
Proof. reflexivity. Qed.

Lemma append_cons c (r s : string) : String c r ++ s = String c (r ++ s).
Proof. reflexivity. Qed.

Lemma split_app_sep sep a rest : hasChar sep a = false ->
  String_split sep (a ++ String sep rest) = a :: String_split sep rest.
Proof.
  induction a as [|c r IH]; rewrite ?append_nil_l, ?append_cons;
    cbn [String_split hasChar].
  - intros _. rewrite Ascii.eqb_refl. reflexivity.
  - intros H. apply orb_false_iff in H as [Hc Hr].
    rewrite Hc, (IH Hr). reflexivity.
Qed.

Lemma part_space s : part (String " " s) = part s.
Proof. reflexivity. Qed.

Lemma parseParts_3 a b c :
  hasChar "," a = false -> hasChar "," b = false -> hasChar "," c = false ->
  parseParts (a ++ ", " ++ b ++ ", " ++ c) = [part a; part b; part c].
Proof.
  intros Ha Hb Hc. unfold parseParts.
  change (a ++ ", " ++ b ++ ", " ++ c)
    with (a ++ String "," ((String " " b) ++ String "," (String " " c))).
  rewrite (split_app_sep _ a _ Ha).
  rewrite (split_app_sep _ (String " " b)) by (cbn; exact Hb).
  rewrite (split_no_sep _ (String " " c)) by (cbn; exact Hc).
  reflexivity.
Qed.

Lemma parseParts_4 a b c d :
  hasChar "," a = false -> hasChar "," b = false -> hasChar "," c = false ->
  hasChar "," d = false ->
  parseParts (a ++ ", " ++ b ++ ", " ++ c ++ ", " ++ d) = [part a; part b; part c; part d].
Proof.
  intros Ha Hb Hc Hd. unfold parseParts.
  change (a ++ ", " ++ b ++ ", " ++ c ++ ", " ++ d)
    with (a ++ String "," ((String " " b) ++ String "," ((String " " c) ++ String "," (String " " d)))).
  rewrite (split_app_sep _ a _ Ha).
  rewrite (split_app_sep _ (String " " b)) by (cbn; exact Hb).
  rewrite (split_app_sep _ (String " " c)) by (cbn; exact Hc).
  rewrite (split_no_sep _ (String " " d)) by (cbn; exact Hd).
  reflexivity.
Qed.

(** *** Integers 0..255 and their decimal text *)

Lemma byteOK_all : forallZ 256 0 byteOK = true.
Proof. vm_compute. reflexivity. Qed.

Lemma byte_facts n : 0 <= n <= 255 ->
  hasChar "," (dec n) = false /\ part (dec n) = of_Z n /\ isNaN (of_Z n) = false
  /\ Regex.matches Regex.digits13 (dec n) = true /\ dec n <> "".
Proof.
  intros Hn. pose proof (forallZ_spec _ _ _ byteOK_all n ltac:(lia)) as H.
  unfold byteOK in H. fold (dec n) in H.
  repeat (apply andb_true_iff in H as [H ?]).
  repeat split.
  - now apply negb_true_iff.
  - now apply float_eqb_eq.
  - now apply negb_true_iff.
  - assumption.
  - intros E. rewrite E in *. discriminate.
Qed.

Lemma parseParts_dec3 r g b : 0 <= r <= 255 -> 0 <= g <= 255 -> 0 <= b <= 255 ->
  parseParts (dec r ++ ", " ++ dec g ++ ", " ++ dec b) = [of_Z r; of_Z g; of_Z b].
Proof.
  intros Hr Hg Hb.
  destruct (byte_facts r Hr) as (? & Er & _), (byte_facts g Hg) as (? & Eg & _),
    (byte_facts b Hb) as (? & Eb & _).
  rewrite parseParts_3 by assumption. now rewrite Er, Eg, Eb.
Qed.

Lemma parseParts_dec4 c m y k :
  0 <= c <= 255 -> 0 <= m <= 255 -> 0 <= y <= 255 -> 0 <= k <= 255 ->
  parseParts (dec c ++ ", " ++ dec m ++ ", " ++ dec y ++ ", " ++ dec k)
  = [of_Z c; of_Z m; of_Z y; of_Z k].
Proof.
  intros Hc Hm Hy Hk.
  destruct (byte_facts c Hc) as (? & Ec & _), (byte_facts m Hm) as (? & Em & _),
    (byte_facts y Hy) as (? & Ey & _), (byte_facts k Hk) as (? & Ek & _).
  rewrite parseParts_4 by assumption. now rewrite Ec, Em, Ey, Ek.
Qed.

(** *** Regular-expression matching *)

Section RegexFacts.
Import Regex.

Lemma matches_Empty s : matches Empty s = false.
Proof. induction s as [|c s IH]; [reflexivity|exact IH]. Qed.

Lemma matches_Eps s : matches Eps s = true <-> s = "".
Proof.
  destruct s as [|c s]; cbn; [tauto|].
  rewrite matches_Empty. split; discriminate.
Qed.

Lemma matches_Cls p s : matches (Cls p) s = true <-> exists c, s = String c "" /\ p c = true.
Proof.
  destruct s as [|c s]; cbn.
  - split; [discriminate|]. intros (c & E & _). discriminate.
  - destruct (p c) eqn:Hp.
    + rewrite matches_Eps. split.
      * intros ->. eauto.
      * intros (c' & E & _). now inversion E.
    + rewrite matches_Empty. split; [discriminate|].
      intros (c' & E & Hc). inversion E; subst. congruence.
Qed.

Lemma matches_Alt s : forall a b, matches (Alt a b) s = matches a s || matches b s.
Proof. induction s as [|c s IH]; intros a b; cbn; [reflexivity|apply IH]. Qed.

Lemma matches_Seq s : forall a b,
  matches (Seq a b) s = true <->
  exists s1 s2, s = s1 ++ s2 /\ matches a s1 = true /\ matches b s2 = true.
Proof.
  induction s as [|c s IH]; intros a b.
  - cbn. rewrite andb_true_iff. split.
    + intros [Ha Hb]. exists "", "". auto.
    + intros (s1 & s2 & E & Ha & Hb).
      destruct s1; [|discriminate]. destruct s2; [|discriminate]. auto.
  - cbn [matches deriv]. destruct (nullable a) eqn:Na.
    + rewrite matches_Alt, orb_true_iff, IH. split.
      * intros [(s1 & s2 & -> & Ha & Hb)|Hb].
        -- exists (String c s1), s2. auto.
        -- exists "", (String c s). auto.
      * intros (s1 & s2 & E & Ha & Hb). destruct s1 as [|c1 s1].
        -- right. rewrite append_nil_l in E. subst s2. exact Hb.
        -- left. rewrite append_cons in E. inversion E; subst. eauto.
    + rewrite IH. split.
      * intros (s1 & s2 & -> & Ha & Hb). exists (String c s1), s2. auto.
      * intros (s1 & s2 & E & Ha & Hb). destruct s1 as [|c1 s1].
        -- cbn in Ha. congruence.
        -- rewrite append_cons in E. inversion E; subst. eauto.
Qed.

Lemma matches_Seq_intro a b s1 s2 :
  matches a s1 = true -> matches b s2 = true -> matches (Seq a b) (s1 ++ s2) = true.
Proof. intros. apply matches_Seq. eauto. Qed.

(** A string matching [/^#[0-9A-Fa-f]{6}$/] is [#] and six hex digits. *)
Lemma hexPattern_inv h : matches hexPattern h = true ->
  exists c1 c2 c3 c4 c5 c6,
    h = String "#" (String c1 (String c2 (String c3 (String c4 (String c5 (String c6 ""))))))
    /\ isHexDigit c1 = true /\ isHexDigit c2 = true /\ isHexDigit c3 = true
    /\ isHexDigit c4 = true /\ isHexDigit c5 = true /\ isHexDigit c6 = true.
Proof.
  unfold hexPattern. cbn [rep]. intros H.
  apply matches_Seq in H as (s0 & t0 & -> & H0 & H).
  apply matches_Cls in H0 as (c0 & -> & Hc0).
  apply Ascii.eqb_eq in Hc0. subst c0.
  apply matches_Seq in H as (s1 & t1 & -> & H1 & H).
  apply matches_Cls in H1 as (c1 & -> & Hc1).
  apply matches_Seq in H as (s2 & t2 & -> & H2 & H).
  apply matches_Cls in H2 as (c2 & -> & Hc2).
  apply matches_Seq in H as (s3 & t3 & -> & H3 & H).
  apply matches_Cls in H3 as (c3 & -> & Hc3).
  apply matches_Seq in H as (s4 & t4 & -> & H4 & H).
  apply matches_Cls in H4 as (c4 & -> & Hc4).
  apply matches_Seq in H as (s5 & t5 & -> & H5 & H).
  apply matches_Cls in H5 as (c5 & -> & Hc5).
  apply matches_Seq in H as (s6 & t6 & -> & H6 & H).
  apply matches_Cls in H6 as (c6 & -> & Hc6).
  apply matches_Eps in H. subst t6.
  exists c1, c2, c3, c4, c5, c6. repeat split; assumption.
Qed.

Lemma hexPattern_intro c1 c2 c3 c4 c5 c6 :
  isHexDigit c1 = true -> isHexDigit c2 = true -> isHexDigit c3 = true ->
  isHexDigit c4 = true -> isHexDigit c5 = true -> isHexDigit c6 = true ->
  matches hexPattern
    (String "#" (String c1 (String c2 (String c3 (String c4 (String c5 (String c6 ""))))))) = true.
Proof.
  intros H1 H2 H3 H4 H5 H6. cbn. rewrite H1. cbn. rewrite H2. cbn. rewrite H3. cbn.
  rewrite H4. cbn. rewrite H5. cbn. rewrite H6. reflexivity.
Qed.

End RegexFacts.

(** *** Hexadecimal digit pairs and bytes *)

Lemma hexPairOK_all :
  forallb (fun c1 => forallb (fun c2 => hexPairOK c1 c2) allAscii) allAscii = true.
Proof. vm_compute. reflexivity. Qed.

Lemma hexPair_facts c1 c2 : isHexDigit c1 = true -> isHexDigit c2 = true ->
  0 <= byteOfHex c1 c2 <= 255
  /\ parseInt (String c1 (String c2 "")) (Some 16) = of_Z (byteOfHex c1 c2)
  /\ hexByte (of_Z (byteOfHex c1 c2)) = String (lowerChar c1) (String (lowerChar c2) "").
Proof.
  intros H1 H2.
  pose proof (forallb_allAscii _ (forallb_allAscii _ hexPairOK_all c1) c2) as H.
  unfold hexPairOK in H. rewrite H1, H2 in H. cbn [andb] in H.
  repeat (apply andb_true_iff in H as [H ?]).
  repeat split; try lia.
  - now apply float_eqb_eq.
  - now apply String.eqb_eq.
Qed.

Lemma hexByteOK_all : forallZ 256 0 hexByteOK = true.
Proof. vm_compute. reflexivity. Qed.

Lemma hexByte_facts n : 0 <= n <= 255 ->
  exists c1 c2, hexByte (of_Z n) = String c1 (String c2 "")
    /\ isHexDigit c1 = true /\ isHexDigit c2 = true
    /\ parseInt (String c1 (String c2 "")) (Some 16) = of_Z n.
Proof.
  intros Hn. pose proof (forallZ_spec _ _ _ hexByteOK_all n ltac:(lia)) as H.
  unfold hexByteOK in H.
  destruct (hexByte (of_Z n)) as [|c1 [|c2 [|]]]; try discriminate.
  repeat (apply andb_true_iff in H as [H ?]).
  exists c1, c2. repeat split; try assumption. now apply float_eqb_eq.
Qed.

(** *** The codec functions in terms of their parsed parts *)

Lemma rgbToHex_parts s r g b :
  parseParts s = [r; g; b] -> isNaN r = false -> isNaN g = false -> isNaN b = false ->
  rgbToHex s = String "#" (hexByte r ++ hexByte g ++ hexByte b).
Proof.
  intros E Hr Hg Hb. unfold rgbToHex. rewrite E. cbn [List.length Nat.eqb negb orb existsb].
  rewrite Hr, Hg, Hb. cbn [orb map Array_join fold_right]. fold (hexByte r) (hexByte g) (hexByte b).
  f_equal. f_equal. f_equal. 
  generalize (hexByte b). intros x. induction x as [|c x IH]; [reflexivity|].
  rewrite append_cons. now f_equal.
Qed.

Lemma hexToRgb_digits c1 c2 c3 c4 c5 c6 :
  hexToRgb (String "#" (String c1 (String c2 (String c3 (String c4 (String c5 (String c6 "")))))))
  = Number_toString (parseInt (String c1 (String c2 "")) (Some 16)) ++ ", "
    ++ Number_toString (parseInt (String c3 (String c4 "")) (Some 16)) ++ ", "
    ++ Number_toString (parseInt (String c5 (String c6 "")) (Some 16)).
Proof. reflexivity. Qed.

Lemma hexToRgb_valid c1 c2 c3 c4 c5 c6 :
  isHexDigit c1 = true -> isHexDigit c2 = true -> isHexDigit c3 = true ->
  isHexDigit c4 = true -> isHexDigit c5 = true -> isHexDigit c6 = true ->
  hexToRgb (String "#" (String c1 (String c2 (String c3 (String c4 (String c5 (String c6 "")))))))
  = dec (byteOfHex c1 c2) ++ ", " ++ dec (byteOfHex c3 c4) ++ ", " ++ dec (byteOfHex c5 c6).
Proof.
  intros H1 H2 H3 H4 H5 H6. rewrite hexToRgb_digits.
  destruct (hexPair_facts c1 c2 H1 H2) as (_ & -> & _).
  destruct (hexPair_facts c3 c4 H3 H4) as (_ & -> & _).
  destruct (hexPair_facts c5 c6 H5 H6) as (_ & -> & _).
  reflexivity.
Qed.

Lemma rgbToHex_dec r g b : 0 <= r <= 255 -> 0 <= g <= 255 -> 0 <= b <= 255 ->
  rgbToHex (dec r ++ ", " ++ dec g ++ ", " ++ dec b)
  = String "#" (hexByte (of_Z r) ++ hexByte (of_Z g) ++ hexByte (of_Z b)).
Proof.
  intros Hr Hg Hb. apply rgbToHex_parts.
  - now apply parseParts_dec3.
  - apply (byte_facts r Hr).
  - apply (byte_facts g Hg).
  - apply (byte_facts b Hb).
Qed.

(** C2 (as amended): for every valid 6-digit hex string [h], [rgbToHex
    (hexToRgb h)] is [h] with its letters in lower case. *)
Theorem hex_rgb_roundtrip_lowercase h :
  Regex.matches Regex.hexPattern h = true ->
  rgbToHex (hexToRgb h) = String_toLowerCase h.
Proof.
  intros H. apply hexPattern_inv in H as (c1 & c2 & c3 & c4 & c5 & c6 & -> & H1 & H2 & H3 & H4 & H5 & H6).
  rewrite hexToRgb_valid by assumption.
  destruct (hexPair_facts c1 c2 H1 H2) as (B1 & _ & E1).
  destruct (hexPair_facts c3 c4 H3 H4) as (B2 & _ & E2).
  destruct (hexPair_facts c5 c6 H5 H6) as (B3 & _ & E3).
  rewrite rgbToHex_dec by assumption. rewrite E1, E2, E3. reflexivity.
Qed.

Lemma hex_rgb_roundtrip_lowercase_witness :
  Regex.matches Regex.hexPattern "#03a2F9" = true
  /\ rgbToHex (hexToRgb "#03a2F9") = "#03a2f9".
Proof.
  split; [reflexivity|].
  exact (hex_rgb_roundtrip_lowercase "#03a2F9" eq_refl).
Defined.

(** C2 as stated fails on upper-case digits: [#ABCDEF] is a valid hex string
    and comes back as [#abcdef]. *)
Lemma hex_rgb_roundtrip_uppercase_counterexample :
  Regex.matches Regex.hexPattern "#ABCDEF" = true
  /\ rgbToHex (hexToRgb "#ABCDEF") = "#abcdef"
  /\ rgbToHex (hexToRgb "#ABCDEF") <> "#ABCDEF".
Proof. vm_compute. repeat split. discriminate. Qed.

(** *** Rounding and the component arithmetic *)

Lemma roundCheck_spec x P : roundCheck x P = true ->
  Math_round x = of_Z (roundInt x) /\ P (roundInt x) = true.
Proof.
  unfold roundCheck, Math_round, roundInt. destruct (roundHalfUp x) as [n|].
  - intros H. apply andb_true_iff in H as [H HP]. split; [|exact HP].
    destruct (n =? 0) eqn:E; [|reflexivity].
    cbn [negb orb] in H.
    apply negb_true_iff in H. rewrite H. apply Z.eqb_eq in E. now subst n.
  - intros H. apply andb_true_iff in H as [H HP]. split; [|exact HP].
    now apply float_eqb_eq in H.
Qed.

Lemma in_rangeZ n : forall lo z, lo <= z < lo + Z.of_nat n -> In z (rangeZ n lo).
Proof.
  induction n as [|n IH]; intros lo z Hz; [lia|].
  destruct (Z.eq_dec z lo) as [->|Hne]; [now left|].
  right. apply IH. lia.
Qed.

Lemma inRange_spec lo hi z : inRange lo hi z = true -> lo <= z <= hi.
Proof. unfold inRange. intros H. apply andb_true_iff in H as [? ?]. lia. Qed.

Lemma maxOK_true : maxOK = true.
Proof. vm_compute. reflexivity. Qed.

Lemma max2_f255 a b : 0 <= a <= 255 -> 0 <= b <= 255 ->
  max2 (f255 a) (f255 b) = f255 (Z.max a b).
Proof.
  intros Ha Hb. pose proof maxOK_true as H. unfold maxOK in H. cbv zeta in H.
  rewrite forallb_forall in H.
  specialize (H (a, f255 a)). rewrite forallb_forall in H.
  assert (Hin : forall n, 0 <= n <= 255 ->
            In (n, f255 n) (map (fun n => (n, f255 n)) (rangeZ 256 0))).
  { intros n Hn. apply (in_map (fun n => (n, f255 n))). apply in_rangeZ. lia. }
  specialize (H (Hin a Ha) (b, f255 b) (Hin b Hb)). cbn [fst snd] in H.
  apply float_eqb_eq in H. rewrite H.
  destruct (a <? b) eqn:E.
  - apply Z.ltb_lt in E. now rewrite Z.max_r by lia.
  - apply Z.ltb_ge in E. now rewrite Z.max_l by lia.
Qed.

Lemma Math_max_f255 r g b : 0 <= r <= 255 -> 0 <= g <= 255 -> 0 <= b <= 255 ->
  Math_max (f255 r) (f255 g) (f255 b) = f255 (Z.max (Z.max r g) b).
Proof.
  intros Hr Hg Hb. unfold Math_max.
  rewrite (max2_f255 r g Hr Hg). apply max2_f255; lia.
Qed.

Lemma forwardOK_all : forallZ 255 1 forwardOK = true.
Proof. vm_compute. reflexivity. Qed.

Lemma forward_facts mx x : 1 <= mx <= 255 -> 0 <= x <= mx ->
  PrimFloat.eqb (blackOf (f255 mx)) 1 = false
  /\ Math_round (blackOf (f255 mx) * 100)%float = of_Z (blackZ mx)
  /\ 0 <= blackZ mx <= 100
  /\ Math_round (scaled (f255 x) (blackOf (f255 mx))) = of_Z (cyanZ x mx)
  /\ 0 <= cyanZ x mx <= 100
  /\ Z.abs (channelZ (cyanZ x mx) (blackZ mx) - x) <= 2
  /\ PrimFloat.get_sign (blackOf (f255 mx) * 100)%float = false
  /\ PrimFloat.get_sign (scaled (f255 x) (blackOf (f255 mx))) = false.
Proof.
  intros Hmx Hx. pose proof (forallZ_spec _ _ _ forwardOK_all mx ltac:(lia)) as H.
  unfold forwardOK in H. cbv zeta in H.
  apply andb_true_iff in H as [Hk H]. apply andb_true_iff in Hk as [Hk Sk].
  apply negb_true_iff in Hk. apply negb_true_iff in Sk.
  apply roundCheck_spec in H as [EK H]. fold (blackZ mx) in EK, H.
  apply andb_true_iff in H as [RK H]. apply inRange_spec in RK.
  pose proof (forallZ_spec _ _ _ H x ltac:(lia)) as Hx'. cbv beta in Hx'.
  apply andb_true_iff in Hx' as [Sx Hx']. apply negb_true_iff in Sx.
  apply roundCheck_spec in Hx' as [EC Hx']. fold (cyanZ x mx) in EC, Hx'.
  apply andb_true_iff in Hx' as [RC D]. apply inRange_spec in RC. apply Z.leb_le in D.
  repeat split; try assumption; lia.
Qed.

Lemma backwardOK_all : forallZ 101 0 backwardOK = true.
Proof. vm_compute. reflexivity. Qed.

Lemma backward_facts c k : 0 <= c <= 100 -> 0 <= k <= 100 ->
  Math_round (channel (f100 c) (f100 k)) = of_Z (channelZ c k)
  /\ 0 <= channelZ c k <= 255.
Proof.
  intros Hc Hk. pose proof (forallZ_spec _ _ _ backwardOK_all c ltac:(lia)) as H.
  unfold backwardOK in H. cbv zeta in H.
  pose proof (forallZ_spec _ _ _ H k ltac:(lia)) as H'. cbv beta in H'.
  apply roundCheck_spec in H' as [E R]. apply inRange_spec in R. now split.
Qed.

(** *** [rgbToCmyk] and [cmykToRgb] in terms of their parsed parts *)

Lemma rgbToCmyk_parts s r g b :
  parseParts s = [r; g; b] -> isNaN r = false -> isNaN g = false -> isNaN b = false ->
  rgbToCmyk s =
    let k := blackOf (Math_max (r / 255) (g / 255) (b / 255))%float in
    if PrimFloat.eqb k 1 then "0, 0, 0, 100"
    else Number_toString (Math_round (scaled (r / 255)%float k)) ++ ", "
         ++ Number_toString (Math_round (scaled (g / 255)%float k)) ++ ", "
         ++ Number_toString (Math_round (scaled (b / 255)%float k)) ++ ", "
         ++ Number_toString (Math_round (k * 100)%float).
Proof.
  intros E Hr Hg Hb. unfold rgbToCmyk. rewrite E.
  cbn [List.length Nat.eqb negb orb existsb map]. rewrite Hr, Hg, Hb. reflexivity.
Qed.

Lemma cmykToRgb_parts s c m y k :
  parseParts s = [c; m; y; k] ->
  isNaN c = false -> isNaN m = false -> isNaN y = false -> isNaN k = false ->
  cmykToRgb s =
    Number_toString (Math_round (channel (c / 100) (k / 100))%float) ++ ", "
    ++ Number_toString (Math_round (channel (m / 100) (k / 100))%float) ++ ", "
    ++ Number_toString (Math_round (channel (y / 100) (k / 100))%float).
Proof.
  intros E Hc Hm Hy Hk. unfold cmykToRgb. rewrite E.
  cbn [List.length Nat.eqb negb orb existsb map]. rewrite Hc, Hm, Hy, Hk. reflexivity.
Qed.

Lemma blackOf_zero : PrimFloat.eqb (blackOf (f255 0)) 1 = true.
Proof. reflexivity. Qed.

(** On components 0..255: pure black, or four percentages 0..100. *)
Lemma rgbToCmyk_bytes s r g b :
  parseParts s = [of_Z r; of_Z g; of_Z b] ->
  0 <= r <= 255 -> 0 <= g <= 255 -> 0 <= b <= 255 ->
  let mx := Z.max (Z.max r g) b in
  rgbToCmyk s =
    if mx =? 0 then "0, 0, 0, 100"
    else dec (cyanZ r mx) ++ ", " ++ dec (cyanZ g mx) ++ ", " ++ dec (cyanZ b mx)
         ++ ", " ++ dec (blackZ mx).
Proof.
  intros E Hr Hg Hb mx.
  rewrite (rgbToCmyk_parts s _ _ _ E)
    by (apply byte_facts; assumption).
  cbv zeta. fold (f255 r) (f255 g) (f255 b).
  rewrite (Math_max_f255 r g b Hr Hg Hb). fold mx.
  destruct (mx =? 0) eqn:Emx.
  - apply Z.eqb_eq in Emx. rewrite Emx. now rewrite blackOf_zero.
  - apply Z.eqb_neq in Emx.
    assert (Hmx : 1 <= mx <= 255) by lia.
    destruct (forward_facts mx r Hmx ltac:(lia)) as (Hk & EK & _ & ER & _).
    destruct (forward_facts mx g Hmx ltac:(lia)) as (_ & _ & _ & EG & _).
    destruct (forward_facts mx b Hmx ltac:(lia)) as (_ & _ & _ & EB & _).
    rewrite Hk, EK, ER, EG, EB. reflexivity.
Qed.

(** On percentages 0..100: three components 0..255. *)
Lemma cmykToRgb_bytes s c m y k :
  parseParts s = [of_Z c; of_Z m; of_Z y; of_Z k] ->
  0 <= c <= 100 -> 0 <= m <= 100 -> 0 <= y <= 100 -> 0 <= k <= 100 ->
  cmykToRgb s = dec (channelZ c k) ++ ", " ++ dec (channelZ m k) ++ ", " ++ dec (channelZ y k).
Proof.
  intros E Hc Hm Hy Hk.
  rewrite (cmykToRgb_parts s _ _ _ _ E)
    by (apply byte_facts; lia).
  fold (f100 c) (f100 m) (f100 y) (f100 k).
  destruct (backward_facts c k Hc Hk) as [-> _].
  destruct (backward_facts m k Hm Hk) as [-> _].
  destruct (backward_facts y k Hy Hk) as [-> _].
  reflexivity.
Qed.

(** *** Valid target strings *)

Section Validity.
Import Regex.

Lemma rgbText_valid r g b : 0 <= r <= 255 -> 0 <= g <= 255 -> 0 <= b <= 255 ->
  matches rgbPattern (rgbText r g b) = true.
Proof.
  intros Hr Hg Hb.
  destruct (byte_facts r Hr) as (_ & _ & _ & Mr & _).
  destruct (byte_facts g Hg) as (_ & _ & _ & Mg & _).
  destruct (byte_facts b Hb) as (_ & _ & _ & Mb & _).
  unfold rgbText, rgbPattern.
  change (dec r ++ ", " ++ dec g ++ ", " ++ dec b)
    with (dec r ++ "," ++ " " ++ dec g ++ "," ++ " " ++ dec b).
  repeat (apply matches_Seq_intro; [assumption || reflexivity|]). assumption.
Qed.

Lemma cmykText_valid c m y k :
  0 <= c <= 255 -> 0 <= m <= 255 -> 0 <= y <= 255 -> 0 <= k <= 255 ->
  matches cmykPattern (cmykText c m y k) = true.
Proof.
  intros Hc Hm Hy Hk.
  destruct (byte_facts c Hc) as (_ & _ & _ & Mc & _).
  destruct (byte_facts m Hm) as (_ & _ & _ & Mm & _).
  destruct (byte_facts y Hy) as (_ & _ & _ & My & _).
  destruct (byte_facts k Hk) as (_ & _ & _ & Mk & _).
  unfold cmykText, cmykPattern.
  change (dec c ++ ", " ++ dec m ++ ", " ++ dec y ++ ", " ++ dec k)
    with (dec c ++ "," ++ " " ++ dec m ++ "," ++ " " ++ dec y ++ "," ++ " " ++ dec k).
  repeat (apply matches_Seq_intro; [assumption || reflexivity|]). assumption.
Qed.

End Validity.

Lemma append_not_empty (s t : string) : s <> "" -> String.eqb (s ++ t) "" = false.
Proof. destruct s; [congruence|reflexivity]. Qed.

Lemma rgbText_not_empty r g b : 0 <= r <= 255 -> String.eqb (rgbText r g b) "" = false.
Proof. intros Hr. apply append_not_empty. apply (byte_facts r Hr). Qed.

Lemma parseParts_rgbText r g b : 0 <= r <= 255 -> 0 <= g <= 255 -> 0 <= b <= 255 ->
  parseParts (rgbText r g b) = [of_Z r; of_Z g; of_Z b].
Proof. apply parseParts_dec3. Qed.

(** The hex string of three bytes is valid, and [hexToRgb] reads the bytes
    back. *)
Lemma hex_of_bytes r g b : 0 <= r <= 255 -> 0 <= g <= 255 -> 0 <= b <= 255 ->
  let h := String "#" (hexByte (of_Z r) ++ hexByte (of_Z g) ++ hexByte (of_Z b)) in
  Regex.matches Regex.hexPattern h = true /\ hexToRgb h = rgbText r g b.
Proof.
  intros Hr Hg Hb.
  destruct (hexByte_facts r Hr) as (a1 & a2 & -> & A1 & A2 & Ea).
  destruct (hexByte_facts g Hg) as (b1 & b2 & -> & B1 & B2 & Eb).
  destruct (hexByte_facts b Hb) as (c1 & c2 & -> & C1 & C2 & Ec).
  cbv zeta. rewrite !append_cons, !append_nil_l. split.
  - now apply hexPattern_intro.
  - rewrite hexToRgb_digits, Ea, Eb, Ec. reflexivity.
Qed.

Lemma hexdigit_not_hash_all : forallb (fun c => negb (isHexDigit c) || negb (Ascii.eqb c "#")) allAscii = true.
Proof. vm_compute. reflexivity. Qed.

Lemma hexdigit_not_hash c : isHexDigit c = true -> Ascii.eqb c "#" = false.
Proof.
  intros H. pose proof (forallb_allAscii _ hexdigit_not_hash_all c) as H'.
  cbv beta in H'. rewrite H in H'. cbn [negb orb] in H'. now apply negb_true_iff.
Qed.

(** [hexToRgb] accepts the six digits without the leading [#] as well. *)
Lemma hexToRgb_no_hash c1 c2 c3 c4 c5 c6 :
  isHexDigit c1 = true -> isHexDigit c2 = true -> isHexDigit c3 = true ->
  isHexDigit c4 = true -> isHexDigit c5 = true -> isHexDigit c6 = true ->
  hexToRgb (String c1 (String c2 (String c3 (String c4 (String c5 (String c6 ""))))))
  = hexToRgb (String "#" (String c1 (String c2 (String c3 (String c4 (String c5 (String c6 ""))))))).
Proof.
  intros H1 H2 H3 H4 H5 H6. unfold hexToRgb. cbn [String_replace_first].
  rewrite !hexdigit_not_hash by assumption. reflexivity.
Qed.

Lemma hexToCmyk_eq h h' : hexToRgb h = hexToRgb h' -> hexToCmyk h = hexToCmyk h'.
Proof. unfold hexToCmyk. now intros ->. Qed.

(** [hexToCmyk] goes through [rgbToCmyk] on the same three bytes. *)
Lemma hexToCmyk_bytes h r g b : 0 <= r <= 255 -> 0 <= g <= 255 -> 0 <= b <= 255 ->
  hexToRgb h = rgbText r g b -> hexToCmyk h = rgbToCmyk (rgbText r g b).
Proof.
  intros Hr Hg Hb E. unfold hexToCmyk. rewrite E, (rgbText_not_empty r g b Hr).
  rewrite parseParts_rgbText by assumption. reflexivity.
Qed.

Lemma rgbToCmyk_text r g b : 0 <= r <= 255 -> 0 <= g <= 255 -> 0 <= b <= 255 ->
  let mx := Z.max (Z.max r g) b in
  rgbToCmyk (rgbText r g b) =
    if mx =? 0 then cmykText 0 0 0 100
    else cmykText (cyanZ r mx) (cyanZ g mx) (cyanZ b mx) (blackZ mx).
Proof.
  intros Hr Hg Hb. apply rgbToCmyk_bytes; try assumption.
  now apply parseParts_rgbText.
Qed.

Lemma cmykToHex_bytes s c m y k :
  parseParts s = [of_Z c; of_Z m; of_Z y; of_Z k] ->
  0 <= c <= 100 -> 0 <= m <= 100 -> 0 <= y <= 100 -> 0 <= k <= 100 ->
  cmykToRgb s = rgbText (channelZ c k) (channelZ m k) (channelZ y k)
  /\ cmykToHex s = String "#" (hexByte (of_Z (channelZ c k)) ++ hexByte (of_Z (channelZ m k))
                                 ++ hexByte (of_Z (channelZ y k))).
Proof.
  intros E Hc Hm Hy Hk.
  pose proof (cmykToRgb_bytes s c m y k E Hc Hm Hy Hk) as E'.
  destruct (backward_facts c k Hc Hk) as [_ Rc].
  destruct (backward_facts m k Hm Hk) as [_ Rm].
  destruct (backward_facts y k Hy Hk) as [_ Ry].
  split; [exact E'|].
  unfold cmykToHex. rewrite E'. fold (rgbText (channelZ c k) (channelZ m k) (channelZ y k)).
  rewrite (rgbText_not_empty _ _ _ Rc). now apply rgbToHex_dec.
Qed.

Lemma parseParts_cmykText c m y k :
  0 <= c <= 100 -> 0 <= m <= 100 -> 0 <= y <= 100 -> 0 <= k <= 100 ->
  parseParts (cmykText c m y k) = [of_Z c; of_Z m; of_Z y; of_Z k].
Proof. intros. apply parseParts_dec4; lia. Qed.

(** The percentages [hexToCmyk] yields for three bytes, and what
    [cmykToHex] makes of them. *)
Lemma cmyk_roundtrip_bytes r g b : 0 <= r <= 255 -> 0 <= g <= 255 -> 0 <= b <= 255 ->
  exists r' g' b',
    (0 <= r' <= 255 /\ 0 <= g' <= 255 /\ 0 <= b' <= 255)
    /\ cmykToHex (rgbToCmyk (rgbText r g b))
       = String "#" (hexByte (of_Z r') ++ hexByte (of_Z g') ++ hexByte (of_Z b'))
    /\ Z.abs (r' - r) <= 2 /\ Z.abs (g' - g) <= 2 /\ Z.abs (b' - b) <= 2.
Proof.
  intros Hr Hg Hb. rewrite rgbToCmyk_text by assumption. cbv zeta.
  set (mx := Z.max (Z.max r g) b). destruct (mx =? 0) eqn:Emx.
  - apply Z.eqb_eq in Emx. assert (r = 0 /\ g = 0 /\ b = 0) as (-> & -> & ->) by lia.
    exists 0, 0, 0. split; [lia|]. split; [|lia]. vm_compute. reflexivity.
  - apply Z.eqb_neq in Emx. assert (Hmx : 1 <= mx <= 255) by lia.
    destruct (forward_facts mx r Hmx ltac:(lia)) as (_ & _ & RK & _ & RCr & Dr).
    destruct (forward_facts mx g Hmx ltac:(lia)) as (_ & _ & _ & _ & RCg & Dg).
    destruct (forward_facts mx b Hmx ltac:(lia)) as (_ & _ & _ & _ & RCb & Db).
    destruct (cmykToHex_bytes _ _ _ _ _
                (parseParts_cmykText _ _ _ _ RCr RCg RCb RK) RCr RCg RCb RK) as [_ E].
    exists (channelZ (cyanZ r mx) (blackZ mx)), (channelZ (cyanZ g mx) (blackZ mx)),
      (channelZ (cyanZ b mx) (blackZ mx)).
    split; [|split; [exact E|lia]].
    repeat split; apply backward_facts; assumption.
Qed.

(** C5 (as amended): for every valid 6-digit hex string [h], [cmykToHex
    (hexToCmyk h)] is a valid hex string, and each of its three RGB
    components differs from the corresponding component of [h] by at most
    2. *)
Theorem cmyk_roundtrip_drift h :
  Regex.matches Regex.hexPattern h = true -> driftWithin 2 h.
Proof.
  intros H.
  apply hexPattern_inv in H as (c1 & c2 & c3 & c4 & c5 & c6 & -> & H1 & H2 & H3 & H4 & H5 & H6).
  pose proof (hexToRgb_valid c1 c2 c3 c4 c5 c6 H1 H2 H3 H4 H5 H6) as E.
  destruct (hexPair_facts c1 c2 H1 H2) as (Br & _).
  destruct (hexPair_facts c3 c4 H3 H4) as (Bg & _).
  destruct (hexPair_facts c5 c6 H5 H6) as (Bb & _).
  fold (rgbText (byteOfHex c1 c2) (byteOfHex c3 c4) (byteOfHex c5 c6)) in E.
  unfold driftWithin. cbv zeta.
  rewrite (hexToCmyk_bytes _ _ _ _ Br Bg Bb E).
  destruct (cmyk_roundtrip_bytes _ _ _ Br Bg Bb) as (r' & g' & b' & (Rr & Rg & Rb) & -> & Dr & Dg & Db).
  destruct (hex_of_bytes r' g' b' Rr Rg Rb) as [V E'].
  split; [exact V|].
  exists (byteOfHex c1 c2), (byteOfHex c3 c4), (byteOfHex c5 c6), r', g', b'.
  repeat split; try assumption; lia.
Qed.

Lemma cmyk_roundtrip_drift_witness :
  Regex.matches Regex.hexPattern "#035259" = true /\ driftWithin 2 "#035259".
Proof. split; [reflexivity|]. apply cmyk_roundtrip_drift. reflexivity. Defined.

Lemma of_Z_byte_inj a b : 0 <= a <= 255 -> 0 <= b <= 255 -> of_Z a = of_Z b -> a = b.
Proof.
  intros Ha Hb E.
  assert (H : forall n, 0 <= n <= 255 -> to_Z (of_Z n) = Some n).
  { intros n Hn.
    assert (A : forallZ 256 0 (fun n => match to_Z (of_Z n) with
                                        | Some m => m =? n | None => false end) = true)
      by (vm_compute; reflexivity).
    pose proof (forallZ_spec _ _ _ A n ltac:(lia)) as A'. cbv beta in A'.
    destruct (to_Z (of_Z n)); [|discriminate]. apply Z.eqb_eq in A'. now subst. }
  pose proof (H a Ha) as Ea. rewrite E, (H b Hb) in Ea. congruence.
Qed.

Lemma rgbText_inj r g b r' g' b' :
  0 <= r <= 255 -> 0 <= g <= 255 -> 0 <= b <= 255 ->
  0 <= r' <= 255 -> 0 <= g' <= 255 -> 0 <= b' <= 255 ->
  rgbText r g b = rgbText r' g' b' -> r = r' /\ g = g' /\ b = b'.
Proof.
  intros Hr Hg Hb Hr' Hg' Hb' E.
  pose proof (parseParts_rgbText r g b Hr Hg Hb) as P.
  rewrite E, parseParts_rgbText in P by assumption.
  inversion P. repeat split; apply of_Z_byte_inj; auto.
Qed.

(** C5 as stated fails: [#fdfe00] is valid and comes back as [#ffff00],
    whose red component 255 is 2 away from 253. *)
Lemma cmyk_roundtrip_drift_counterexample :
  Regex.matches Regex.hexPattern "#fdfe00" = true
  /\ hexToCmyk "#fdfe00" = "0, 0, 100, 0"
  /\ cmykToHex (hexToCmyk "#fdfe00") = "#ffff00"
  /\ ~ driftWithin 1 "#fdfe00".
Proof.
  split; [reflexivity|]. split; [vm_compute; reflexivity|]. split; [vm_compute; reflexivity|].
  intros (_ & r & g & b & r' & g' & b' & (Hr & Hg & Hb) & (Hr' & Hg' & Hb') & E & E' & D & _).
  change (hexToRgb "#fdfe00") with (rgbText 253 254 0) in E.
  assert (X : hexToRgb (cmykToHex (hexToCmyk "#fdfe00")) = rgbText 255 255 0)
    by (vm_compute; reflexivity).
  rewrite X in E'.
  apply rgbText_inj in E as (<- & _); try lia; try assumption.
  apply rgbText_inj in E' as (<- & _); try lia; try assumption.
Qed.

(** *** The sentinel and the target formats *)

Lemma rgb_parts_rejected s :
  List.length (parseParts s) <> 3%nat \/ existsb isNaN (parseParts s) = true ->
  rgbToHex s = "" /\ rgbToCmyk s = "".
Proof.
  intros H. unfold rgbToHex, rgbToCmyk.
  assert (E : negb (Nat.eqb (List.length (parseParts s)) 3) || existsb isNaN (parseParts s) = true).
  { destruct H as [H|H].
    - apply Nat.eqb_neq in H. now rewrite H.
    - rewrite H. apply orb_true_r. }
  now rewrite E.
Qed.

Lemma cmyk_parts_rejected s :
  List.length (parseParts s) <> 4%nat \/ existsb isNaN (parseParts s) = true ->
  cmykToRgb s = "" /\ cmykToHex s = "".
Proof.
  intros H. unfold cmykToHex, cmykToRgb.
  assert (E : negb (Nat.eqb (List.length (parseParts s)) 4) || existsb isNaN (parseParts s) = true).
  { destruct H as [H|H].
    - apply Nat.eqb_neq in H. now rewrite H.
    - rewrite H. apply orb_true_r. }
  now rewrite E.
Qed.

Lemma hex_length_rejected h :
  String.length (String_replace_first "#" h) <> 6%nat -> hexToRgb h = "" /\ hexToCmyk h = "".
Proof.
  intros H. unfold hexToCmyk, hexToRgb. apply Nat.eqb_neq in H. now rewrite H.
Qed.

Lemma hex_digits_accepted h :
  Regex.matches Regex.hexPattern h = true \/ Regex.matches Regex.hexPattern (String "#" h) = true ->
  Regex.matches Regex.rgbPattern (hexToRgb h) = true
  /\ Regex.matches Regex.cmykPattern (hexToCmyk h) = true.
Proof.
  assert (A : forall h, Regex.matches Regex.hexPattern h = true ->
    Regex.matches Regex.rgbPattern (hexToRgb h) = true
    /\ Regex.matches Regex.cmykPattern (hexToCmyk h) = true).
  { clear h. intros h H.
    apply hexPattern_inv in H as (c1 & c2 & c3 & c4 & c5 & c6 & -> & H1 & H2 & H3 & H4 & H5 & H6).
    pose proof (hexToRgb_valid c1 c2 c3 c4 c5 c6 H1 H2 H3 H4 H5 H6) as E.
    destruct (hexPair_facts c1 c2 H1 H2) as (Br & _).
    destruct (hexPair_facts c3 c4 H3 H4) as (Bg & _).
    destruct (hexPair_facts c5 c6 H5 H6) as (Bb & _).
    fold (rgbText (byteOfHex c1 c2) (byteOfHex c3 c4) (byteOfHex c5 c6)) in E.
    split.
    - rewrite E. now apply rgbText_valid.
    - rewrite (hexToCmyk_bytes _ _ _ _ Br Bg Bb E), rgbToCmyk_text by assumption.
      cbv zeta. set (mx := Z.max (Z.max (byteOfHex c1 c2) (byteOfHex c3 c4)) (byteOfHex c5 c6)).
      destruct (mx =? 0) eqn:Emx; [reflexivity|].
      apply Z.eqb_neq in Emx. assert (Hmx : 1 <= mx <= 255) by lia.
      destruct (forward_facts mx (byteOfHex c1 c2) Hmx ltac:(lia)) as (_ & _ & RK & _ & RCr & _).
      destruct (forward_facts mx (byteOfHex c3 c4) Hmx ltac:(lia)) as (_ & _ & _ & _ & RCg & _).
      destruct (forward_facts mx (byteOfHex c5 c6) Hmx ltac:(lia)) as (_ & _ & _ & _ & RCb & _).
      apply cmykText_valid; lia. }
  intros [H|H]; [now apply A|].
  pose proof H as H'.
  apply hexPattern_inv in H' as (c1 & c2 & c3 & c4 & c5 & c6 & E & H1 & H2 & H3 & H4 & H5 & H6).
  inversion E; subst h.
  pose proof (hexToRgb_no_hash c1 c2 c3 c4 c5 c6 H1 H2 H3 H4 H5 H6) as N.
  rewrite (hexToCmyk_eq _ _ N), N. now apply A.
Qed.

Lemma rgb_bytes_accepted s r g b :
  parseParts s = [of_Z r; of_Z g; of_Z b] ->
  0 <= r <= 255 -> 0 <= g <= 255 -> 0 <= b <= 255 ->
  Regex.matches Regex.hexPattern (rgbToHex s) = true
  /\ Regex.matches Regex.cmykPattern (rgbToCmyk s) = true.
Proof.
  intros E Hr Hg Hb. split.
  - rewrite (rgbToHex_parts s _ _ _ E) by (apply byte_facts; assumption).
    apply (hex_of_bytes r g b Hr Hg Hb).
  - rewrite (rgbToCmyk_bytes s r g b E Hr Hg Hb). cbv zeta.
    set (mx := Z.max (Z.max r g) b).
    destruct (mx =? 0) eqn:Emx; [reflexivity|].
    apply Z.eqb_neq in Emx. assert (Hmx : 1 <= mx <= 255) by lia.
    destruct (forward_facts mx r Hmx ltac:(lia)) as (_ & _ & RK & _ & RCr & _).
    destruct (forward_facts mx g Hmx ltac:(lia)) as (_ & _ & _ & _ & RCg & _).
    destruct (forward_facts mx b Hmx ltac:(lia)) as (_ & _ & _ & _ & RCb & _).
    apply cmykText_valid; lia.
Qed.

Lemma cmyk_percent_accepted s c m y k :
  parseParts s = [of_Z c; of_Z m; of_Z y; of_Z k] ->
  0 <= c <= 100 -> 0 <= m <= 100 -> 0 <= y <= 100 -> 0 <= k <= 100 ->
  Regex.matches Regex.rgbPattern (cmykToRgb s) = true
  /\ Regex.matches Regex.hexPattern (cmykToHex s) = true.
Proof.
  intros E Hc Hm Hy Hk.
  destruct (cmykToHex_bytes s c m y k E Hc Hm Hy Hk) as [-> ->].
  destruct (backward_facts c k Hc Hk) as [_ Rc].
  destruct (backward_facts m k Hm Hk) as [_ Rm].
  destruct (backward_facts y k Hy Hk) as [_ Ry].
  split.
  - now apply rgbText_valid.
  - apply (hex_of_bytes _ _ _ Rc Rm Ry).
Qed.

(** *** Parts that are integers, [-0] among them *)

Lemma SFeqb_cases f1 f2 : SFeqb f1 f2 = true ->
  f1 = f2 \/ exists s1 s2, f1 = S754_zero s1 /\ f2 = S754_zero s2.
Proof.
  unfold SFeqb, SFcompare.
  destruct f1 as [s1|s1| |s1 m1 e1], f2 as [s2|s2| |s2 m2 e2]; try discriminate;
    try (destruct s1; discriminate); try (destruct s2; discriminate).
  - intros _. right. eauto.
  - destruct s1, s2; try discriminate; intros _; now left.
  - destruct s1, s2; try discriminate.
    + destruct (Z.compare e1 e2) eqn:E; try discriminate.
      apply Z.compare_eq in E. subst e2.
      destruct (Pos.compare_cont Eq m1 m2) eqn:M; try discriminate.
      apply Pos.compare_eq in M. subst m2. intros _. now left.
    + destruct (Z.compare e1 e2) eqn:E; try discriminate.
      apply Z.compare_eq in E. subst e2.
      destruct (Pos.compare_cont Eq m1 m2) eqn:M; try discriminate.
      apply Pos.compare_eq in M. subst m2. intros _. now left.
Qed.

Lemma float_eqb_cases x y : PrimFloat.eqb x y = true ->
  x = y \/ ((x = PrimFloat.zero \/ x = PrimFloat.neg_zero)
            /\ (y = PrimFloat.zero \/ y = PrimFloat.neg_zero)).
Proof.
  rewrite FloatAxioms.eqb_spec. intros H.
  apply SFeqb_cases in H as [H|(s1 & s2 & H1 & H2)].
  - left. rewrite <- (FloatAxioms.SF2Prim_Prim2SF x), <- (FloatAxioms.SF2Prim_Prim2SF y).
    now rewrite H.
  - right. rewrite <- (FloatAxioms.SF2Prim_Prim2SF x), <- (FloatAxioms.SF2Prim_Prim2SF y).
    rewrite H1, H2. split; [destruct s1|destruct s2]; auto.
Qed.

Lemma negZeroOK_all : forallZ 256 0 negZeroOK = true.
Proof. vm_compute. reflexivity. Qed.

Lemma negZero_facts n : 0 <= n <= 255 ->
  max2 PrimFloat.neg_zero (f255 n) = f255 n
  /\ max2 (f255 n) PrimFloat.neg_zero = f255 n
  /\ of_Z n <> PrimFloat.neg_zero.
Proof.
  intros Hn. pose proof (forallZ_spec _ _ _ negZeroOK_all n ltac:(lia)) as H.
  unfold negZeroOK in H. apply andb_true_iff in H as [H H3].
  apply andb_true_iff in H as [H1 H2].
  apply float_eqb_eq in H1, H2. split; [exact H1|]. split; [exact H2|].
  intros E. rewrite E in H3. discriminate H3.
Qed.

(** An integer part is the Number of the integer, or [-0] for 0. *)
Lemma isInteger_cases x n : 0 <= n <= 255 -> isInteger x n ->
  x = of_Z n \/ (n = 0 /\ x = PrimFloat.neg_zero).
Proof.
  intros Hn H. apply float_eqb_cases in H as [H|[Hx Hy]]; [now left|].
  destruct (negZero_facts n Hn) as (_ & _ & Nz).
  destruct Hy as [Hy|Hy]; [|contradiction].
  assert (n = 0) as ->.
  { apply (of_Z_byte_inj n 0 Hn ltac:(lia)). rewrite Hy. reflexivity. }
  destruct Hx as [Hx|Hx]; subst x; [now left|now right].
Qed.

Lemma isInteger_not_NaN x n : 0 <= n <= 255 -> isInteger x n -> isNaN x = false.
Proof.
  intros Hn H. destruct (isInteger_cases x n Hn H) as [->|[_ ->]]; [|reflexivity].
  apply (byte_facts n Hn).
Qed.

Lemma isInteger_hexByte x n : 0 <= n <= 255 -> isInteger x n -> hexByte x = hexByte (of_Z n).
Proof.
  intros Hn H. destruct (isInteger_cases x n Hn H) as [->|[-> ->]]; reflexivity.
Qed.

Lemma isInteger_255 x n : 0 <= n <= 255 -> isInteger x n ->
  (1 - x / 255 = 1 - f255 n)%float
  /\ ((x / 255)%float = f255 n \/ (n = 0 /\ (x / 255)%float = PrimFloat.neg_zero)).
Proof.
  intros Hn H. destruct (isInteger_cases x n Hn H) as [->|[-> ->]].
  - split; [reflexivity|now left].
  - split; [reflexivity|right; split; reflexivity].
Qed.

Lemma isInteger_100 x n : 0 <= n <= 255 -> isInteger x n ->
  (1 - x / 100 = 1 - f100 n)%float.
Proof.
  intros Hn H. destruct (isInteger_cases x n Hn H) as [->|[-> ->]]; reflexivity.
Qed.

Lemma max2_signed a b u v : 0 <= a <= 255 -> 0 <= b <= 255 ->
  u = f255 a \/ (a = 0 /\ u = PrimFloat.neg_zero) ->
  v = f255 b \/ (b = 0 /\ v = PrimFloat.neg_zero) ->
  max2 u v = f255 (Z.max a b) \/ (Z.max a b = 0 /\ max2 u v = PrimFloat.neg_zero).
Proof.
  intros Ha Hb [->|[-> ->]] [->|[-> ->]].
  - left. now apply max2_f255.
  - left. rewrite Z.max_l by lia. apply (negZero_facts a Ha).
  - left. rewrite Z.max_r by lia. apply (negZero_facts b Hb).
  - right. split; reflexivity.
Qed.

Lemma blackOf_signed r g b x y z :
  0 <= r <= 255 -> 0 <= g <= 255 -> 0 <= b <= 255 ->
  isInteger x r -> isInteger y g -> isInteger z b ->
  blackOf (Math_max (x / 255) (y / 255) (z / 255))%float
  = blackOf (f255 (Z.max (Z.max r g) b)).
Proof.
  intros Hr Hg Hb Ix Iy Iz.
  destruct (isInteger_255 x r Hr Ix) as [_ Ux].
  destruct (isInteger_255 y g Hg Iy) as [_ Uy].
  destruct (isInteger_255 z b Hb Iz) as [_ Uz].
  unfold Math_max.
  pose proof (max2_signed r g _ _ Hr Hg Ux Uy) as M1.
  destruct (max2_signed (Z.max r g) b _ _ ltac:(lia) Hb M1 Uz) as [->|[-> ->]]; reflexivity.
Qed.

Lemma scaled_signed x n k : 0 <= n <= 255 -> isInteger x n ->
  scaled (x / 255)%float k = scaled (f255 n) k.
Proof.
  intros Hn H. unfold scaled. now rewrite (proj1 (isInteger_255 x n Hn H)).
Qed.

Lemma channel_signed c k c' k' : 0 <= c' <= 100 -> 0 <= k' <= 100 ->
  isInteger c c' -> isInteger k k' ->
  channel (c / 100)%float (k / 100)%float = channel (f100 c') (f100 k').
Proof.
  intros Hc Hk Ic Ik. unfold channel.
  now rewrite (isInteger_100 c c' ltac:(lia) Ic), (isInteger_100 k k' ltac:(lia) Ik).
Qed.

(** On components that are integers 0..255: pure black, or four
    percentages 0..100. *)
Lemma rgbToCmyk_integers s x y z r g b :
  parseParts s = [x; y; z] ->
  0 <= r <= 255 -> 0 <= g <= 255 -> 0 <= b <= 255 ->
  isInteger x r -> isInteger y g -> isInteger z b ->
  let mx := Z.max (Z.max r g) b in
  rgbToCmyk s =
    if mx =? 0 then cmykText 0 0 0 100
    else cmykText (cyanZ r mx) (cyanZ g mx) (cyanZ b mx) (blackZ mx).
Proof.
  intros E Hr Hg Hb Ix Iy Iz mx.
  rewrite (rgbToCmyk_parts s _ _ _ E)
    by (eapply isInteger_not_NaN; [|eassumption]; assumption).
  cbv zeta. rewrite (blackOf_signed r g b x y z Hr Hg Hb Ix Iy Iz). fold mx.
  rewrite (scaled_signed x r _ Hr Ix), (scaled_signed y g _ Hg Iy), (scaled_signed z b _ Hb Iz).
  destruct (mx =? 0) eqn:Emx.
  - apply Z.eqb_eq in Emx. rewrite Emx. now rewrite blackOf_zero.
  - apply Z.eqb_neq in Emx.
    assert (Hmx : 1 <= mx <= 255) by lia.
    destruct (forward_facts mx r Hmx ltac:(lia)) as (Hk & EK & _ & ER & _).
    destruct (forward_facts mx g Hmx ltac:(lia)) as (_ & _ & _ & EG & _).
    destruct (forward_facts mx b Hmx ltac:(lia)) as (_ & _ & _ & EB & _).
    rewrite Hk, EK, ER, EG, EB. reflexivity.
Qed.

Lemma cmykToRgb_integers s c m y k c' m' y' k' :
  parseParts s = [c; m; y; k] ->
  0 <= c' <= 100 -> 0 <= m' <= 100 -> 0 <= y' <= 100 -> 0 <= k' <= 100 ->
  isInteger c c' -> isInteger m m' -> isInteger y y' -> isInteger k k' ->
  cmykToRgb s = rgbText (channelZ c' k') (channelZ m' k') (channelZ y' k')
  /\ cmykToHex s = String "#" (hexByte (of_Z (channelZ c' k')) ++ hexByte (of_Z (channelZ m' k'))
                                 ++ hexByte (of_Z (channelZ y' k'))).
Proof.
  intros E Hc Hm Hy Hk Ic Im Iy Ik.
  assert (E' : cmykToRgb s = rgbText (channelZ c' k') (channelZ m' k') (channelZ y' k')).
  { rewrite (cmykToRgb_parts s _ _ _ _ E)
      by (eapply isInteger_not_NaN; [|eassumption]; lia).
    rewrite (channel_signed c k c' k' Hc Hk Ic Ik), (channel_signed m k m' k' Hm Hk Im Ik),
      (channel_signed y k y' k' Hy Hk Iy Ik).
    destruct (backward_facts c' k' Hc Hk) as [-> _].
    destruct (backward_facts m' k' Hm Hk) as [-> _].
    destruct (backward_facts y' k' Hy Hk) as [-> _].
    reflexivity. }
  destruct (backward_facts c' k' Hc Hk) as [_ Rc].
  destruct (backward_facts m' k' Hm Hk) as [_ Rm].
  destruct (backward_facts y' k' Hy Hk) as [_ Ry].
  split; [exact E'|].
  unfold cmykToHex. rewrite E'.
  rewrite (rgbText_not_empty _ _ _ Rc). now apply rgbToHex_dec.
Qed.

Lemma nearOK_all : forallZ 255 1 nearOK = true.
Proof. vm_compute. reflexivity. Qed.

Lemma near_facts mx x : 1 <= mx <= 255 -> 0 <= x <= mx ->
  nearestInteger (100 * (mx - x)) mx (cyanZ x mx)
  /\ nearestInteger (100 * (255 - mx)) 255 (blackZ mx).
Proof.
  intros Hmx Hx. pose proof (forallZ_spec _ _ _ nearOK_all mx ltac:(lia)) as H.
  unfold nearOK in H. apply andb_true_iff in H as [HK H].
  pose proof (forallZ_spec _ _ _ H x ltac:(lia)) as HC. cbv beta in HC.
  apply Z.leb_le in HK, HC. now split.
Qed.

Lemma hexToRgb_cleaned h h' :
  String_replace_first "#" h = String_replace_first "#" h' -> hexToRgb h = hexToRgb h'.
Proof. unfold hexToRgb. now intros ->. Qed.

Lemma hex_digits_left_accepted h :
  Regex.matches Regex.hexPattern (String "#" (String_replace_first "#" h)) = true ->
  Regex.matches Regex.rgbPattern (hexToRgb h) = true
  /\ Regex.matches Regex.cmykPattern (hexToCmyk h) = true.
Proof.
  intros H.
  assert (E : hexToRgb h = hexToRgb (String "#" (String_replace_first "#" h)))
    by (apply hexToRgb_cleaned; cbn [String_replace_first]; reflexivity).
  rewrite (hexToCmyk_eq _ _ E), E. apply hex_digits_accepted. now left.
Qed.

Lemma rgb_integers_accepted s r g b :
  Forall2 isInteger (parseParts s) [r; g; b] ->
  0 <= r <= 255 -> 0 <= g <= 255 -> 0 <= b <= 255 ->
  Regex.matches Regex.hexPattern (rgbToHex s) = true
  /\ Regex.matches Regex.cmykPattern (rgbToCmyk s) = true.
Proof.
  intros F Hr Hg Hb.
  destruct (parseParts s) as [|x [|y [|z [|]]]] eqn:E;
    try (exfalso; repeat (inversion F as [|? ? ? ? ? F']; clear F; rename F' into F); fail).
  inversion F as [|? ? ? ? Ix F1]; subst. inversion F1 as [|? ? ? ? Iy F2]; subst.
  inversion F2 as [|? ? ? ? Iz F3]; subst. clear F F1 F2 F3.
  split.
  - rewrite (rgbToHex_parts s _ _ _ E)
      by (eapply isInteger_not_NaN; [|eassumption]; assumption).
    rewrite (isInteger_hexByte x r Hr Ix), (isInteger_hexByte y g Hg Iy),
      (isInteger_hexByte z b Hb Iz).
    apply (hex_of_bytes r g b Hr Hg Hb).
  - rewrite (rgbToCmyk_integers s x y z r g b E Hr Hg Hb Ix Iy Iz). cbv zeta.
    set (mx := Z.max (Z.max r g) b).
    destruct (mx =? 0) eqn:Emx; [reflexivity|].
    apply Z.eqb_neq in Emx. assert (Hmx : 1 <= mx <= 255) by lia.
    destruct (forward_facts mx r Hmx ltac:(lia)) as (_ & _ & RK & _ & RCr & _).
    destruct (forward_facts mx g Hmx ltac:(lia)) as (_ & _ & _ & _ & RCg & _).
    destruct (forward_facts mx b Hmx ltac:(lia)) as (_ & _ & _ & _ & RCb & _).
    apply cmykText_valid; lia.
Qed.

Lemma cmyk_integers_accepted s c m y k :
  Forall2 isInteger (parseParts s) [c; m; y; k] ->
  0 <= c <= 100 -> 0 <= m <= 100 -> 0 <= y <= 100 -> 0 <= k <= 100 ->
  Regex.matches Regex.rgbPattern (cmykToRgb s) = true
  /\ Regex.matches Regex.hexPattern (cmykToHex s) = true.
Proof.
  intros F Hc Hm Hy Hk.
  destruct (parseParts s) as [|c0 [|m0 [|y0 [|k0 [|]]]]] eqn:E;
    try (exfalso; repeat (inversion F as [|? ? ? ? ? F']; clear F; rename F' into F); fail).
  inversion F as [|? ? ? ? Ic F1]; subst. inversion F1 as [|? ? ? ? Im F2]; subst.
  inversion F2 as [|? ? ? ? Iy F3]; subst. inversion F3 as [|? ? ? ? Ik F4]; subst.
  clear F F1 F2 F3 F4.
  destruct (cmykToRgb_integers s _ _ _ _ c m y k E Hc Hm Hy Hk Ic Im Iy Ik) as [-> ->].
  destruct (backward_facts c k Hc Hk) as [_ Rc].
  destruct (backward_facts m k Hm Hk) as [_ Rm].
  destruct (backward_facts y k Hy Hk) as [_ Ry].
  split.
  - now apply rgbText_valid.
  - apply (hex_of_bytes _ _ _ Rc Rm Ry).
Qed.

(** C3 (as amended): each codec function is total.  [hexToRgb] and
    [hexToCmyk] return the empty string unless six characters remain once
    the first [#] is removed, wherever it stood, and valid RGB and CMYK
    strings when these six are hex digits.  [rgbToHex] and [rgbToCmyk]
    return the empty string unless the input has three comma-separated
    parts that [parseInt] reads as numbers, and valid hex and CMYK strings
    when the three numbers are integers in 0..255 ([-0] counts as 0).
    [cmykToRgb] and [cmykToHex] return the empty string unless the input
    has four such parts, and valid RGB and hex strings when the four
    numbers are integers in 0..100. *)
Theorem codec_sentinel_or_valid :
  (forall h, String.length (String_replace_first "#" h) <> 6%nat ->
     hexToRgb h = "" /\ hexToCmyk h = "")
  /\ (forall h,
        Regex.matches Regex.hexPattern (String "#" (String_replace_first "#" h)) = true ->
        Regex.matches Regex.rgbPattern (hexToRgb h) = true
        /\ Regex.matches Regex.cmykPattern (hexToCmyk h) = true)
  /\ (forall s,
        List.length (parseParts s) <> 3%nat \/ existsb isNaN (parseParts s) = true ->
        rgbToHex s = "" /\ rgbToCmyk s = "")
  /\ (forall s r g b,
        Forall2 isInteger (parseParts s) [r; g; b] ->
        0 <= r <= 255 -> 0 <= g <= 255 -> 0 <= b <= 255 ->
        Regex.matches Regex.hexPattern (rgbToHex s) = true
        /\ Regex.matches Regex.cmykPattern (rgbToCmyk s) = true)
  /\ (forall s,
        List.length (parseParts s) <> 4%nat \/ existsb isNaN (parseParts s) = true ->
        cmykToRgb s = "" /\ cmykToHex s = "")
  /\ (forall s c m y k,
        Forall2 isInteger (parseParts s) [c; m; y; k] ->
        0 <= c <= 100 -> 0 <= m <= 100 -> 0 <= y <= 100 -> 0 <= k <= 100 ->
        Regex.matches Regex.rgbPattern (cmykToRgb s) = true
        /\ Regex.matches Regex.hexPattern (cmykToHex s) = true).
Proof.
  split; [exact hex_length_rejected|].
  split; [exact hex_digits_left_accepted|].
  split; [exact rgb_parts_rejected|].
  split; [exact rgb_integers_accepted|].
  split; [exact cmyk_parts_rejected|exact cmyk_integers_accepted].
Qed.

Lemma codec_sentinel_or_valid_witness :
  (hexToRgb "#0352" = "" /\ hexToCmyk "#0352" = "")
  /\ (Regex.matches Regex.rgbPattern (hexToRgb "03#5259") = true
      /\ Regex.matches Regex.cmykPattern (hexToCmyk "03#5259") = true)
  /\ (rgbToHex "3, 82" = "" /\ rgbToCmyk "3, 82" = "")
  /\ (Regex.matches Regex.hexPattern (rgbToHex "-0,82 , 89px") = true
      /\ Regex.matches Regex.cmykPattern (rgbToCmyk "-0,82 , 89px") = true)
  /\ (cmykToRgb "34, 3, x, 65" = "" /\ cmykToHex "34, 3, x, 65" = "")
  /\ (Regex.matches Regex.rgbPattern (cmykToRgb "34, 3, -0, 65") = true
      /\ Regex.matches Regex.hexPattern (cmykToHex "34, 3, -0, 65") = true).
Proof.
  destruct codec_sentinel_or_valid as (A & B & C & D & E & F).
  split; [apply A; vm_compute; discriminate|].
  split; [apply B; reflexivity|].
  split; [apply C; left; vm_compute; discriminate|].
  split.
  - apply (D "-0,82 , 89px" 0 82 89); [|lia|lia|lia].
    change (parseParts "-0,82 , 89px")
      with [PrimFloat.neg_zero; of_Z 82; of_Z 89].
    repeat constructor.
  - split; [apply E; right; reflexivity|].
    apply (F "34, 3, -0, 65" 34 3 0 65); [|lia|lia|lia|lia].
    change (parseParts "34, 3, -0, 65")
      with [of_Z 34; of_Z 3; PrimFloat.neg_zero; of_Z 65].
    repeat constructor.
Defined.

(** C3 as stated fails for every one of the six functions: components
    outside their range, and six characters that are not hex digits, give a
    result that is neither empty nor of the target format. *)
Lemma codec_sentinel_or_valid_counterexample :
  (rgbToHex "256, 0, 0" = "#1000000"
   /\ Regex.matches Regex.hexPattern (rgbToHex "256, 0, 0") = false)
  /\ (rgbToCmyk "300, 0, 0" = "0, 100, 100, -18"
      /\ Regex.matches Regex.cmykPattern (rgbToCmyk "300, 0, 0") = false)
  /\ (cmykToRgb "200, 0, 0, 0" = "-255, 255, 255"
      /\ Regex.matches Regex.rgbPattern (cmykToRgb "200, 0, 0, 0") = false)
  /\ (cmykToHex "200, 0, 0, 0" = "#-ffffff"
      /\ Regex.matches Regex.hexPattern (cmykToHex "200, 0, 0, 0") = false)
  /\ (hexToRgb "-1-2-3" = "-1, -2, -3"
      /\ Regex.matches Regex.rgbPattern (hexToRgb "-1-2-3") = false)
  /\ (hexToCmyk "-1-2-3" = "0, -100, -200, 100"
      /\ Regex.matches Regex.cmykPattern (hexToCmyk "-1-2-3") = false).
Proof. vm_compute. repeat split. Qed.

(** Six characters that are not hex digits: [hexToRgb] has no [isNaN] test
    (the other parsers have one) and writes the NaN components out. *)
Lemma hexToRgb_non_hex_digits :
  hexToRgb "#ZZZZZZ" = "NaN, NaN, NaN" /\ hexToRgb "ZZZZZZ" = "NaN, NaN, NaN"
  /\ hexToCmyk "#ZZZZZZ" = "".
Proof. vm_compute. repeat split. Qed.

(** *** Rounding *)

Lemma roundHalfUp_nearest x n : roundHalfUp x = Some n -> nearestTiesUp x n.
Proof.
  unfold roundHalfUp, nearestTiesUp.
  destruct (Prim2SF x) as [| | |s m e] eqn:E; try discriminate.
  intros H. inversion H as [Hn]. clear H. exists s, m, e. split; [reflexivity|].
  cbv zeta. set (v := if s then Z.neg m else Z.pos m) in *.
  destruct (0 <=? e) eqn:He.
  - apply Z.leb_le in He. now rewrite Z.shiftl_mul_pow2.
  - apply Z.leb_gt in He.
    rewrite Z.shiftr_div_pow2, Z.shiftl_mul_pow2 by lia.
    replace (1 - e) with (Z.succ (- e)) by lia. rewrite Z.pow_succ_r by lia.
    assert (Hd : 0 < 2 ^ (- e)) by (apply Z.pow_pos_nonneg; lia).
    set (d := 2 ^ (- e)) in *.
    pose proof (Z.div_mod (2 * v + 1 * d) (2 * d) ltac:(lia)) as DM.
    pose proof (Z.mod_pos_bound (2 * v + 1 * d) (2 * d) ltac:(lia)) as MB.
    nia.
Qed.

(** C8 (as amended): for every input whose three parts parse to numbers
    (and that is not pure black), each of the four components [rgbToCmyk]
    writes is [Math.round] of the Number the code computes for the scaled
    percentage, and [Math.round] gives the integer nearest to that Number,
    of two equally near ones the one towards +infinity.  For components
    that are integers in 0..255 each written percentage is an integer
    nearest to the exact one, [100 * (max - v) / max] for cyan, magenta
    and yellow and [100 * (255 - max) / 255] for black.  An exact
    percentage half-way between two integers, to which both are nearest,
    follows no rule of its own: ["7, 8, 8"] has cyan 12.5 and writes 12,
    ["1, 8, 8"] has cyan 87.5 and writes 88. *)
Theorem rgbToCmyk_rounds_to_nearest :
  (forall s r g b,
     parseParts s = [r; g; b] ->
     isNaN r = false -> isNaN g = false -> isNaN b = false ->
     PrimFloat.eqb (blackOf (Math_max (r / 255) (g / 255) (b / 255))%float) 1 = false ->
     rgbToCmyk s =
       Number_toString (Math_round (scaled (r / 255)%float
                          (blackOf (Math_max (r / 255) (g / 255) (b / 255))%float))) ++ ", "
       ++ Number_toString (Math_round (scaled (g / 255)%float
                          (blackOf (Math_max (r / 255) (g / 255) (b / 255))%float))) ++ ", "
       ++ Number_toString (Math_round (scaled (b / 255)%float
                          (blackOf (Math_max (r / 255) (g / 255) (b / 255))%float))) ++ ", "
       ++ Number_toString (Math_round
                          (blackOf (Math_max (r / 255) (g / 255) (b / 255)) * 100)%float))
  /\ (forall x n, roundHalfUp x = Some n ->
        nearestTiesUp x n
        /\ Math_round x = (if n =? 0
                           then (if PrimFloat.get_sign x then PrimFloat.neg_zero else PrimFloat.zero)
                           else of_Z n))
  /\ (forall s r g b,
        Forall2 isInteger (parseParts s) [r; g; b] ->
        0 <= r <= 255 -> 0 <= g <= 255 -> 0 <= b <= 255 ->
        Z.max (Z.max r g) b <> 0 ->
        exists c m y k,
          rgbToCmyk s = cmykText c m y k
          /\ nearestInteger (100 * (Z.max (Z.max r g) b - r)) (Z.max (Z.max r g) b) c
          /\ nearestInteger (100 * (Z.max (Z.max r g) b - g)) (Z.max (Z.max r g) b) m
          /\ nearestInteger (100 * (Z.max (Z.max r g) b - b)) (Z.max (Z.max r g) b) y
          /\ nearestInteger (100 * (255 - Z.max (Z.max r g) b)) 255 k)
  /\ (rgbToCmyk "7, 8, 8" = cmykText 12 0 0 97
      /\ nearestInteger (100 * (8 - 7)) 8 12 /\ nearestInteger (100 * (8 - 7)) 8 13)
  /\ (rgbToCmyk "1, 8, 8" = cmykText 88 0 0 97
      /\ nearestInteger (100 * (8 - 1)) 8 87 /\ nearestInteger (100 * (8 - 1)) 8 88).
Proof.
  split; [|split; [|split; [|split]]].
  - intros s r g b E Hr Hg Hb Hk.
    rewrite (rgbToCmyk_parts s r g b E Hr Hg Hb). cbv zeta. now rewrite Hk.
  - intros x n H. split; [now apply roundHalfUp_nearest|].
    unfold Math_round. now rewrite H.
  - intros s r g b F Hr Hg Hb Hmx.
    destruct (parseParts s) as [|x [|y [|z [|]]]] eqn:E;
      try (exfalso; repeat (inversion F as [|? ? ? ? ? F']; clear F; rename F' into F); fail).
    inversion F as [|? ? ? ? Ix F1]; subst. inversion F1 as [|? ? ? ? Iy F2]; subst.
    inversion F2 as [|? ? ? ? Iz F3]; subst. clear F F1 F2 F3.
    rewrite (rgbToCmyk_integers s x y z r g b E Hr Hg Hb Ix Iy Iz). cbv zeta.
    set (mx := Z.max (Z.max r g) b) in *.
    apply Z.eqb_neq in Hmx. rewrite Hmx. apply Z.eqb_neq in Hmx.
    assert (R : 1 <= mx <= 255) by lia.
    exists (cyanZ r mx), (cyanZ g mx), (cyanZ b mx), (blackZ mx).
    split; [reflexivity|].
    destruct (near_facts mx r R ltac:(lia)) as [Nr Nk].
    destruct (near_facts mx g R ltac:(lia)) as [Ng _].
    destruct (near_facts mx b R ltac:(lia)) as [Nb _].
    auto.
  - split; [vm_compute; reflexivity|]. split; unfold nearestInteger; lia.
  - split; [vm_compute; reflexivity|]. split; unfold nearestInteger; lia.
Qed.

Lemma rgbToCmyk_rounds_to_nearest_witness :
  rgbToCmyk "-0, 82, 89" = "100, 8, 0, 65"
  /\ nearestInteger (100 * (89 - 82)) 89 8
  /\ nearestTiesUp 2.5%float 3.
Proof.
  destruct rgbToCmyk_rounds_to_nearest as (_ & B & C & _).
  destruct (C "-0, 82, 89" 0 82 89) as (c & m & y & k & E & Nc & Nm & Ny & Nk);
    [|lia|lia|lia|vm_compute; discriminate|].
  - change (parseParts "-0, 82, 89") with [PrimFloat.neg_zero; of_Z 82; of_Z 89].
    repeat constructor.
  - split; [reflexivity|]. split; [unfold nearestInteger; vm_compute; discriminate|].
    apply (B 2.5%float 3). reflexivity.
Defined.

(** C8 as stated fails.  For ["7, 8, 8"], three integers in 0..255, the
    scaled cyan percentage is exactly 12.5: rounding half away from zero
    gives 13, and [rgbToCmyk] writes 12, since the Number it rounds lies
    just below 12.5.  For ["-288, -256, -256"] the Number is exactly
    -12.5: rounding half away from zero gives -13, and [rgbToCmyk] writes
    -12. *)
Lemma rgbToCmyk_half_away_counterexample :
  (parseParts "7, 8, 8" = [of_Z 7; of_Z 8; of_Z 8]
   /\ nearestInteger (100 * (8 - 7)) 8 12 /\ nearestInteger (100 * (8 - 7)) 8 13
   /\ halfAwayFraction (100 * (8 - 7)) 8 = 13
   /\ PrimFloat.ltb (scaled (f255 7) (blackOf (Math_max (f255 7) (f255 8) (f255 8)))) 12.5 = true
   /\ rgbToCmyk "7, 8, 8" = "12, 0, 0, 97")
  /\ (parseParts "-288, -256, -256" = [of_Z (-288); of_Z (-256); of_Z (-256)]
      /\ scaled (f255 (-288)) (blackOf (Math_max (f255 (-288)) (f255 (-256)) (f255 (-256))))
         = (-12.5)%float
      /\ roundHalfAway (-12.5)%float = Some (-13)
      /\ roundHalfUp (-12.5)%float = Some (-12)
      /\ rgbToCmyk "-288, -256, -256" = "-12, 0, 0, 200").
Proof.
  split; [|vm_compute; repeat split].
  split; [vm_compute; reflexivity|].
  split; [unfold nearestInteger; lia|]. split; [unfold nearestInteger; lia|].
  vm_compute. repeat split.
Qed.

(** C9: [rgbToCmyk "0, 0, 0"] is exactly ["0, 0, 0, 100"], by the [k === 1]
    guard: the three parts parse to zero, [k] is 1, and whenever [k] is 1
    the function returns that string without dividing by [1 - k]. *)
Theorem rgbToCmyk_pure_black :
  rgbToCmyk "0, 0, 0" = "0, 0, 0, 100"
  /\ parseParts "0, 0, 0" = [0%float; 0%float; 0%float]
  /\ PrimFloat.eqb (blackOf (Math_max (0 / 255) (0 / 255) (0 / 255))%float) 1 = true
  /\ (forall s r g b,
        parseParts s = [r; g; b] ->
        isNaN r = false -> isNaN g = false -> isNaN b = false ->
        PrimFloat.eqb (blackOf (Math_max (r / 255) (g / 255) (b / 255))%float) 1 = true ->
        rgbToCmyk s = "0, 0, 0, 100").
Proof.
  split; [vm_compute; reflexivity|]. split; [vm_compute; reflexivity|].
  split; [vm_compute; reflexivity|].
  intros s r g b E Hr Hg Hb Hk.
  rewrite (rgbToCmyk_parts s r g b E Hr Hg Hb). cbv zeta. now rewrite Hk.
Qed.

(** * Facts about validation *)

(** ** Validation *)

Section ZodFacts.
Import Zod.

(** Induction on schemas, through the shapes of objects. *)
Lemma Schema_induction (P : Schema -> Prop) :
  (forall checks, P (ZString checks)) ->
  (forall checks, P (ZNumber checks)) ->
  (forall values, P (ZEnum values)) ->
  (forall element m, P element -> P (ZArray element m)) ->
  (forall shape, Forall (fun p => P (snd p)) shape -> P (ZObject shape)) ->
  (forall inner, P inner -> P (ZOptional inner)) ->
  (forall inner d, P inner -> P (ZDefault inner d)) ->
  forall s, P s.
Proof.
  intros HS HN HE HA HO HOpt HD. fix IH 1. intros s. destruct s as [| | |e m|shape|inner|inner d].
  - apply HS.
  - apply HN.
  - apply HE.
  - apply HA, IH.
  - apply HO. induction shape as [|[k sk] rest IHs]; constructor; [apply IH|exact IHs].
  - apply HOpt, IH.
  - apply HD, IH.
Qed.

Lemma parse_object shape fs :
  parse (ZObject shape) (VObj fs)
  = (fieldIssues (fieldResults shape fs), VObj (fieldOutputs fs (fieldResults shape fs))).
Proof.
  cbn [parse].
  assert (E : (fix fields (sh : list (string * Schema)) :=
                 match sh with
                 | [] => []
                 | (k, sk) :: rest => (k, parse sk (lookup k fs)) :: fields rest
                 end) shape = fieldResults shape fs).
  { induction shape as [|[k sk] rest IH]; [reflexivity|]. cbn [fieldResults map fst snd].
    f_equal. exact IH. }
  now rewrite E.
Qed.

Lemma issues_object shape fs :
  issues (ZObject shape) (VObj fs) = fieldIssues (fieldResults shape fs).
Proof. unfold issues. now rewrite parse_object. Qed.

Lemma issues_object_cons k sk rest fs :
  issues (ZObject ((k, sk) :: rest)) (VObj fs)
  = (map (atSeg (Key k)) (issues sk (lookup k fs)) ++ issues (ZObject rest) (VObj fs))%list.
Proof. rewrite !issues_object. reflexivity. Qed.

Lemma issues_object_nil fs : issues (ZObject []) (VObj fs) = [].
Proof. reflexivity. Qed.

Lemma In_fieldIssues shape fs i :
  In i (fieldIssues (fieldResults shape fs)) <->
  exists k sk i', In (k, sk) shape /\ In i' (issues sk (lookup k fs)) /\ i = atSeg (Key k) i'.
Proof.
  induction shape as [|[k sk] rest IH].
  - cbn. split; [tauto|]. intros (? & ? & ? & [] & _).
  - cbn [fieldResults map fst snd fieldIssues]. rewrite in_app_iff, in_map_iff.
    fold (fieldResults rest fs). rewrite IH. split.
    + intros [(i' & <- & Hi)|(k' & sk' & i' & Hin & Hi & ->)].
      * exists k, sk, i'. split; [now left|]. now split.
      * exists k', sk', i'. split; [now right|]. now split.
    + intros (k' & sk' & i' & [E|Hin] & Hi & ->).
      * inversion E; subst. left. now exists i'.
      * right. now exists k', sk', i'.
Qed.

Lemma In_itemIssues element items : forall n i,
  In i (itemIssues n (map (parse element) items)) <->
  exists j v i', items !! j = Some v /\ In i' (issues element v) /\ i = atSeg (Idx (n + j)) i'.
Proof.
  induction items as [|v items IH]; intros n i.
  - cbn. split; [tauto|]. intros (j & ? & ? & H & _). now destruct j.
  - cbn [map itemIssues]. rewrite in_app_iff, in_map_iff, IH. split.
    + intros [(i' & <- & Hi)|(j & v' & i' & Hj & Hi & ->)].
      * exists 0%nat, v, i'. rewrite Nat.add_0_r. now repeat split.
      * exists (S j), v', i'. rewrite Nat.add_succ_r. now repeat split.
    + intros (j & v' & i' & Hj & Hi & ->). destruct j as [|j].
      * inversion Hj; subst. left. exists i'. now rewrite Nat.add_0_r.
      * right. exists j, v', i'. rewrite Nat.add_succ_r. now repeat split.
Qed.

Lemma In_checkString s checks i :
  In i (flat_map (checkString s) checks) <->
  exists c, In c checks /\ stringCheckOk c s = false /\ i = stringCheckIssue c.
Proof.
  rewrite in_flat_map. unfold checkString. split.
  - intros (c & Hc & Hi). exists c. destruct (stringCheckOk c s); [destruct Hi|].
    destruct Hi as [<-|[]]. now repeat split.
  - intros (c & Hc & Hok & ->). exists c. split; [exact Hc|]. rewrite Hok. now left.
Qed.

Lemma In_checkNumber x checks i :
  In i (flat_map (checkNumber x) checks) <->
  exists c, In c checks /\ numberCheckOk c x = false /\ i = numberCheckIssue c.
Proof.
  rewrite in_flat_map. unfold checkNumber. split.
  - intros (c & Hc & Hi). exists c. destruct (numberCheckOk c x); [destruct Hi|].
    destruct Hi as [<-|[]]. now repeat split.
  - intros (c & Hc & Hok & ->). exists c. split; [exact Hc|]. rewrite Hok. now left.
Qed.

Lemma existsb_eqb_In s values : existsb (String.eqb s) values = true <-> In s values.
Proof.
  rewrite existsb_exists. split.
  - intros (x & Hx & E). apply String.eqb_eq in E. now subst.
  - intros H. exists s. split; [exact H|apply String.eqb_refl].
Qed.

Ltac wrong_type :=
  split;
  [ intros [<-|[]]; constructor; intros; discriminate
  | inversion 1; subst; solve [now left | congruence] ].

(** Every violated constraint is reported, and nothing else is. *)
Lemma issues_iff_violates s : forall v i, In i (issues s v) <-> violates s v i.
Proof.
  induction s as [checks|checks|values|element m IHe|shape IHs|inner IHi|inner d IHi]
    using Schema_induction; intros v i; unfold issues in *.
  - destruct v; cbn [parse fst]; try solve [wrong_type].
    rewrite In_checkString. split.
    + intros (c & Hc & Hok & ->). now constructor.
    + inversion 1; subst; [congruence|eauto].
  - destruct v; cbn [parse fst]; try solve [wrong_type].
    destruct (isNaN x) eqn:Ex; cbn [fst].
    + split.
      * intros [<-|[]]. constructor. intros y E. now inversion E; subst.
      * inversion 1; subst; [now left|congruence].
    + rewrite In_checkNumber. split.
      * intros (c & Hc & Hok & ->). now constructor.
      * inversion 1 as [| |? ? Hx| | | | | | | | | |]; subst;
          [specialize (Hx x eq_refl); congruence|eauto].
  - destruct v; cbn [parse fst]; try solve [wrong_type].
    destruct (existsb (String.eqb s) values) eqn:Ex; cbn [fst].
    + apply existsb_eqb_In in Ex. split; [intros []|].
      inversion 1; subst; [congruence|contradiction].
    + split.
      * intros [<-|[]]. constructor. intros Hin. apply existsb_eqb_In in Hin. congruence.
      * inversion 1; subst; [congruence|now left].
  - destruct v; cbn [parse fst]; try solve [wrong_type].
    rewrite in_app_iff, In_itemIssues. split.
    + intros [Hmin|(j & v & i' & Hj & Hi & ->)].
      * destruct m as [[n msg]|]; unfold checkMinLength in Hmin; [|destruct Hmin].
        destruct (Nat.ltb (List.length items) n) eqn:El; [|destruct Hmin].
        destruct Hmin as [<-|[]]. constructor. now apply Nat.ltb_lt.
      * cbn [Nat.add]. econstructor; [exact Hj|]. now apply IHe.
    + inversion 1 as [| | | | | | |? ? ? ? Hlt|? ? ? j w iss Hj Hw| | | |]; subst.
      * congruence.
      * left. unfold checkMinLength. apply Nat.ltb_lt in Hlt. rewrite Hlt. now left.
      * right. exists j, w, iss. split; [assumption|]. split; [now apply IHe|reflexivity].
  - destruct v; try solve [cbn [parse fst]; wrong_type].
    rewrite parse_object. cbn [fst]. rewrite In_fieldIssues. split.
    + intros (k & sk & i' & Hin & Hi & ->). econstructor; [exact Hin|].
      rewrite List.Forall_forall in IHs. apply (IHs (k, sk) Hin). exact Hi.
    + inversion 1 as [| | | | | | | | | |? ? k sk iss Hin Hv| |]; subst.
      * congruence.
      * exists k, sk, iss. split; [assumption|]. split; [|reflexivity].
        rewrite List.Forall_forall in IHs. now apply (IHs (k, sk) Hin).
  - destruct v; cbn [parse];
      try (rewrite IHi; split; [intros; constructor; [discriminate|assumption]
                               |now inversion 1]).
    cbn. split; [intros []|]. inversion 1; subst. congruence.
  - cbn [parse]. rewrite IHi. split; [now constructor|now inversion 1].
Qed.

End ZodFacts.

Section OrderFacts.
Import Zod.

(** *** Property order *)

Lemma lookup_In (fs : list (string * Value)) : List.NoDup (map fst fs) -> forall k v, In (k, v) fs -> lookup k fs = v.
Proof.
  induction fs as [|[k' v'] fs IH]; intros ND k v Hin; [destruct Hin|].
  cbn [map fst] in ND. apply List.NoDup_cons_iff in ND as [Hk ND]. cbn [lookup].
  destruct Hin as [E|Hin].
  - inversion E; subst. now rewrite String.eqb_refl.
  - destruct (String.eqb k k') eqn:E.
    + apply String.eqb_eq in E. subst k'. exfalso. apply Hk.
      apply (in_map fst) in Hin. exact Hin.
    + now apply IH.
Qed.

Lemma lookup_absent fs k : ~ In k (map fst fs) -> lookup k fs = VUndefined.
Proof.
  induction fs as [|[k' v'] fs IH]; intros Hk; [reflexivity|].
  cbn [lookup]. destruct (String.eqb k k') eqn:E.
  - apply String.eqb_eq in E. subst. exfalso. apply Hk. now left.
  - apply IH. intros H. apply Hk. now right.
Qed.

Lemma In_keys (fs : list (string * Value)) k : In k (map fst fs) -> exists v, In (k, v) fs.
Proof.
  rewrite in_map_iff. intros ([k' v] & E & Hin). cbn in E. subst. eauto.
Qed.

Lemma lookup_Permutation gs fs : List.NoDup (map fst gs) -> Permutation gs fs ->
  forall k, lookup k gs = lookup k fs.
Proof.
  intros ND HP k.
  assert (ND' : List.NoDup (map fst fs)).
  { eapply Permutation_NoDup; [|exact ND]. now apply Permutation_map. }
  destruct (in_dec string_dec k (map fst gs)) as [Hin|Hout].
  - destruct (In_keys _ _ Hin) as [v Hv].
    rewrite (lookup_In gs ND k v Hv).
    symmetry. apply lookup_In; [exact ND'|]. eapply Permutation_in; eassumption.
  - rewrite (lookup_absent gs k Hout). symmetry. apply lookup_absent.
    intros Hin. apply Hout. eapply Permutation_in; [|exact Hin].
    apply Permutation_map. now symmetry.
Qed.

Lemma lookup_Forall2 (R : Value -> Value -> Prop) (fs gs : list (string * Value)) k :
  R VUndefined VUndefined ->
  Forall2 (fun a b => fst a = fst b /\ R (snd a) (snd b)) fs gs ->
  R (lookup k fs) (lookup k gs).
Proof.
  intros HU H. induction H as [|[k1 v1] [k2 v2] fs gs [Ek Hv] _ IH]; [exact HU|].
  cbn in Ek. subst k2. cbn [lookup]. now destruct (String.eqb k k1).
Qed.

Lemma keys_Forall2 (R : Value -> Value -> Prop) (fs gs : list (string * Value)) :
  Forall2 (fun a b => fst a = fst b /\ R (snd a) (snd b)) fs gs ->
  map fst fs = map fst gs.
Proof.
  induction 1 as [|a b fs gs [Ek _] _ IH]; [reflexivity|]. cbn. now rewrite Ek, IH.
Qed.

(** The issues do not depend on the order of the properties. *)
Lemma issues_order_independent s : forall v v',
  sameUpToOrder v v' -> issues s v = issues s v'.
Proof.
  induction s as [checks|checks|values|element m IHe|shape IHs|inner IHi|inner d IHi]
    using Schema_induction; intros v v' H; unfold issues in *.
  - destruct H; reflexivity.
  - destruct H; reflexivity.
  - destruct H; reflexivity.
  - destruct H as [| | | | |l l' Hl|]; try reflexivity.
    cbn [parse fst]. f_equal.
    + f_equal. clear -Hl. induction Hl; cbn; congruence.
    + generalize 0%nat. induction Hl as [|a b l l' Hab _ IHl]; intros n; [reflexivity|].
      cbn [map itemIssues]. rewrite (IHe a b Hab). f_equal. apply IHl.
  - destruct H as [| | | | | |fs fs' gs ND Hf HP]; try reflexivity.
    rewrite !parse_object. cbn [fst].
    assert (L : forall k, sameUpToOrder (lookup k fs) (lookup k fs')).
    { intros k. rewrite <- (lookup_Permutation gs fs'); [|rewrite <- (keys_Forall2 _ _ _ Hf); exact ND|exact HP].
      apply lookup_Forall2; [constructor|exact Hf]. }
    clear -IHs L. induction shape as [|[k sk] rest IH]; [reflexivity|].
    apply Forall_cons_iff in IHs as [Hk Hrest]. cbn [fieldResults map fst snd fieldIssues].
    fold (fieldResults rest fs) (fieldResults rest fs').
    cbn [snd] in Hk. rewrite (Hk _ _ (L k)). f_equal. now apply IH.
  - pose proof H as H'. destruct H'; cbn [parse]; try reflexivity; apply IHi; exact H.
  - pose proof H as H'. destruct H'; cbn [parse]; try reflexivity; apply IHi; exact H.
Qed.

End OrderFacts.

Section ZodMoreFacts.
Import Zod ZodSpec BrandSchema.

(** *** One entry per violated constraint *)

Lemma atSeg_inj p i j : atSeg p i = atSeg p j -> i = j.
Proof. destruct i, j. unfold atSeg. cbn. now inversion 1. Qed.

Lemma NoDup_map_atSeg p l : List.NoDup l -> List.NoDup (map (atSeg p) l).
Proof.
  intros H. apply NoDup_map_NoDup_ForallPairs; [|exact H].
  intros i j _ _. apply atSeg_inj.
Qed.

Lemma NoDup_checks {A C : Type} (issue : C -> A) (ok : C -> bool) checks :
  List.NoDup (map issue checks) ->
  List.NoDup (flat_map (fun c => if ok c then [] else [issue c]) checks).
Proof.
  induction checks as [|c cs IH]; cbn [map flat_map]; intros H; [constructor|].
  apply List.NoDup_cons_iff in H as [Hc H]. destruct (ok c); cbn [app]; [now apply IH|].
  constructor; [|now apply IH].
  intros Hin. apply Hc. apply in_flat_map in Hin as (c' & Hc' & Hi).
  destruct (ok c'); [destruct Hi|]. destruct Hi as [<-|[]]. now apply in_map.
Qed.

Lemma itemIssues_path element items : forall n i,
  In i (itemIssues n (map (parse element) items)) ->
  exists j rest, path i = Idx j :: rest /\ (n <= j)%nat.
Proof.
  intros n i H. apply In_itemIssues in H as (j & v & i' & _ & _ & ->).
  exists (n + j)%nat, (path i'). split; [reflexivity|lia].
Qed.

Lemma NoDup_itemIssues element items :
  (forall v, List.NoDup (issues element v)) ->
  forall n, List.NoDup (itemIssues n (map (parse element) items)).
Proof.
  intros He. induction items as [|v items IH]; intros n; [constructor|].
  cbn [map itemIssues]. apply List.NoDup_app.
  - apply NoDup_map_atSeg, He.
  - apply IH.
  - intros i Hi Hi'. apply in_map_iff in Hi as (i' & <- & _).
    apply itemIssues_path in Hi' as (j & rest & E & Hj). cbn in E. inversion E. lia.
Qed.

Lemma NoDup_fieldIssues shape fs :
  List.NoDup (map fst shape) ->
  Forall (fun p => forall v, List.NoDup (issues (snd p) v)) shape ->
  List.NoDup (fieldIssues (fieldResults shape fs)).
Proof.
  induction shape as [|[k sk] rest IH]; intros ND HF; [constructor|].
  cbn [map fst] in ND. apply List.NoDup_cons_iff in ND as [Hk ND].
  apply Forall_cons_iff in HF as [Hsk HF].
  cbn [fieldResults map fst snd fieldIssues]. fold (fieldResults rest fs).
  apply List.NoDup_app.
  - apply NoDup_map_atSeg, Hsk.
  - now apply IH.
  - intros i Hi Hi'. apply in_map_iff in Hi as (i' & <- & _).
    apply In_fieldIssues in Hi' as (k' & sk' & i'' & Hin & _ & E).
    inversion E; subst k'. apply Hk. now apply (in_map fst) in Hin.
Qed.

Lemma issues_NoDup s : wfSchema s -> forall v, List.NoDup (issues s v).
Proof.
  induction s as [checks|checks|values|element m IHe|shape IHs|inner IHi|inner d IHi]
    using Schema_induction; intros W v; inversion W; subst; unfold issues in *.
  - destruct v; cbn [parse fst]; try (repeat constructor; now intros []).
    now apply (NoDup_checks stringCheckIssue (fun c => stringCheckOk c s)).
  - destruct v; cbn [parse fst]; try (repeat constructor; now intros []).
    destruct (isNaN x); cbn [fst]; [repeat constructor; now intros []|].
    now apply (NoDup_checks numberCheckIssue (fun c => numberCheckOk c x)).
  - destruct v; cbn [parse fst]; try (repeat constructor; now intros []).
    destruct (existsb _ _); cbn [fst]; repeat constructor. now intros [].
  - destruct v; cbn [parse fst]; try (repeat constructor; now intros []).
    apply List.NoDup_app.
    + destruct m as [[n msg]|]; unfold checkMinLength; [|constructor].
      destruct (Nat.ltb (List.length items) n); repeat constructor. now intros [].
    + apply NoDup_itemIssues. intros w. now apply IHe.
    + intros i Hi Hi'. apply itemIssues_path in Hi' as (j & rest & E & _).
      destruct m as [[n msg]|]; unfold checkMinLength in Hi; [|destruct Hi].
      destruct (Nat.ltb (List.length items) n); [|destruct Hi].
      destruct Hi as [<-|[]]. discriminate.
  - destruct v; try (cbn [parse fst]; repeat constructor; now intros []).
    rewrite parse_object. cbn [fst]. apply NoDup_fieldIssues; [assumption|].
    rewrite List.Forall_forall in *. intros p Hp w. apply (IHs p Hp). auto.
  - destruct v; cbn [parse]; try (now apply IHi). constructor.
  - cbn [parse]. now apply IHi.
Qed.

Lemma brandDataSchema_wf isURL : wfSchema (brandDataSchema isURL).
Proof.
  unfold brandDataSchema, brandDataShape, brandInfoSchema, typographySchema, typographyExampleSchema,
    fontSchema, fontSourceSchema, colorSchema, colorValuesSchema, logoSchema,
    logoVariantSchema, galleryItemSchema.
  repeat first
    [ apply wf_object | apply wf_array | apply wf_string | apply wf_number
    | apply wf_enum | apply wf_default | apply wf_optional
    | apply List.Forall_cons | apply List.Forall_nil
    | apply List.NoDup_cons | apply List.NoDup_nil
    | progress cbn [map fst snd stringCheckIssue numberCheckIssue]
    | (intros H; cbn in H; intuition discriminate) ].
Qed.

(** *** Well-formed values are the same as themselves *)

Lemma Value_induction (P : Value -> Prop) :
  P VUndefined -> P VNull -> (forall b, P (VBool b)) -> (forall x, P (VNum x)) ->
  (forall s, P (VStr s)) ->
  (forall l, Forall P l -> P (VArr l)) ->
  (forall fs, Forall (fun p => P (snd p)) fs -> P (VObj fs)) ->
  forall v, P v.
Proof.
  intros HU HN HB HX HS HA HO. fix IH 1. intros v. destruct v as [| |b|x|s|l|fs].
  - exact HU.
  - exact HN.
  - apply HB.
  - apply HX.
  - apply HS.
  - apply HA. induction l as [|a l IHl]; constructor; [apply IH|exact IHl].
  - apply HO. induction fs as [|[k a] fs IHf]; constructor; [apply IH|exact IHf].
Qed.

Lemma Forall2_diag {A : Type} (R : A -> A -> Prop) (W : A -> Prop) l :
  Forall (fun a => W a -> R a a) l -> Forall W l -> Forall2 R l l.
Proof.
  induction l as [|a l IH]; intros H HW; constructor.
  - apply Forall_cons_iff in H as [Ha _]. apply Forall_cons_iff in HW as [Wa _]. auto.
  - apply Forall_cons_iff in H as [_ H]. apply Forall_cons_iff in HW as [_ HW]. auto.
Qed.

Lemma sameUpToOrder_refl v : wfValue v -> sameUpToOrder v v.
Proof.
  induction v as [| |b|x|s|l IHl|fs IHf] using Value_induction; intros W;
    try (now constructor).
  - constructor. inversion W as [| | | | |? Hl|]; subst.
    exact (Forall2_diag _ _ l IHl Hl).
  - inversion W as [| | | | | |? ND Hf]; subst.
    apply (same_obj fs fs fs ND); [|reflexivity].
    apply (Forall2_diag (fun a b => fst a = fst b /\ sameUpToOrder (snd a) (snd b))
             (fun p => wfValue (snd p))); [|exact Hf].
    clear -IHf. induction IHf; constructor; auto.
Qed.

Lemma sameUpToOrder_Permutation fs fs' :
  wfValue (VObj fs) -> Permutation fs fs' -> sameUpToOrder (VObj fs) (VObj fs').
Proof.
  intros W HP. pose proof (sameUpToOrder_refl _ W) as H.
  inversion H as [| | | | | |? ? gs ND Hf HP']; subst.
  apply (same_obj fs fs' gs ND Hf). now rewrite HP'.
Qed.

(** *** What [safeParse] returns *)

Lemma safeParse_issues s v :
  (issues s v = [] /\ safeParse s v = Success (snd (parse s v)))
  \/ (issues s v <> [] /\ safeParse s v = Failure (issues s v)).
Proof.
  unfold safeParse, issues. destruct (parse s v) as [[|i errs] out]; cbn [fst snd].
  - now left.
  - right. split; [discriminate|reflexivity].
Qed.

Lemma rejectedWith_violates s v i : violates s v i -> rejectedWith s v i.
Proof.
  intros H. apply issues_iff_violates in H.
  destruct (safeParse_issues s v) as [[E _]|[_ E]].
  - rewrite E in H. destruct H.
  - exists (issues s v). now split.
Qed.

End ZodMoreFacts.

Section BrandSchemaFacts.
Import Zod ZodSpec BrandSchema.

Lemma lookup_fieldOutputs shape fs k sk :
  List.NoDup (map fst shape) -> In (k, sk) shape ->
  isUndefined (snd (parse sk (lookup k fs))) = false ->
  lookup k (fieldOutputs fs (fieldResults shape fs)) = snd (parse sk (lookup k fs)).
Proof.
  induction shape as [|[k' sk'] rest IH]; intros ND Hin HU; [destruct Hin|].
  cbn [map fst] in ND. apply List.NoDup_cons_iff in ND as [Hk ND].
  cbn [fieldResults map fst snd fieldOutputs]. fold (fieldResults rest fs).
  destruct Hin as [E|Hin].
  - inversion E; subst. rewrite HU. cbn [andb lookup]. now rewrite String.eqb_refl.
  - assert (Hne : String.eqb k k' = false).
    { apply String.eqb_neq. intros ->. apply Hk. now apply (in_map fst) in Hin. }
    destruct (isUndefined _ && negb _); [now apply IH|].
    cbn [lookup]. rewrite Hne. now apply IH.
Qed.

Lemma brandDataShape_keys isURL :
  map fst (brandDataShape isURL) = ["brand"; "logos"; "colors"; "typography"; "gallery"].
Proof. reflexivity. Qed.

Lemma brandDataShape_NoDup isURL : List.NoDup (map fst (brandDataShape isURL)).
Proof.
  rewrite brandDataShape_keys.
  repeat (constructor; [cbn; intuition discriminate|]). constructor.
Qed.

(** C6: a candidate in which [logos], [colors], [typography.fonts] or
    [typography.examples] is an empty array is rejected with an error at
    the path of that array, and a candidate with the hex value ["#ZZZZZZ"]
    in one of its colours is rejected with an error at the path of that hex
    field. *)
Theorem empty_arrays_and_bad_hex_rejected (isURL : string -> bool)
    (fs : list (string * Value)) :
  (lookup "logos" fs = VArr [] ->
   rejectedWith (brandDataSchema isURL) (VObj fs)
     (mkIssue too_small [Key "logos"] (Some "At least one logo is required")))
  /\ (lookup "colors" fs = VArr [] ->
      rejectedWith (brandDataSchema isURL) (VObj fs)
        (mkIssue too_small [Key "colors"] (Some "At least one color is required")))
  /\ (forall tfs, lookup "typography" fs = VObj tfs -> lookup "fonts" tfs = VArr [] ->
      rejectedWith (brandDataSchema isURL) (VObj fs)
        (mkIssue too_small [Key "typography"; Key "fonts"]
           (Some "At least one font is required")))
  /\ (forall tfs, lookup "typography" fs = VObj tfs -> lookup "examples" tfs = VArr [] ->
      rejectedWith (brandDataSchema isURL) (VObj fs)
        (mkIssue too_small [Key "typography"; Key "examples"]
           (Some "At least one example is required")))
  /\ (forall colors n cfs vfs,
      lookup "colors" fs = VArr colors -> colors !! n = Some (VObj cfs) ->
      lookup "values" cfs = VObj vfs -> lookup "hex" vfs = VStr "#ZZZZZZ" ->
      rejectedWith (brandDataSchema isURL) (VObj fs)
        (mkIssue invalid_string [Key "colors"; Idx n; Key "values"; Key "hex"]
           (Some "Must be a valid hex color (e.g., #035259)"))).
Proof.
  repeat split.
  - intros H. apply rejectedWith_violates.
    refine (viol_object_field (brandDataShape isURL) fs "logos" _
              (mkIssue too_small [] (Some "At least one logo is required")) _ _);
      [cbn; tauto|].
    rewrite H. apply viol_array_min; cbn; lia.
  - intros H. apply rejectedWith_violates.
    refine (viol_object_field (brandDataShape isURL) fs "colors" _
              (mkIssue too_small [] (Some "At least one color is required")) _ _);
      [cbn; tauto|].
    rewrite H. apply viol_array_min; cbn; lia.
  - intros tfs Ht Hf. apply rejectedWith_violates.
    refine (viol_object_field (brandDataShape isURL) fs "typography" _
              (mkIssue too_small [Key "fonts"] (Some "At least one font is required")) _ _);
      [cbn; tauto|].
    rewrite Ht.
    refine (viol_object_field _ tfs "fonts" _
              (mkIssue too_small [] (Some "At least one font is required")) _ _);
      [cbn; tauto|].
    rewrite Hf. apply viol_array_min; cbn; lia.
  - intros tfs Ht He. apply rejectedWith_violates.
    refine (viol_object_field (brandDataShape isURL) fs "typography" _
              (mkIssue too_small [Key "examples"]
                 (Some "At least one example is required")) _ _);
      [cbn; tauto|].
    rewrite Ht.
    refine (viol_object_field _ tfs "examples" _
              (mkIssue too_small [] (Some "At least one example is required")) _ _);
      [cbn; tauto|].
    rewrite He. apply viol_array_min; cbn; lia.
  - intros colors n cfs vfs Hc Hn Hv Hh. apply rejectedWith_violates.
    refine (viol_object_field (brandDataShape isURL) fs "colors" _
              (mkIssue invalid_string [Idx n; Key "values"; Key "hex"]
                 (Some "Must be a valid hex color (e.g., #035259)")) _ _);
      [cbn; tauto|].
    rewrite Hc.
    refine (viol_array_item _ _ colors n (VObj cfs)
              (mkIssue invalid_string [Key "values"; Key "hex"]
                 (Some "Must be a valid hex color (e.g., #035259)")) Hn _).
    refine (viol_object_field _ cfs "values" _
              (mkIssue invalid_string [Key "hex"]
                 (Some "Must be a valid hex color (e.g., #035259)")) _ _);
      [cbn; tauto|].
    rewrite Hv.
    refine (viol_object_field _ vfs "hex" _
              (mkIssue invalid_string []
                 (Some "Must be a valid hex color (e.g., #035259)")) _ _);
      [cbn; tauto|].
    rewrite Hh.
    apply (viol_string_check _
             (SRegex Regex.hexPattern (Some "Must be a valid hex color (e.g., #035259)")));
      [now left|reflexivity].
Qed.

(** C7: validation reports exactly the violated constraints, each once,
    whatever their number and wherever they are in the document; a failed
    validation returns all of them; and the report does not depend on the
    order of the properties of the candidate's objects. *)
Theorem validation_collects_all_errors (isURL : string -> bool) :
  (forall v i, In i (issues (brandDataSchema isURL) v) <-> violates (brandDataSchema isURL) v i)
  /\ (forall v, List.NoDup (issues (brandDataSchema isURL) v))
  /\ (forall v i j,
        violates (brandDataSchema isURL) v i -> violates (brandDataSchema isURL) v j ->
        safeParse (brandDataSchema isURL) v = Failure (issues (brandDataSchema isURL) v)
        /\ In i (issues (brandDataSchema isURL) v) /\ In j (issues (brandDataSchema isURL) v))
  /\ (forall v v', sameUpToOrder v v' ->
        issues (brandDataSchema isURL) v = issues (brandDataSchema isURL) v')
  /\ (forall fs fs', wfValue (VObj fs) -> Permutation fs fs' ->
        issues (brandDataSchema isURL) (VObj fs) = issues (brandDataSchema isURL) (VObj fs')).
Proof.
  split; [apply issues_iff_violates|].
  split; [apply issues_NoDup, brandDataSchema_wf|].
  split; [|split].
  - intros v i j Hi Hj. apply issues_iff_violates in Hi, Hj.
    destruct (safeParse_issues (brandDataSchema isURL) v) as [[E _]|[_ E]].
    + rewrite E in Hi. destruct Hi.
    + now repeat split.
  - apply issues_order_independent.
  - intros fs fs' W HP. apply issues_order_independent.
    now apply sameUpToOrder_Permutation.
Qed.

(** C10: a candidate without a [gallery] property whose other four
    properties are valid is accepted, and the kit that validation returns
    has [gallery] equal to the empty array; a candidate without [brand],
    [logos], [colors] or [typography] is rejected. *)
Theorem gallery_defaults_to_empty (isURL : string -> bool) (fs : list (string * Value)) :
  (lookup "gallery" fs = VUndefined ->
   (forall k sk, In (k, sk) (brandDataShape isURL) -> k <> "gallery" ->
      issues sk (lookup k fs) = []) ->
   exists out, safeParse (brandDataSchema isURL) (VObj fs) = Success (VObj out)
               /\ lookup "gallery" out = VArr [])
  /\ (forall k, In k ["brand"; "logos"; "colors"; "typography"] ->
        lookup k fs = VUndefined ->
        rejectedWith (brandDataSchema isURL) (VObj fs)
          (mkIssue invalid_type [Key k] (Some "Required"))).
Proof.
  split.
  - intros Hg Hv.
    assert (E : issues (brandDataSchema isURL) (VObj fs) = []).
    { unfold brandDataSchema, brandDataShape.
      rewrite !issues_object_cons, issues_object_nil.
      rewrite !Hv by (cbn; intuition discriminate).
      rewrite Hg. reflexivity. }
    destruct (safeParse_issues (brandDataSchema isURL) (VObj fs)) as [[_ S]|[N _]];
      [|congruence].
    unfold brandDataSchema in S. rewrite parse_object in S. cbn [snd] in S.
    eexists. split; [exact S|].
    rewrite (lookup_fieldOutputs _ fs "gallery" (ZDefault (ZArray galleryItemSchema None) (VArr [])));
      [now rewrite Hg|apply brandDataShape_NoDup|cbn; tauto|now rewrite Hg].
  - intros k Hk Hu. apply rejectedWith_violates.
    cbn in Hk. destruct Hk as [<-|[<-|[<-|[<-|[]]]]];
      (refine (viol_object_field (brandDataShape isURL) fs _ _ (typeIssue VUndefined) _ _);
       [cbn; tauto|]); rewrite Hu.
    + now apply viol_object_type.
    + now apply viol_array_type.
    + now apply viol_array_type.
    + now apply viol_object_type.
Qed.

End BrandSchemaFacts.

Lemma empty_arrays_and_bad_hex_rejected_witness :
  Zod.lookup "logos"
    (exampleFields (Zod.VArr []) (exampleColors "#035259") exampleFonts exampleExamples)
  = Zod.VArr []
  /\ ZodSpec.rejectedWith (BrandSchema.brandDataSchema exampleIsURL)
       (Zod.VObj (exampleFields (Zod.VArr []) (exampleColors "#035259") exampleFonts
                    exampleExamples))
       (Zod.mkIssue Zod.too_small [Zod.Key "logos"] (Some "At least one logo is required"))
  /\ ZodSpec.rejectedWith (BrandSchema.brandDataSchema exampleIsURL)
       (Zod.VObj (exampleFields exampleLogos (Zod.VArr []) exampleFonts exampleExamples))
       (Zod.mkIssue Zod.too_small [Zod.Key "colors"] (Some "At least one color is required"))
  /\ ZodSpec.rejectedWith (BrandSchema.brandDataSchema exampleIsURL)
       (Zod.VObj (exampleFields exampleLogos (exampleColors "#035259") (Zod.VArr [])
                    exampleExamples))
       (Zod.mkIssue Zod.too_small [Zod.Key "typography"; Zod.Key "fonts"]
          (Some "At least one font is required"))
  /\ ZodSpec.rejectedWith (BrandSchema.brandDataSchema exampleIsURL)
       (Zod.VObj (exampleFields exampleLogos (exampleColors "#035259") exampleFonts
                    (Zod.VArr [])))
       (Zod.mkIssue Zod.too_small [Zod.Key "typography"; Zod.Key "examples"]
          (Some "At least one example is required"))
  /\ ZodSpec.rejectedWith (BrandSchema.brandDataSchema exampleIsURL)
       (Zod.VObj (exampleFields exampleLogos (exampleColors "#ZZZZZZ") exampleFonts
                    exampleExamples))
       (Zod.mkIssue Zod.invalid_string
          [Zod.Key "colors"; Zod.Idx 0; Zod.Key "values"; Zod.Key "hex"]
          (Some "Must be a valid hex color (e.g., #035259)"))
  /\ Zod.safeParse (BrandSchema.brandDataSchema exampleIsURL)
       (Zod.VObj (exampleFields exampleLogos (exampleColors "#ZZZZZZ") exampleFonts
                    exampleExamples))
     = Zod.Failure
         [Zod.mkIssue Zod.invalid_string
            [Zod.Key "colors"; Zod.Idx 0; Zod.Key "values"; Zod.Key "hex"]
            (Some "Must be a valid hex color (e.g., #035259)")].
Proof.
  split; [reflexivity|].
  split; [apply (empty_arrays_and_bad_hex_rejected exampleIsURL); reflexivity|].
  split; [apply (empty_arrays_and_bad_hex_rejected exampleIsURL); reflexivity|].
  split; [eapply (empty_arrays_and_bad_hex_rejected exampleIsURL); reflexivity|].
  split; [eapply (empty_arrays_and_bad_hex_rejected exampleIsURL); reflexivity|].
  split; [eapply (empty_arrays_and_bad_hex_rejected exampleIsURL); reflexivity|].
  reflexivity.
Defined.

Lemma gallery_defaults_to_empty_witness :
  Zod.lookup "gallery" (exampleFields exampleLogos (exampleColors "#035259") exampleFonts
                          exampleExamples) = Zod.VUndefined
  /\ (exists out,
        Zod.safeParse (BrandSchema.brandDataSchema exampleIsURL)
          (Zod.VObj (exampleFields exampleLogos (exampleColors "#035259") exampleFonts
                       exampleExamples))
        = Zod.Success (Zod.VObj out)
        /\ Zod.lookup "gallery" out = Zod.VArr [])
  /\ ZodSpec.rejectedWith (BrandSchema.brandDataSchema exampleIsURL)
       (Zod.VObj [("logos", exampleLogos)])
       (Zod.mkIssue Zod.invalid_type [Zod.Key "brand"] (Some "Required")).
Proof.
  split; [reflexivity|]. split.
  - apply (gallery_defaults_to_empty exampleIsURL); [reflexivity|].
    intros k sk Hin Hk. cbn in Hin.
    destruct Hin as [E|[E|[E|[E|[E|[]]]]]]; inversion E; subst; reflexivity.
  - apply (gallery_defaults_to_empty exampleIsURL); [cbn; tauto|reflexivity].
Defined.

(** A candidate with three violations: all three are returned, in schema
    order, and reordering its properties changes nothing. *)
Lemma three_violations_reported :
  Zod.safeParse (BrandSchema.brandDataSchema exampleIsURL)
    (Zod.VObj (exampleFields (Zod.VArr []) (exampleColors "#ZZZZZZ") exampleFonts
                 (Zod.VArr [])))
  = Zod.Failure
      [Zod.mkIssue Zod.too_small [Zod.Key "logos"] (Some "At least one logo is required");
       Zod.mkIssue Zod.invalid_string
         [Zod.Key "colors"; Zod.Idx 0; Zod.Key "values"; Zod.Key "hex"]
         (Some "Must be a valid hex color (e.g., #035259)");
       Zod.mkIssue Zod.too_small [Zod.Key "typography"; Zod.Key "examples"]
         (Some "At least one example is required")]
  /\ Zod.safeParse (BrandSchema.brandDataSchema exampleIsURL)
       (Zod.VObj (rev (exampleFields (Zod.VArr []) (exampleColors "#ZZZZZZ") exampleFonts
                         (Zod.VArr []))))
     = Zod.safeParse (BrandSchema.brandDataSchema exampleIsURL)
         (Zod.VObj (exampleFields (Zod.VArr []) (exampleColors "#ZZZZZZ") exampleFonts
                      (Zod.VArr []))).
Proof. split; reflexivity. Qed.

(** * Facts about the export *)

Section JSZipFacts.
Import BrandForm.

Lemma folderAdd_preserves fuel : forall name (files : gmap string Entry) k e,
  files !! k = Some e -> folderAdd fuel name files !! k = Some e.
Proof.
  induction fuel as [|fuel IH]; intros name files k e H; cbn [folderAdd]; cbv zeta.
  - destruct (files !! forceTrailingSlash name) eqn:E; [exact H|].
    rewrite lookup_insert_ne; [exact H|]. intros Heq. rewrite Heq in E. congruence.
  - destruct (files !! forceTrailingSlash name) eqn:E; [exact H|].
    rewrite lookup_insert_ne; [|intros Heq; rewrite Heq in E; congruence].
    destruct (String.eqb _ ""); [exact H|]. now apply IH.
Qed.

Lemma folderAdd_new fuel : forall name (files : gmap string Entry) k e,
  folderAdd fuel name files !! k = Some e -> files !! k = Some e \/ e = Folder.
Proof.
  induction fuel as [|fuel IH]; intros name files k e H; cbn [folderAdd] in H; cbv zeta in H.
  - destruct (files !! forceTrailingSlash name) eqn:E; [now left|].
    destruct (decide (forceTrailingSlash name = k)) as [Heq|Hne].
    + rewrite Heq, lookup_insert_eq in H. right. congruence.
    + rewrite lookup_insert_ne in H by exact Hne. now left.
  - destruct (files !! forceTrailingSlash name) eqn:E; [now left|].
    destruct (decide (forceTrailingSlash name = k)) as [Heq|Hne].
    + rewrite Heq, lookup_insert_eq in H. right. congruence.
    + rewrite lookup_insert_ne in H by exact Hne.
      destruct (String.eqb _ ""); [now left|]. now apply IH in H.
Qed.

Lemma file_lookup root name e (files : gmap string Entry) :
  file root name e files !! (root ++ name) = Some e.
Proof. unfold file. apply lookup_insert_eq. Qed.

Lemma file_preserves root name e0 (files : gmap string Entry) k e :
  k <> root ++ name -> files !! k = Some e -> file root name e0 files !! k = Some e.
Proof.
  intros Hne H. unfold file. rewrite lookup_insert_ne by congruence.
  destruct (String.eqb _ ""); [exact H|]. now apply folderAdd_preserves.
Qed.

Lemma file_new root name e0 (files : gmap string Entry) k e :
  file root name e0 files !! k = Some e ->
  (k = root ++ name /\ e = e0) \/ files !! k = Some e \/ e = Folder.
Proof.
  unfold file. intros H. destruct (decide (root ++ name = k)) as [Heq|Hne].
  - rewrite Heq, lookup_insert_eq in H. left. split; congruence.
  - rewrite lookup_insert_ne in H by exact Hne. right.
    destruct (String.eqb _ ""); [now left|]. now apply folderAdd_new in H.
Qed.

Lemma newZip_folders k e : newZip !! k = Some e -> e = Folder.
Proof.
  unfold newZip, folder. intros H.
  repeat (apply folderAdd_new in H as [H|H]; [|exact H]).
  rewrite lookup_empty in H. discriminate.
Qed.

End JSZipFacts.

Section ExportFacts.
Import BrandForm ExportSpec.

(** *** The loops of [onSubmit] as one pass over the pending assets *)

Lemma run_app l1 : forall l2 st,
  run (l1 ++ l2) st = match run l1 st with Some st' => run l2 st' | None => None end.
Proof.
  induction l1 as [|a l1 IH]; intros l2 st; cbn [run app]; [reflexivity|].
  destruct (step a st); [apply IH|reflexivity].
Qed.

Lemma logoFiles_run files : forall li vi st,
  logoFiles li vi files st = run (logoAssets li vi files) st.
Proof.
  induction files as [|[f|] files IH]; intros li vi st; cbn [logoFiles logoAssets run step].
  - reflexivity.
  - destruct (logoStep li vi f st); [apply IH|reflexivity].
  - apply IH.
Qed.

Lemma processLogos_run entries : forall st,
  processLogos entries st = run (allLogoAssets entries) st.
Proof.
  induction entries as [|[li files] entries IH]; intros st; [reflexivity|].
  cbn [processLogos allLogoAssets flat_map fst snd]. rewrite run_app, logoFiles_run.
  destruct (run _ st); [apply IH|reflexivity].
Qed.

Lemma processGallery_run entries : forall st,
  processGallery entries st = run (allGalleryAssets entries) st.
Proof.
  induction entries as [|[gi f] entries IH]; intros st; [reflexivity|].
  cbn [processGallery allGalleryAssets map fst snd run step].
  destruct (galleryStep gi f st); [apply IH|reflexivity].
Qed.

Lemma fontFiles_run files : forall fi st,
  fontFiles fi files st = run (map (FontAsset fi) files) st.
Proof.
  induction files as [|f files IH]; intros fi st; cbn [fontFiles map run step]; [reflexivity|].
  destruct (fontStep fi f st); [apply IH|reflexivity].
Qed.

Lemma processFonts_run entries : forall st,
  processFonts entries st = run (allFontAssets entries) st.
Proof.
  induction entries as [|[fi files] entries IH]; intros st; [reflexivity|].
  cbn [processFonts allFontAssets flat_map fst snd]. rewrite run_app, fontFiles_run.
  destruct (run _ st); [apply IH|reflexivity].
Qed.

Lemma onSubmit_run u d :
  onSubmit u d =
  match run (pendingAssets u) (mkState newZip d) with
  | Some st =>
      Some (mkArchive (file "" "data.json" (Json (data st)) (zip st)) (data st)
              (slug (brand_name (brand (data st))) ++ "-brand-kit.zip"))
  | None => None
  end.
Proof.
  unfold onSubmit, pendingAssets. rewrite run_app.
  rewrite processLogos_run. destruct (run (allLogoAssets _) _) as [st1|]; [|reflexivity].
  rewrite run_app.
  rewrite processGallery_run. destruct (run (allGalleryAssets _) _) as [st2|]; [|reflexivity].
  rewrite processFonts_run. reflexivity.
Qed.

(** *** The frame: what a step leaves alone *)

Lemma Forall2_refl {A : Type} (R : A -> A -> Prop) (l : list A) :
  (forall x, R x x) -> Forall2 R l l.
Proof. intros HR. induction l; constructor; auto. Qed.

Lemma Forall2_set {A : Type} (R : A -> A -> Prop) (l : list A) : forall i x x',
  (forall y, R y y) -> l !! i = Some x -> R x x' -> Forall2 R l (<[i := x']> l).
Proof.
  induction l as [|a l IH]; intros [|i] x x' HR Hi Hx; try discriminate.
  - cbn in Hi. inversion Hi; subst. constructor; [exact Hx|now apply Forall2_refl].
  - cbn in Hi. constructor; [apply HR|]. now apply (IH i x x').
Qed.

Lemma Forall2_at {A : Type} (R : A -> A -> Prop) (l l' : list A) :
  Forall2 R l l' -> forall i,
  match l !! i, l' !! i with
  | Some x, Some y => R x y
  | None, None => True
  | _, _ => False
  end.
Proof.
  induction 1 as [|x y l l' Hxy _ IH]; intros [|i]; cbn; auto. apply IH.
Qed.

Lemma sameLogo_refl l : sameLogo l l.
Proof. repeat split. now apply Forall2_refl. Qed.

Lemma sameFrame_refl d : sameFrame d d.
Proof.
  repeat split; apply Forall2_refl; [apply sameLogo_refl|reflexivity].
Qed.

Lemma sameLogo_trans l1 l2 l3 : sameLogo l1 l2 -> sameLogo l2 l3 -> sameLogo l1 l3.
Proof.
  intros (N1 & D1 & V1) (N2 & D2 & V2). repeat split; [congruence|congruence|].
  eapply Forall2_trans; [|exact V1|exact V2]. intros; cbn in *; congruence.
Qed.

Lemma sameFrame_trans d1 d2 d3 : sameFrame d1 d2 -> sameFrame d2 d3 -> sameFrame d1 d3.
Proof.
  intros (B1 & C1 & T1 & L1 & G1) (B2 & C2 & T2 & L2 & G2).
  repeat split; try congruence.
  - eapply Forall2_trans; [|exact L1|exact L2]. apply sameLogo_trans.
  - eapply Forall2_trans; [|exact G1|exact G2]. intros; cbn in *; congruence.
Qed.

Lemma step_frame a st st' : step a st = Some st' -> sameFrame (data st) (data st').
Proof.
  destruct a as [li vi f|gi f|fi f]; cbn [step].
  - unfold logoStep. destruct (logos (data st) !! li) as [logo|] eqn:El; [|discriminate].
    destruct (logo_variants logo !! vi) as [v|] eqn:Ev; [|discriminate].
    intros H. inversion H; subst; clear H. cbn [data]. unfold sameFrame, setLogos.
    cbn [brand colors typography logos gallery]. repeat split.
    + apply (Forall2_set sameLogo _ li logo); [apply sameLogo_refl|exact El|].
      unfold sameLogo, setLogoVariants. cbn [logo_name logo_description logo_variants].
      repeat split. apply (Forall2_set _ _ vi v); [reflexivity|exact Ev|reflexivity].
    + now apply Forall2_refl.
  - unfold galleryStep. destruct (gallery (data st) !! gi) as [g|] eqn:Eg; [|discriminate].
    intros H. inversion H; subst; clear H. cbn [data]. unfold sameFrame, setGallery.
    cbn [brand colors typography logos gallery]. repeat split.
    + apply Forall2_refl, sameLogo_refl.
    + apply (Forall2_set _ _ gi g); [reflexivity|exact Eg|reflexivity].
  - unfold fontStep. destruct (typography_fonts _ !! fi); [|discriminate].
    intros H. inversion H; subst. apply sameFrame_refl.
Qed.

Lemma run_frame assets : forall st st',
  run assets st = Some st' -> sameFrame (data st) (data st').
Proof.
  induction assets as [|a assets IH]; intros st st' H; cbn [run] in H.
  - inversion H. apply sameFrame_refl.
  - destruct (step a st) as [st1|] eqn:E; [|discriminate].
    eapply sameFrame_trans; [exact (step_frame _ _ _ E)|now apply IH].
Qed.

Lemma assetFilename_frame d d' a : sameFrame d d' -> assetFilename d' a = assetFilename d a.
Proof.
  intros (_ & _ & T & L & _). destruct a as [li vi f|gi f|fi f]; cbn [assetFilename].
  - pose proof (Forall2_at _ _ _ L li) as H.
    destruct (logos d !! li), (logos d' !! li); try contradiction; [|reflexivity].
    destruct H as (-> & _). reflexivity.
  - reflexivity.
  - now rewrite T.
Qed.

Lemma assetPath_frame d d' a : sameFrame d d' -> assetPath d' a = assetPath d a.
Proof. intros H. unfold assetPath. now rewrite (assetFilename_frame d d' a H). Qed.

(** *** What a step writes *)

Lemma step_zip a st st' : step a st = Some st' ->
  exists name, assetFilename (data st) a = Some name
    /\ zip st' = file (assetFolder a) name (Blob (assetFile a)) (zip st).
Proof.
  destruct a as [li vi f|gi f|fi f]; cbn [step assetFilename assetFolder assetFile].
  - unfold logoStep. destruct (logos (data st) !! li) as [logo|]; [|discriminate].
    destruct (logo_variants logo !! vi); [|discriminate].
    intros H. inversion H; subst. eauto.
  - unfold galleryStep. destruct (gallery (data st) !! gi); [|discriminate].
    intros H. inversion H; subst. eauto.
  - unfold fontStep. destruct (typography_fonts _ !! fi); [|discriminate].
    intros H. inversion H; subst. eauto.
Qed.

Lemma step_path a st st' : step a st = Some st' ->
  exists p, assetPath (data st) a = Some p /\ zip st' !! p = Some (Blob (assetFile a))
    /\ (forall k e, k <> p -> zip st !! k = Some e -> zip st' !! k = Some e)
    /\ (forall k e, zip st' !! k = Some e ->
          (k = p /\ e = Blob (assetFile a)) \/ zip st !! k = Some e \/ e = Folder).
Proof.
  intros H. destruct (step_zip _ _ _ H) as (name & En & Ez).
  exists (assetFolder a ++ name). unfold assetPath. rewrite En, Ez.
  split; [reflexivity|]. split; [apply file_lookup|].
  split; [intros k e; apply file_preserves|intros k e; apply file_new].
Qed.

(** *** The archive after a pass over the pending assets *)

Lemma run_blob_persists assets : forall st st' k f,
  run assets st = Some st' -> zip st !! k = Some (Blob f) ->
  exists f', zip st' !! k = Some (Blob f').
Proof.
  induction assets as [|a assets IH]; intros st st' k f H Hk; cbn [run] in H.
  - inversion H; subst. eauto.
  - destruct (step a st) as [st1|] eqn:E; [|discriminate].
    destruct (step_path _ _ _ E) as (p & _ & Hp & Hkeep & _).
    destruct (decide (k = p)) as [->|Hne].
    + eapply IH; [exact H|exact Hp].
    + eapply IH; [exact H|]. apply (Hkeep k _ Hne Hk).
Qed.

Lemma run_untouched assets : forall st st' k e,
  run assets st = Some st' -> zip st !! k = Some e ->
  (forall x, In x assets -> assetPath (data st) x <> Some k) ->
  zip st' !! k = Some e.
Proof.
  induction assets as [|a assets IH]; intros st st' k e H Hk Hno; cbn [run] in H.
  - inversion H; subst. exact Hk.
  - destruct (step a st) as [st1|] eqn:E; [|discriminate].
    destruct (step_path _ _ _ E) as (p & Ep & _ & Hkeep & _).
    apply (IH st1 st' k e H).
    + apply Hkeep; [|exact Hk]. intros ->. apply (Hno a); [now left|exact Ep].
    + intros x Hx. rewrite (assetPath_frame _ _ x (step_frame _ _ _ E)).
      apply Hno. now right.
Qed.

Lemma run_entries assets : forall st st',
  run assets st = Some st' ->
  forall x, In x assets ->
  exists p f, assetPath (data st) x = Some p /\ zip st' !! p = Some (Blob f).
Proof.
  induction assets as [|a assets IH]; intros st st' H x Hx; cbn [run] in H; [destruct Hx|].
  destruct (step a st) as [st1|] eqn:E; [|discriminate].
  destruct (step_path _ _ _ E) as (p & Ep & Hp & _).
  destruct Hx as [<-|Hx].
  - destruct (run_blob_persists _ _ _ _ _ H Hp) as [f' Hf']. eauto.
  - destruct (IH st1 st' H x Hx) as (q & f & Eq & Hq).
    rewrite (assetPath_frame _ _ x (step_frame _ _ _ E)) in Eq. eauto.
Qed.

Lemma map_assetPath_frame d d' assets :
  sameFrame d d' -> map (assetPath d') assets = map (assetPath d) assets.
Proof.
  intros H. induction assets as [|a assets IH]; [reflexivity|].
  cbn [map]. now rewrite IH, (assetPath_frame d d' a H).
Qed.

Lemma run_distinct assets : forall st st',
  run assets st = Some st' ->
  List.NoDup (map (assetPath (data st)) assets) ->
  forall x, In x assets ->
  exists p, assetPath (data st) x = Some p /\ zip st' !! p = Some (Blob (assetFile x)).
Proof.
  induction assets as [|a assets IH]; intros st st' H ND x Hx; cbn [run] in H; [destruct Hx|].
  destruct (step a st) as [st1|] eqn:E; [|discriminate].
  destruct (step_path _ _ _ E) as (p & Ep & Hp & _).
  pose proof (step_frame _ _ _ E) as F.
  cbn [map] in ND. apply List.NoDup_cons_iff in ND as [Hfresh ND].
  destruct Hx as [<-|Hx].
  - exists p. split; [exact Ep|]. apply (run_untouched _ _ _ _ _ H Hp).
    intros y Hy Ey. apply Hfresh. rewrite Ep, <- Ey.
    rewrite (assetPath_frame _ _ y F). now apply in_map.
  - rewrite <- (map_assetPath_frame _ _ assets F) in ND.
    destruct (IH st1 st' H ND x Hx) as (q & Eq & Hq).
    rewrite (assetPath_frame _ _ x F) in Eq. eauto.
Qed.

Lemma run_origin assets : forall st st' k e,
  run assets st = Some st' -> zip st' !! k = Some e ->
  zip st !! k = Some e \/ e = Folder
  \/ exists x, In x assets /\ assetPath (data st) x = Some k /\ e = Blob (assetFile x).
Proof.
  induction assets as [|a assets IH]; intros st st' k e H Hk; cbn [run] in H.
  - inversion H; subst. now left.
  - destruct (step a st) as [st1|] eqn:E; [|discriminate].
    destruct (step_path _ _ _ E) as (p & Ep & _ & _ & Hnew).
    pose proof (step_frame _ _ _ E) as F.
    destruct (IH st1 st' k e H Hk) as [H1|[H1|(x & Hx & Ex & He)]].
    + destruct (Hnew k e H1) as [[-> ->]|[H2|H2]].
      * right. right. exists a. split; [now left|]. now split.
      * now left.
      * right. now left.
    + right. now left.
    + right. right. exists x. split; [now right|].
      rewrite (assetPath_frame _ _ x F) in Ex. now split.
Qed.

(** *** The [src] fields after a pass over the pending assets *)

Lemma variantSrc_set d li vi logo v src :
  logos d !! li = Some logo -> logo_variants logo !! vi = Some v ->
  forall li' vi',
  variantSrc
    (setLogos (<[li := setLogoVariants
                         (<[vi := setVariantSrc src v]> (logo_variants logo)) logo]>
                 (logos d)) d) li' vi'
  = if decide (li' = li /\ vi' = vi) then Some src else variantSrc d li' vi'.
Proof.
  intros El Ev li' vi'. unfold variantSrc, setLogos. cbn [logos].
  pose proof (lookup_lt_Some _ _ _ El) as Hli.
  pose proof (lookup_lt_Some _ _ _ Ev) as Hvi.
  destruct (decide (li' = li)) as [->|Hne].
  - rewrite list_lookup_insert_eq by exact Hli. rewrite El.
    unfold setLogoVariants. cbn [logo_variants].
    destruct (decide (vi' = vi)) as [->|Hnv].
    + rewrite list_lookup_insert_eq by exact Hvi.
      destruct (decide _) as [_|N]; [reflexivity|]. exfalso. now apply N.
    + rewrite list_lookup_insert_ne by congruence.
      destruct (decide _) as [[_ ?]|_]; [contradiction|reflexivity].
  - rewrite list_lookup_insert_ne by congruence.
    destruct (decide _) as [[? _]|_]; [contradiction|reflexivity].
Qed.

Lemma gallerySrc_set d gi g src :
  gallery d !! gi = Some g ->
  forall gi',
  gallerySrc (setGallery (<[gi := setGallerySrc src g]> (gallery d)) d) gi'
  = if decide (gi' = gi) then Some src else gallerySrc d gi'.
Proof.
  intros Eg gi'. unfold gallerySrc, setGallery. cbn [gallery].
  pose proof (lookup_lt_Some _ _ _ Eg) as Hgi.
  destruct (decide (gi' = gi)) as [->|Hne].
  - now rewrite list_lookup_insert_eq by exact Hgi.
  - now rewrite list_lookup_insert_ne by congruence.
Qed.

Lemma step_variantSrc a st st' : step a st = Some st' ->
  forall li vi,
  (~ In (li, vi) (logoSlots [a]) -> variantSrc (data st') li vi = variantSrc (data st) li vi)
  /\ (forall f, a = LogoAsset li vi f ->
        exists p, assetPath (data st) a = Some p
                  /\ variantSrc (data st') li vi = Some (String "/" p)).
Proof.
  intros H li vi. destruct a as [li0 vi0 f0|gi f0|fi f0]; cbn [step] in H.
  - unfold logoStep in H.
    destruct (logos (data st) !! li0) as [logo|] eqn:El; [|discriminate].
    destruct (logo_variants logo !! vi0) as [v|] eqn:Ev; [|discriminate].
    inversion H; subst; clear H. cbn [data].
    rewrite (variantSrc_set _ _ _ _ _ _ El Ev). split.
    + intros Hno. destruct (decide _) as [[-> ->]|_]; [|reflexivity].
      exfalso. apply Hno. now left.
    + intros f E. inversion E; subst.
      unfold assetPath. cbn [assetFilename assetFolder]. rewrite El.
      eexists. split; [reflexivity|].
      destruct (decide _) as [_|N]; [reflexivity|]. exfalso. now apply N.
  - unfold galleryStep in H. destruct (gallery (data st) !! gi); [|discriminate].
    inversion H; subst. split; [reflexivity|discriminate].
  - unfold fontStep in H. destruct (typography_fonts _ !! fi); [|discriminate].
    inversion H; subst. split; [reflexivity|discriminate].
Qed.

Lemma step_gallerySrc a st st' : step a st = Some st' ->
  forall gi,
  (~ In gi (gallerySlots [a]) -> gallerySrc (data st') gi = gallerySrc (data st) gi)
  /\ (forall f, a = GalleryAsset gi f ->
        exists p, assetPath (data st) a = Some p
                  /\ gallerySrc (data st') gi = Some (String "/" p)).
Proof.
  intros H gi. destruct a as [li0 vi0 f0|gi0 f0|fi f0]; cbn [step] in H.
  - unfold logoStep in H.
    destruct (logos (data st) !! li0) as [logo|]; [|discriminate].
    destruct (logo_variants logo !! vi0); [|discriminate].
    inversion H; subst. split; [reflexivity|discriminate].
  - unfold galleryStep in H. destruct (gallery (data st) !! gi0) as [g|] eqn:Eg; [|discriminate].
    inversion H; subst; clear H. cbn [data]. rewrite (gallerySrc_set _ _ _ _ Eg). split.
    + intros Hno. destruct (decide _) as [->|_]; [|reflexivity].
      exfalso. apply Hno. now left.
    + intros f E. inversion E; subst. eexists. split; [reflexivity|].
      destruct (decide _) as [_|N]; [reflexivity|]. exfalso. now apply N.
  - unfold fontStep in H. destruct (typography_fonts _ !! fi); [|discriminate].
    inversion H; subst. split; [reflexivity|discriminate].
Qed.

Lemma logoSlots_cons a assets : logoSlots (a :: assets) = (logoSlots [a] ++ logoSlots assets)%list.
Proof. now destruct a. Qed.

Lemma gallerySlots_cons a assets :
  gallerySlots (a :: assets) = (gallerySlots [a] ++ gallerySlots assets)%list.
Proof. now destruct a. Qed.

Lemma In_logoSlots assets li vi :
  In (li, vi) (logoSlots assets) <-> exists f, In (LogoAsset li vi f) assets.
Proof.
  induction assets as [|a assets IH]; [cbn; split; [tauto|now intros [? []]]|].
  destruct a as [li0 vi0 f0|gi f0|fi f0]; cbn [logoSlots In]; rewrite IH; split.
  - intros [E|[f Hf]]; [inversion E; subst; eauto|eauto].
  - intros [f [E|Hf]]; [inversion E; subst; now left|eauto].
  - intros [f Hf]. eauto.
  - intros [f [E|Hf]]; [discriminate|eauto].
  - intros [f Hf]. eauto.
  - intros [f [E|Hf]]; [discriminate|eauto].
Qed.

Lemma In_gallerySlots assets gi :
  In gi (gallerySlots assets) <-> exists f, In (GalleryAsset gi f) assets.
Proof.
  induction assets as [|a assets IH]; [cbn; split; [tauto|now intros [? []]]|].
  destruct a as [li0 vi0 f0|gi0 f0|fi f0]; cbn [gallerySlots In]; rewrite IH; split.
  - intros [f Hf]. eauto.
  - intros [f [E|Hf]]; [discriminate|eauto].
  - intros [E|[f Hf]]; [subst; eauto|eauto].
  - intros [f [E|Hf]]; [inversion E; subst; now left|eauto].
  - intros [f Hf]. eauto.
  - intros [f [E|Hf]]; [discriminate|eauto].
Qed.

Lemma run_variantSrc_other assets : forall st st' li vi,
  run assets st = Some st' -> ~ In (li, vi) (logoSlots assets) ->
  variantSrc (data st') li vi = variantSrc (data st) li vi.
Proof.
  induction assets as [|a assets IH]; intros st st' li vi H Hno; cbn [run] in H.
  - now inversion H.
  - destruct (step a st) as [st1|] eqn:E; [|discriminate].
    rewrite logoSlots_cons in Hno. rewrite in_app_iff in Hno.
    rewrite (IH st1 st' li vi H) by tauto.
    apply (step_variantSrc _ _ _ E li vi). tauto.
Qed.

Lemma run_variantSrc assets : forall st st' li vi f,
  run assets st = Some st' -> List.NoDup (logoSlots assets) ->
  In (LogoAsset li vi f) assets ->
  exists p, assetPath (data st) (LogoAsset li vi f) = Some p
            /\ variantSrc (data st') li vi = Some (String "/" p).
Proof.
  induction assets as [|a assets IH]; intros st st' li vi f H ND Hin; cbn [run] in H;
    [destruct Hin|].
  destruct (step a st) as [st1|] eqn:E; [|discriminate].
  rewrite logoSlots_cons in ND.
  destruct Hin as [->|Hin].
  - cbn [logoSlots app] in ND. apply List.NoDup_cons_iff in ND as [Hfresh _].
    destruct (proj2 (step_variantSrc _ _ _ E li vi) f eq_refl) as (p & Ep & Hs).
    exists p. split; [exact Ep|].
    now rewrite (run_variantSrc_other _ _ _ _ _ H Hfresh).
  - apply NoDup_app_remove_l in ND.
    destruct (IH st1 st' li vi f H ND Hin) as (p & Ep & Hs).
    rewrite (assetPath_frame _ _ _ (step_frame _ _ _ E)) in Ep. eauto.
Qed.

Lemma run_gallerySrc_other assets : forall st st' gi,
  run assets st = Some st' -> ~ In gi (gallerySlots assets) ->
  gallerySrc (data st') gi = gallerySrc (data st) gi.
Proof.
  induction assets as [|a assets IH]; intros st st' gi H Hno; cbn [run] in H.
  - now inversion H.
  - destruct (step a st) as [st1|] eqn:E; [|discriminate].
    rewrite gallerySlots_cons in Hno. rewrite in_app_iff in Hno.
    rewrite (IH st1 st' gi H) by tauto.
    apply (step_gallerySrc _ _ _ E gi). tauto.
Qed.

Lemma run_gallerySrc assets : forall st st' gi f,
  run assets st = Some st' -> List.NoDup (gallerySlots assets) ->
  In (GalleryAsset gi f) assets ->
  exists p, assetPath (data st) (GalleryAsset gi f) = Some p
            /\ gallerySrc (data st') gi = Some (String "/" p).
Proof.
  induction assets as [|a assets IH]; intros st st' gi f H ND Hin; cbn [run] in H;
    [destruct Hin|].
  destruct (step a st) as [st1|] eqn:E; [|discriminate].
  rewrite gallerySlots_cons in ND.
  destruct Hin as [->|Hin].
  - cbn [gallerySlots app] in ND. apply List.NoDup_cons_iff in ND as [Hfresh _].
    destruct (proj2 (step_gallerySrc _ _ _ E gi) f eq_refl) as (p & Ep & Hs).
    exists p. split; [exact Ep|].
    now rewrite (run_gallerySrc_other _ _ _ _ H Hfresh).
  - apply NoDup_app_remove_l in ND.
    destruct (IH st1 st' gi f H ND Hin) as (p & Ep & Hs).
    rewrite (assetPath_frame _ _ _ (step_frame _ _ _ E)) in Ep. eauto.
Qed.

End ExportFacts.

Section ExportTheorems.
Import BrandForm ExportSpec.

(** *** Slots are used once *)

Lemma logoSlots_app l1 l2 : logoSlots (l1 ++ l2) = (logoSlots l1 ++ logoSlots l2)%list.
Proof.
  induction l1 as [|a l1 IH]; [reflexivity|].
  rewrite <- app_comm_cons, logoSlots_cons, IH, (logoSlots_cons a l1). apply app_assoc.
Qed.

Lemma gallerySlots_app l1 l2 :
  gallerySlots (l1 ++ l2) = (gallerySlots l1 ++ gallerySlots l2)%list.
Proof.
  induction l1 as [|a l1 IH]; [reflexivity|].
  rewrite <- app_comm_cons, gallerySlots_cons, IH, (gallerySlots_cons a l1). apply app_assoc.
Qed.

Lemma logoSlots_logoAssets files : forall li vi,
  List.NoDup (logoSlots (logoAssets li vi files))
  /\ forall s, In s (logoSlots (logoAssets li vi files)) -> fst s = li /\ (vi <= snd s)%nat.
Proof.
  induction files as [|[f|] files IH]; intros li vi; cbn [logoAssets logoSlots].
  - split; [constructor|intros s []].
  - destruct (IH li (S vi)) as [ND Hs]. split.
    + constructor; [|exact ND]. intros Hin. apply Hs in Hin. cbn in Hin. lia.
    + intros s [<-|Hin]; [cbn; lia|]. apply Hs in Hin. lia.
  - destruct (IH li (S vi)) as [ND Hs]. split; [exact ND|].
    intros s Hin. apply Hs in Hin. lia.
Qed.

Lemma logoSlots_allLogoAssets entries :
  List.NoDup (map fst entries) ->
  List.NoDup (logoSlots (allLogoAssets entries))
  /\ forall s, In s (logoSlots (allLogoAssets entries)) -> In (fst s) (map fst entries).
Proof.
  induction entries as [|[li files] entries IH]; intros ND.
  - split; [constructor|intros s []].
  - cbn [map fst] in ND. apply List.NoDup_cons_iff in ND as [Hli ND].
    destruct (IH ND) as [ND' Hs]. destruct (logoSlots_logoAssets files li 0) as [ND0 H0].
    cbn [allLogoAssets flat_map fst snd]. fold (allLogoAssets entries).
    rewrite logoSlots_app. split.
    + apply List.NoDup_app; [exact ND0|exact ND'|].
      intros s Hs0 Hs1. apply H0 in Hs0 as [E _]. apply Hs in Hs1. congruence.
    + intros s Hin. apply in_app_iff in Hin as [Hin|Hin].
      * left. apply H0 in Hin as [E _]. now cbn.
      * right. now apply Hs.
Qed.

Lemma logoSlots_gallery entries : logoSlots (allGalleryAssets entries) = [].
Proof. induction entries as [|[gi f] entries IH]; [reflexivity|exact IH]. Qed.

Lemma logoSlots_fonts entries : logoSlots (allFontAssets entries) = [].
Proof.
  induction entries as [|[fi files] entries IH]; [reflexivity|].
  cbn [allFontAssets flat_map fst snd]. fold (allFontAssets entries).
  rewrite logoSlots_app, IH, app_nil_r. clear. induction files; [reflexivity|assumption].
Qed.

Lemma gallerySlots_logo_files files : forall li vi, gallerySlots (logoAssets li vi files) = [].
Proof. induction files as [|[f|] files IH]; intros li vi; [reflexivity|apply IH|apply IH]. Qed.

Lemma gallerySlots_logos entries : gallerySlots (allLogoAssets entries) = [].
Proof.
  induction entries as [|[li files] entries IH]; [reflexivity|].
  cbn [allLogoAssets flat_map fst snd]. fold (allLogoAssets entries).
  now rewrite gallerySlots_app, IH, gallerySlots_logo_files.
Qed.

Lemma gallerySlots_fonts entries : gallerySlots (allFontAssets entries) = [].
Proof.
  induction entries as [|[fi files] entries IH]; [reflexivity|].
  cbn [allFontAssets flat_map fst snd]. fold (allFontAssets entries).
  rewrite gallerySlots_app, IH, app_nil_r. clear. induction files; [reflexivity|assumption].
Qed.

Lemma gallerySlots_gallery entries : gallerySlots (allGalleryAssets entries) = map fst entries.
Proof.
  induction entries as [|[gi f] entries IH]; [reflexivity|].
  cbn [allGalleryAssets map fst snd gallerySlots]. f_equal. exact IH.
Qed.

Lemma pending_logoSlots_NoDup u :
  List.NoDup (map fst (uploaded_logos u)) -> List.NoDup (logoSlots (pendingAssets u)).
Proof.
  intros ND. unfold pendingAssets.
  rewrite !logoSlots_app, logoSlots_gallery, logoSlots_fonts, !app_nil_r.
  now apply logoSlots_allLogoAssets.
Qed.

Lemma pending_gallerySlots_NoDup u :
  List.NoDup (map fst (uploaded_gallery u)) -> List.NoDup (gallerySlots (pendingAssets u)).
Proof.
  intros ND. unfold pendingAssets.
  rewrite !gallerySlots_app, gallerySlots_logos, gallerySlots_fonts, gallerySlots_gallery.
  now rewrite app_nil_r.
Qed.

(** *** Paths *)

Lemma prefix_append (s t : string) : String.prefix s (s ++ t) = true.
Proof.
  induction s as [|c s IH]; [now destruct t|]. rewrite append_cons. cbn.
  destruct (ascii_dec c c); [exact IH|contradiction].
Qed.

Lemma assetPath_folder d x p :
  assetPath d x = Some p -> String.prefix (assetFolder x) p = true /\ p <> "data.json".
Proof.
  unfold assetPath. destruct (assetFilename d x) as [name|]; [|discriminate].
  intros E. inversion E; subst. split; [apply prefix_append|].
  destruct x; cbn [assetFolder]; rewrite append_cons; discriminate.
Qed.

Lemma zip_mkState (z : gmap string Entry) (d : BrandData) : zip (mkState z d) = z.
Proof. reflexivity. Qed.

(** The entry at a path holds the file of the last pending asset written
    there: the one after which no asset has the same path. *)
Lemma run_last l1 x l2 : forall st st',
  run (l1 ++ x :: l2) st = Some st' ->
  (forall y, In y l2 -> assetPath (data st) y <> assetPath (data st) x) ->
  exists p, assetPath (data st) x = Some p /\ zip st' !! p = Some (Blob (assetFile x)).
Proof.
  intros st st' H Hlast. rewrite run_app in H.
  destruct (run l1 st) as [st1|] eqn:R1; [|discriminate].
  pose proof (run_frame _ _ _ R1) as F1. cbn [run] in H.
  destruct (step x st1) as [st2|] eqn:E; [|discriminate].
  pose proof (step_frame _ _ _ E) as F2.
  destruct (step_path _ _ _ E) as (p & Ep & Hp & _).
  rewrite (assetPath_frame _ _ x F1) in Ep.
  exists p. split; [exact Ep|].
  apply (run_untouched _ _ _ _ _ H Hp).
  intros y Hy Ey. apply (Hlast y Hy).
  rewrite Ep, <- Ey.
  now rewrite (assetPath_frame _ _ y F2), (assetPath_frame _ _ y F1).
Qed.

(** C4 (as amended): when the export completes, every pending asset has a
    file entry at its path, in the folder of its kind.  The entry holds
    the file of the last asset written to that path, in the order
    [onSubmit] visits the pending assets; so when the pending assets have
    pairwise different paths, every entry holds its asset's own file.  In
    any case the archive has no file entry besides these.  The [src] of
    every logo variant and gallery item with a pending asset is ["/"]
    followed by the path of that asset's entry, and the rest of the
    document is as it was.  [data.json] is written from the rewritten
    document. *)
Theorem export_places_and_rewrites (u : UploadedFiles) (d : BrandData) (a : Archive) :
  onSubmit u d = Some a ->
  List.NoDup (map fst (uploaded_logos u)) ->
  List.NoDup (map fst (uploaded_gallery u)) ->
  (forall x, In x (pendingAssets u) ->
     exists p f, assetPath d x = Some p /\ String.prefix (assetFolder x) p = true
                 /\ entries a !! p = Some (Blob f))
  /\ (forall before x after,
      pendingAssets u = (before ++ x :: after)%list ->
      (forall y, In y after -> assetPath d y <> assetPath d x) ->
      exists p, assetPath d x = Some p /\ entries a !! p = Some (Blob (assetFile x)))
  /\ (List.NoDup (map (assetPath d) (pendingAssets u)) ->
      forall x, In x (pendingAssets u) ->
      exists p, assetPath d x = Some p /\ entries a !! p = Some (Blob (assetFile x)))
  /\ (forall p f, entries a !! p = Some (Blob f) ->
      exists x, In x (pendingAssets u) /\ assetPath d x = Some p /\ assetFile x = f)
  /\ entries a !! "data.json" = Some (Json (document a))
  /\ (forall li vi f, In (LogoAsset li vi f) (pendingAssets u) ->
      exists p, assetPath d (LogoAsset li vi f) = Some p
                /\ variantSrc (document a) li vi = Some ("/" ++ p))
  /\ (forall gi f, In (GalleryAsset gi f) (pendingAssets u) ->
      exists p, assetPath d (GalleryAsset gi f) = Some p
                /\ gallerySrc (document a) gi = Some ("/" ++ p))
  /\ sameFrame d (document a)
  /\ (forall li vi, (forall f, ~ In (LogoAsset li vi f) (pendingAssets u)) ->
      variantSrc (document a) li vi = variantSrc d li vi)
  /\ (forall gi, (forall f, ~ In (GalleryAsset gi f) (pendingAssets u)) ->
      gallerySrc (document a) gi = gallerySrc d gi).
Proof.
  intros H NDl NDg. rewrite onSubmit_run in H.
  destruct (run (pendingAssets u) (mkState newZip d)) as [st|] eqn:R; [|discriminate].
  inversion H; subst a; clear H. cbn [entries document].
  assert (Keep : forall p e, p <> "data.json" -> zip st !! p = Some e ->
                 file "" "data.json" (Json (data st)) (zip st) !! p = Some e).
  { intros p e Hp. now apply file_preserves. }
  split; [|split; [|split; [|split; [|split; [|split; [|split; [|split; [|split]]]]]]]].
  - intros x Hx. destruct (run_entries _ _ _ R x Hx) as (p & f & Ep & Hp).
    cbn [data] in Ep. destruct (assetPath_folder _ _ _ Ep) as [Hpre Hne].
    exists p, f. split; [exact Ep|]. split; [exact Hpre|]. now apply Keep.
  - intros before x after Eu Hlast. rewrite Eu in R.
    destruct (run_last _ _ _ _ _ R Hlast) as (p & Ep & Hp).
    cbn [data] in Ep. destruct (assetPath_folder _ _ _ Ep) as [_ Hne].
    exists p. split; [exact Ep|]. now apply Keep.
  - intros ND x Hx. destruct (run_distinct _ _ _ R ND x Hx) as (p & Ep & Hp).
    cbn [data] in Ep. destruct (assetPath_folder _ _ _ Ep) as [_ Hne].
    exists p. split; [exact Ep|]. now apply Keep.
  - intros p f Hp. apply file_new in Hp as [[_ E]|[Hp|E]]; try discriminate.
    destruct (run_origin _ _ _ _ _ R Hp) as [Hz|[E|(x & Hx & Ex & E)]]; try discriminate.
    + rewrite zip_mkState in Hz. pose proof (newZip_folders p (Blob f) Hz). discriminate.
    + exists x. inversion E. now repeat split.
  - apply (file_lookup "" "data.json").
  - intros li vi f Hin.
    exact (run_variantSrc _ _ _ li vi f R (pending_logoSlots_NoDup u NDl) Hin).
  - intros gi f Hin.
    exact (run_gallerySrc _ _ _ gi f R (pending_gallerySlots_NoDup u NDg) Hin).
  - exact (run_frame _ _ _ R).
  - intros li vi Hno. apply (run_variantSrc_other _ _ _ li vi R).
    intros Hin. apply In_logoSlots in Hin as [f Hf]. exact (Hno f Hf).
  - intros gi Hno. apply (run_gallerySrc_other _ _ _ gi R).
    intros Hin. apply In_gallerySlots in Hin as [f Hf]. exact (Hno f Hf).
Qed.

End ExportTheorems.

Lemma export_places_and_rewrites_witness :
  (exists a,
     BrandForm.onSubmit (oneLogoFile (BrandForm.mkFile "raw.png" [Byte.x01]))
       (acmeKit exampleInfo "Primary" "PNG" "a.png" [] exampleTypography []) = Some a
     /\ List.NoDup (map fst (BrandForm.uploaded_logos
                               (oneLogoFile (BrandForm.mkFile "raw.png" [Byte.x01]))))
     /\ List.NoDup (map fst (BrandForm.uploaded_gallery
                               (oneLogoFile (BrandForm.mkFile "raw.png" [Byte.x01]))))
     /\ BrandForm.entries a !! "assets/logos/acme-1.png"
        = Some (BrandForm.Blob (BrandForm.mkFile "raw.png" [Byte.x01]))
     /\ ExportSpec.variantSrc (BrandForm.document a) 0 0 = Some "/assets/logos/acme-1.png"
     /\ ExportSpec.sameFrame
          (acmeKit exampleInfo "Primary" "PNG" "a.png" [] exampleTypography [])
          (BrandForm.document a))
  /\ (exists a,
        BrandForm.onSubmit twoLogoFiles twoLogosKit = Some a
        /\ ExportSpec.assetPath twoLogosKit
             (ExportSpec.LogoAsset 0 0 (BrandForm.mkFile "colour.png" [Byte.x01]))
           = Some "assets/logos/acme-1.png"
        /\ BrandForm.entries a !! "assets/logos/acme-1.png"
           = Some (BrandForm.Blob (BrandForm.mkFile "mono.png" [Byte.x02]))).
Proof.
  split.
  - assert (E : exists a,
               BrandForm.onSubmit (oneLogoFile (BrandForm.mkFile "raw.png" [Byte.x01]))
                 (acmeKit exampleInfo "Primary" "PNG" "a.png" [] exampleTypography [])
               = Some a) by (eexists; reflexivity).
    destruct E as [a E]. exists a.
    assert (NDl : List.NoDup (map fst (BrandForm.uploaded_logos
                    (oneLogoFile (BrandForm.mkFile "raw.png" [Byte.x01])))))
      by (repeat constructor; intros []).
    assert (NDg : List.NoDup (map fst (BrandForm.uploaded_gallery
                    (oneLogoFile (BrandForm.mkFile "raw.png" [Byte.x01])))))
      by constructor.
    destruct (export_places_and_rewrites _ _ a E NDl NDg)
      as (_ & _ & H2 & _ & _ & H5 & _ & H7 & _).
    split; [exact E|]. split; [exact NDl|]. split; [exact NDg|].
    split; [|split; [|exact H7]].
    + destruct (H2 ltac:(repeat constructor; intros []) _ (or_introl eq_refl))
        as (p & Ep & Hp).
      inversion Ep; subst p. exact Hp.
    + destruct (H5 0%nat 0%nat _ (or_introl eq_refl)) as (p & Ep & Hp).
      inversion Ep; subst p. exact Hp.
  - assert (E : exists a, BrandForm.onSubmit twoLogoFiles twoLogosKit = Some a)
      by (eexists; reflexivity).
    destruct E as [a E]. exists a.
    assert (NDl : List.NoDup (map fst (BrandForm.uploaded_logos twoLogoFiles)))
      by (repeat constructor; cbn; intuition discriminate).
    assert (NDg : List.NoDup (map fst (BrandForm.uploaded_gallery twoLogoFiles)))
      by constructor.
    destruct (export_places_and_rewrites _ _ a E NDl NDg) as (_ & L & _).
    split; [exact E|]. split; [reflexivity|].
    destruct (L [ExportSpec.LogoAsset 0 0 (BrandForm.mkFile "colour.png" [Byte.x01])]
                (ExportSpec.LogoAsset 1 0 (BrandForm.mkFile "mono.png" [Byte.x02])) []
                eq_refl ltac:(intros y []))
      as (p & Ep & Hp).
    inversion Ep; subst p. exact Hp.
Defined.

(** C1 (as amended): for a kit with exactly one logo named "Acme" with one
    variant, and one pending PNG asset named "raw.png" in slot (logo 0,
    variant 0), the export has an entry at [assets/logos/acme-1.png]
    holding the file, and the emitted document is the kit with
    [logos[0].variants[0].src] set to ["/assets/logos/acme-1.png"]. *)
Theorem acme_logo_scenario (b : BrandForm.BrandInfo) (description label src : string)
    (cs : list BrandForm.Color) (t : BrandForm.Typography)
    (g : list BrandForm.GalleryItem) (bytes : list Byte.byte) :
  exists a,
    BrandForm.onSubmit (oneLogoFile (BrandForm.mkFile "raw.png" bytes))
      (acmeKit b description label src cs t g) = Some a
    /\ BrandForm.entries a !! "assets/logos/acme-1.png"
       = Some (BrandForm.Blob (BrandForm.mkFile "raw.png" bytes))
    /\ BrandForm.document a
       = acmeKit b description label "/assets/logos/acme-1.png" cs t g
    /\ BrandForm.entries a !! "data.json" = Some (BrandForm.Json (BrandForm.document a)).
Proof.
  eexists. split; [reflexivity|]. cbn [BrandForm.entries BrandForm.document].
  split; [|split]; reflexivity.
Qed.

(** C1 as stated fails: the entry is at [assets/logos/acme-1.png], and the
    [src] written to the document is that path after a ["/"]. *)
Lemma acme_logo_scenario_counterexample :
  exists a,
    BrandForm.onSubmit (oneLogoFile (BrandForm.mkFile "raw.png" [Byte.x01]))
      (acmeKit exampleInfo "Primary" "PNG" "assets/logos/raw.png" [] exampleTypography [])
    = Some a
    /\ BrandForm.entries a !! "assets/logos/acme-1.png"
       = Some (BrandForm.Blob (BrandForm.mkFile "raw.png" [Byte.x01]))
    /\ ExportSpec.variantSrc (BrandForm.document a) 0 0 = Some "/assets/logos/acme-1.png"
    /\ ExportSpec.variantSrc (BrandForm.document a) 0 0 <> Some "assets/logos/acme-1.png".
Proof.
  eexists. split; [reflexivity|]. split; [reflexivity|]. split; [reflexivity|discriminate].
Qed.

(** C4 as stated fails twice over.  The [src] written is not the path of
    the entry but that path after a ["/"]; and two pending assets whose
    logo names give the same file name share one entry: the archive for
    [twoLogoFiles] has a single file entry, holding the second file. *)
Lemma export_completeness_counterexample :
  exists a,
    BrandForm.onSubmit twoLogoFiles twoLogosKit = Some a
    /\ List.length (ExportSpec.pendingAssets twoLogoFiles) = 2%nat
    /\ blobEntries a
       = [("assets/logos/acme-1.png", BrandForm.Blob (BrandForm.mkFile "mono.png" [Byte.x02]))]
    /\ ExportSpec.variantSrc (BrandForm.document a) 0 0 = Some "/assets/logos/acme-1.png"
    /\ ExportSpec.variantSrc (BrandForm.document a) 0 0 <> Some "assets/logos/acme-1.png".
Proof.
  eexists. split; [reflexivity|]. split; [reflexivity|]. split; [vm_compute; reflexivity|].
  split; [reflexivity|discriminate].
Qed.

(** A pending asset whose slot is no longer in the document (its logo was
    removed after the upload): reading the logo's name throws, and nothing
    is exported. *)
Lemma onSubmit_stale_slot :
  BrandForm.onSubmit twoLogoFiles
    (acmeKit exampleInfo "Primary" "PNG" "a.png" [] exampleTypography []) = None.
Proof. reflexivity. Qed.

(** * Facts about the colour panel *)

Section ColorPanelFacts.
Import Zod BrandSchema BrandForm ColorPanel.

Lemma truthy_false s : truthy s = false <-> s = "".
Proof.
  unfold truthy. rewrite negb_false_iff. apply String.eqb_eq.
Qed.

Lemma truthy_matches r s : Regex.matches r s = true -> Regex.nullable r = false -> truthy s = true.
Proof.
  intros M N. destruct s; [|reflexivity]. cbn in M. congruence.
Qed.

Lemma colorValues_issues v :
  issues colorValuesSchema (valuesValue v) = [] <->
  Regex.matches Regex.hexPattern (values_hex v) = true
  /\ Regex.matches Regex.rgbPattern (values_rgb v) = true
  /\ Regex.matches Regex.cmykPattern (values_cmyk v) = true.
Proof.
  unfold issues, colorValuesSchema, valuesValue.
  cbn [parse fst snd lookup String.eqb Ascii.eqb Bool.eqb flat_map fieldIssues map app].
  unfold checkString, stringCheckOk.
  destruct (Regex.matches Regex.hexPattern (values_hex v));
    destruct (Regex.matches Regex.rgbPattern (values_rgb v));
    destruct (Regex.matches Regex.cmykPattern (values_cmyk v));
    cbn; split; intros H; try discriminate; try reflexivity; try (repeat split; reflexivity);
    destruct H as (H1 & H2 & H3); discriminate.
Qed.

Lemma hex_text h : Regex.matches Regex.hexPattern h = true ->
  exists r g b, (0 <= r <= 255 /\ 0 <= g <= 255 /\ 0 <= b <= 255)
    /\ hexToRgb h = rgbText r g b
    /\ rgbToHex (rgbText r g b) = String_toLowerCase h.
Proof.
  intros H.
  apply hexPattern_inv in H as (c1 & c2 & c3 & c4 & c5 & c6 & -> & H1 & H2 & H3 & H4 & H5 & H6).
  destruct (hexPair_facts c1 c2 H1 H2) as (B1 & _ & E1).
  destruct (hexPair_facts c3 c4 H3 H4) as (B2 & _ & E2).
  destruct (hexPair_facts c5 c6 H5 H6) as (B3 & _ & E3).
  exists (byteOfHex c1 c2), (byteOfHex c3 c4), (byteOfHex c5 c6).
  split; [auto|]. split; [now apply hexToRgb_valid|].
  unfold rgbText. rewrite rgbToHex_dec by assumption. rewrite E1, E2, E3. reflexivity.
Qed.

Lemma lower_hexPattern h : Regex.matches Regex.hexPattern h = true ->
  Regex.matches Regex.hexPattern (String_toLowerCase h) = true.
Proof.
  intros H. destruct (hex_text h H) as (r & g & b & (Hr & Hg & Hb) & _ & E).
  rewrite <- E. unfold rgbText. rewrite rgbToHex_dec by assumption.
  exact (proj1 (hex_of_bytes r g b Hr Hg Hb)).
Qed.

(** After Convert beside a valid hex field, the three values of the colour
    pass the checks of [colorValuesSchema]; the hex field is as it was. *)
Theorem convertHex_valid (v : ColorValues) :
  Regex.matches Regex.hexPattern (values_hex v) = true ->
  issues colorValuesSchema (valuesValue (convertHex v)) = []
  /\ values_hex (convertHex v) = values_hex v
  /\ values_rgb (convertHex v) = hexToRgb (values_hex v)
  /\ values_cmyk (convertHex v) = hexToCmyk (values_hex v).
Proof.
  intros H.
  destruct (hex_digits_accepted (values_hex v) (or_introl H)) as [R C].
  assert (E : convertHex v
              = mkColorValues (values_hex v) (hexToRgb (values_hex v))
                  (hexToCmyk (values_hex v))).
  { unfold convertHex. cbv zeta.
    rewrite (truthy_matches _ _ H eq_refl), (truthy_matches _ _ R eq_refl),
      (truthy_matches _ _ C eq_refl). reflexivity. }
  rewrite E. split; [|now repeat split].
  apply colorValues_issues. now repeat split.
Qed.

Lemma convertHex_valid_witness :
  Regex.matches Regex.hexPattern "#035259" = true
  /\ convertHex (mkColorValues "#035259" "" "") = mkColorValues "#035259" "3, 82, 89" "97, 8, 0, 65"
  /\ issues colorValuesSchema
       (valuesValue (convertHex (mkColorValues "#035259" "" ""))) = [].
Proof.
  split; [reflexivity|]. split; [vm_compute; reflexivity|].
  exact (proj1 (convertHex_valid (mkColorValues "#035259" "" "") eq_refl)).
Defined.

(** After Convert beside an RGB field that passes its check and whose three
    components are at most 255, the three values of the colour pass the
    checks of [colorValuesSchema]; the RGB field is as it was. *)
Theorem convertRgb_valid (v : ColorValues) (r g b : Z) :
  Regex.matches Regex.rgbPattern (values_rgb v) = true ->
  parseParts (values_rgb v) = [of_Z r; of_Z g; of_Z b] ->
  0 <= r <= 255 -> 0 <= g <= 255 -> 0 <= b <= 255 ->
  issues colorValuesSchema (valuesValue (convertRgb v)) = []
  /\ values_rgb (convertRgb v) = values_rgb v
  /\ values_hex (convertRgb v) = rgbToHex (values_rgb v)
  /\ values_cmyk (convertRgb v) = rgbToCmyk (values_rgb v).
Proof.
  intros M P Hr Hg Hb.
  destruct (rgb_bytes_accepted _ r g b P Hr Hg Hb) as [X C].
  assert (E : convertRgb v
              = mkColorValues (rgbToHex (values_rgb v)) (values_rgb v)
                  (rgbToCmyk (values_rgb v))).
  { unfold convertRgb. cbv zeta.
    rewrite (truthy_matches _ _ M eq_refl), (truthy_matches _ _ X eq_refl),
      (truthy_matches _ _ C eq_refl). reflexivity. }
  rewrite E. split; [|now repeat split].
  apply colorValues_issues. now repeat split.
Qed.

Lemma convertRgb_valid_witness :
  Regex.matches Regex.rgbPattern "3,82,  89" = true
  /\ parseParts "3,82,  89" = [of_Z 3; of_Z 82; of_Z 89]
  /\ convertRgb (mkColorValues "" "3,82,  89" "") = mkColorValues "#035259" "3,82,  89" "97, 8, 0, 65"
  /\ issues colorValuesSchema
       (valuesValue (convertRgb (mkColorValues "" "3,82,  89" ""))) = [].
Proof.
  split; [reflexivity|]. split; [reflexivity|]. split; [vm_compute; reflexivity|].
  refine (proj1 (convertRgb_valid (mkColorValues "" "3,82,  89" "") 3 82 89 eq_refl eq_refl _ _ _));
    lia.
Defined.

(** After Convert beside a CMYK field that passes its check and whose four
    components are at most 100, the three values of the colour pass the
    checks of [colorValuesSchema]; the CMYK field is as it was. *)
Theorem convertCmyk_valid (v : ColorValues) (c m y k : Z) :
  Regex.matches Regex.cmykPattern (values_cmyk v) = true ->
  parseParts (values_cmyk v) = [of_Z c; of_Z m; of_Z y; of_Z k] ->
  0 <= c <= 100 -> 0 <= m <= 100 -> 0 <= y <= 100 -> 0 <= k <= 100 ->
  issues colorValuesSchema (valuesValue (convertCmyk v)) = []
  /\ values_cmyk (convertCmyk v) = values_cmyk v
  /\ values_rgb (convertCmyk v) = cmykToRgb (values_cmyk v)
  /\ values_hex (convertCmyk v) = cmykToHex (values_cmyk v).
Proof.
  intros M P Hc Hm Hy Hk.
  destruct (cmyk_percent_accepted _ c m y k P Hc Hm Hy Hk) as [R X].
  assert (E : convertCmyk v
              = mkColorValues (cmykToHex (values_cmyk v)) (cmykToRgb (values_cmyk v))
                  (values_cmyk v)).
  { unfold convertCmyk. cbv zeta.
    rewrite (truthy_matches _ _ M eq_refl), (truthy_matches _ _ X eq_refl),
      (truthy_matches _ _ R eq_refl). reflexivity. }
  rewrite E. split; [|now repeat split].
  apply colorValues_issues. now repeat split.
Qed.

Lemma convertCmyk_valid_witness :
  Regex.matches Regex.cmykPattern "97, 8, 0, 65" = true
  /\ parseParts "97, 8, 0, 65" = [of_Z 97; of_Z 8; of_Z 0; of_Z 65]
  /\ convertCmyk (mkColorValues "" "" "97, 8, 0, 65") = mkColorValues "#035259" "3, 82, 89" "97, 8, 0, 65"
  /\ issues colorValuesSchema
       (valuesValue (convertCmyk (mkColorValues "" "" "97, 8, 0, 65"))) = [].
Proof.
  split; [reflexivity|]. split; [reflexivity|]. split; [vm_compute; reflexivity|].
  refine (proj1 (convertCmyk_valid (mkColorValues "" "" "97, 8, 0, 65") 97 8 0 65
                   eq_refl eq_refl _ _ _ _)); lia.
Defined.

(** A Convert button changes nothing when its field cannot be converted:
    a hex field that does not have six characters after its first [#], an
    RGB field that does not have three parts which each start with a
    number, a CMYK field that does not have four. *)
Theorem convert_unconvertible_unchanged (v : ColorValues) :
  (String.length (String_replace_first "#" (values_hex v)) <> 6%nat -> convertHex v = v)
  /\ (List.length (parseParts (values_rgb v)) <> 3%nat
      \/ existsb isNaN (parseParts (values_rgb v)) = true -> convertRgb v = v)
  /\ (List.length (parseParts (values_cmyk v)) <> 4%nat
      \/ existsb isNaN (parseParts (values_cmyk v)) = true -> convertCmyk v = v).
Proof.
  split; [|split]; intros H.
  - destruct (hex_length_rejected _ H) as [E1 E2].
    unfold convertHex. cbv zeta. rewrite E1, E2. cbn. now destruct (truthy (values_hex v)).
  - destruct (rgb_parts_rejected _ H) as [E1 E2].
    unfold convertRgb. cbv zeta. rewrite E1, E2. cbn. now destruct (truthy (values_rgb v)).
  - destruct (cmyk_parts_rejected _ H) as [E1 E2].
    unfold convertCmyk. cbv zeta. rewrite E1, E2. cbn. now destruct (truthy (values_cmyk v)).
Qed.

Lemma convertHex_parts v : Regex.matches Regex.hexPattern (values_hex v) = true ->
  exists r g b, (0 <= r <= 255 /\ 0 <= g <= 255 /\ 0 <= b <= 255)
    /\ convertHex v = mkColorValues (values_hex v) (rgbText r g b) (rgbToCmyk (rgbText r g b))
    /\ rgbToHex (rgbText r g b) = String_toLowerCase (values_hex v)
    /\ hexToCmyk (values_hex v) = rgbToCmyk (rgbText r g b).
Proof.
  intros H. destruct (hex_text _ H) as (r & g & b & (Hr & Hg & Hb) & E & L).
  exists r, g, b. split; [auto|].
  pose proof (hexToCmyk_bytes _ r g b Hr Hg Hb E) as C.
  destruct (hex_digits_accepted (values_hex v) (or_introl H)) as [MR MC].
  split; [|split; assumption].
  unfold convertHex. cbv zeta.
  rewrite (truthy_matches _ _ H eq_refl), (truthy_matches _ _ MR eq_refl),
    (truthy_matches _ _ MC eq_refl). unfold setCmyk, setRgb. cbn. now rewrite C, E.
Qed.

(** Convert beside the hex field and then beside the RGB field it filled:
    the second press keeps the RGB and CMYK values and puts the hex value
    in lower case. *)
Theorem convertRgb_after_convertHex (v : ColorValues) :
  Regex.matches Regex.hexPattern (values_hex v) = true ->
  convertRgb (convertHex v)
  = setHex (String_toLowerCase (values_hex v)) (convertHex v).
Proof.
  intros H.
  destruct (convertHex_parts v H) as (r & g & b & (Hr & Hg & Hb) & E & Er & Ec).
  rewrite E. unfold convertRgb, setHex. cbn [values_rgb values_hex values_cmyk]. cbv zeta.
  rewrite Er.
  pose proof (lower_hexPattern _ H) as L.
  rewrite (truthy_matches _ _ L eq_refl).
  rewrite (truthy_matches _ _ (rgbText_valid r g b Hr Hg Hb) eq_refl).
  destruct (truthy (rgbToCmyk (rgbText r g b))); cbn; rewrite <- ?Ec; reflexivity.
Qed.

Lemma convertRgb_after_convertHex_witness :
  Regex.matches Regex.hexPattern "#03A2F9" = true
  /\ convertRgb (convertHex (mkColorValues "#03A2F9" "" ""))
     = mkColorValues "#03a2f9" "3, 162, 249" "99, 35, 0, 2".
Proof.
  split; [reflexivity|].
  rewrite (convertRgb_after_convertHex (mkColorValues "#03A2F9" "" "") eq_refl).
  vm_compute. reflexivity.
Defined.

(** The open panel stays a panel of the list under the three handlers that
    change the list or the open panel. *)
Theorem expanded_stays_in_range (p : Panels) (colorIndex : nat) :
  expandedInRange p ->
  expandedInRange (addColor p)
  /\ ((colorIndex < List.length (panel_colors p))%nat ->
      expandedInRange (togglePanel colorIndex p)
      /\ expandedInRange (removeColor colorIndex p)).
Proof.
  unfold expandedInRange. intros H. split; [|intros Hi; split].
  - cbn. rewrite length_app. cbn. lia.
  - cbn. destruct (decide (expandedColorIndex p = Some colorIndex)); [exact I|exact Hi].
  - unfold removeColor. cbn [expandedColorIndex panel_colors].
    rewrite length_delete by (apply lookup_lt_is_Some; exact Hi).
    destruct (expandedColorIndex p) as [e|]; [|exact I].
    destruct (Nat.eqb_spec e colorIndex) as [->|Hne].
    + destruct (Nat.ltb_spec 0 colorIndex); [lia|exact I].
    + destruct (Nat.ltb_spec colorIndex e); lia.
Qed.

Lemma expanded_stays_in_range_witness :
  expandedInRange (mkPanels [mkColor "a" [] (mkColorValues "" "" "");
                             mkColor "b" [] (mkColorValues "" "" "")] (Some 1%nat))
  /\ expandedColorIndex
       (removeColor 1 (mkPanels [mkColor "a" [] (mkColorValues "" "" "");
                                 mkColor "b" [] (mkColorValues "" "" "")] (Some 1%nat)))
     = Some 0%nat
  /\ expandedInRange
       (removeColor 1 (mkPanels [mkColor "a" [] (mkColorValues "" "" "");
                                 mkColor "b" [] (mkColorValues "" "" "")] (Some 1%nat))).
Proof.
  assert (H : expandedInRange
                (mkPanels [mkColor "a" [] (mkColorValues "" "" "");
                           mkColor "b" [] (mkColorValues "" "" "")] (Some 1%nat)))
    by (cbn; lia).
  split; [exact H|]. split; [reflexivity|].
  refine (proj2 (proj2 (expanded_stays_in_range _ 1%nat H) _)). cbn. lia.
Defined.

(** Removing a colour other than the one whose panel is open leaves that
    colour's panel open, at its new position.  Removing the colour whose
    panel is open opens the panel of the colour before it, and no panel
    when it was the first. *)
Theorem removeColor_open_panel (p : Panels) (colorIndex : nat) :
  (colorIndex < List.length (panel_colors p))%nat ->
  (expandedColorIndex p <> Some colorIndex ->
   expandedColor (removeColor colorIndex p) = expandedColor p)
  /\ (expandedColorIndex p = Some colorIndex ->
      expandedColor (removeColor colorIndex p)
      = match colorIndex with
        | O => None
        | S i => panel_colors p !! i
        end).
Proof.
  intros Hi. unfold expandedColor, removeColor. cbn [expandedColorIndex panel_colors].
  split.
  - intros Hne. destruct (expandedColorIndex p) as [e|]; [|reflexivity].
    destruct (Nat.eqb_spec e colorIndex) as [->|Hne']; [congruence|].
    destruct (Nat.ltb_spec colorIndex e).
    + rewrite list_lookup_delete_ge by lia. f_equal. lia.
    + rewrite list_lookup_delete_lt by lia. reflexivity.
  - intros ->. rewrite Nat.eqb_refl.
    destruct colorIndex as [|i]; [reflexivity|].
    cbn [Nat.ltb Nat.leb]. rewrite list_lookup_delete_lt by lia. f_equal. lia.
Qed.

Lemma removeColor_open_panel_witness :
  expandedColor
    (removeColor 0 (mkPanels [mkColor "a" [] (mkColorValues "" "" "");
                              mkColor "b" [] (mkColorValues "" "" "")] (Some 1%nat)))
  = Some (mkColor "b" [] (mkColorValues "" "" "")).
Proof.
  refine (eq_trans (proj1 (removeColor_open_panel
            (mkPanels [mkColor "a" [] (mkColorValues "" "" "");
                       mkColor "b" [] (mkColorValues "" "" "")] (Some 1%nat)) 0%nat _) _) _).
  - cbn. lia.
  - cbn. discriminate.
  - reflexivity.
Defined.




End ColorPanelFacts.

(** * Facts about the font panel and file names *)

Section FontPanelFacts.
Import Zod BrandSchema BrandForm FontPanel.

Lemma weightOK_all : forallZ 1001 0 weightOK = true.
Proof. vm_compute. reflexivity. Qed.

Lemma weight_facts n : 0 <= n <= 1000 ->
  hasChar "," (dec n) = false /\ part (dec n) = of_Z n /\ isNaN (of_Z n) = false.
Proof.
  intros H. pose proof (forallZ_spec _ _ _ weightOK_all n ltac:(lia)) as A.
  unfold weightOK in A. cbv zeta in A. fold (dec n) in A.
  apply andb_true_iff in A as [A A3]. apply andb_true_iff in A as [A1 A2].
  apply negb_true_iff in A1, A3. apply float_eqb_eq in A2. auto.
Qed.

Lemma split_cons_other sep c r : Ascii.eqb c sep = false ->
  String_split sep (String c r)
  = match String_split sep r with
    | [] => [String c ""]
    | p :: ps => String c p :: ps
    end.
Proof. intros H. cbn [String_split]. now rewrite H. Qed.

Lemma split_app sep s t :
  String_split sep (s ++ String sep t) = (String_split sep s ++ String_split sep t)%list.
Proof.
  induction s as [|c r IH]; rewrite ?append_nil_l, ?append_cons.
  - cbn [String_split]. now rewrite Ascii.eqb_refl.
  - cbn [String_split]. destruct (Ascii.eqb c sep); rewrite IH; [reflexivity|].
    pose proof (split_not_nil sep r) as N.
    destruct (String_split sep r); [congruence|reflexivity].
Qed.

Lemma parseParts_space s : parseParts (String " " s) = parseParts s.
Proof.
  unfold parseParts. rewrite split_cons_other by reflexivity.
  pose proof (split_not_nil "," s) as N.
  destruct (String_split "," s) as [|p ps]; [congruence|]. reflexivity.
Qed.

Lemma parseParts_app s t :
  parseParts (s ++ String "," t) = (parseParts s ++ parseParts t)%list.
Proof. unfold parseParts. now rewrite split_app, map_app. Qed.

Lemma parseParts_weightsText ws : ws <> [] -> Forall (fun n => 0 <= n <= 1000) ws ->
  parseParts (weightsText (map of_Z ws)) = map of_Z ws.
Proof.
  unfold weightsText. induction ws as [|n rest IH]; intros N H; [congruence|].
  apply List.Forall_cons_iff in H as [Hn Hrest].
  destruct (weight_facts n Hn) as (C & P & _).
  destruct rest as [|m rest'].
  - cbn [map Array_join_sep]. fold (dec n). unfold parseParts.
    rewrite split_no_sep by exact C. cbn [map]. fold (part (dec n)). now rewrite P.
  - change (Array_join_sep ", " (map Number_toString (map of_Z (n :: m :: rest'))))
      with (dec n ++ String "," (String " "
              (Array_join_sep ", " (map Number_toString (map of_Z (m :: rest')))))).
    rewrite parseParts_app, parseParts_space, IH by (assumption || discriminate).
    unfold parseParts at 1. rewrite split_no_sep by exact C.
    cbn [map app]. fold (part (dec n)). now rewrite P.
Qed.

Lemma filter_numbers ws : Forall (fun n => 0 <= n <= 1000) ws ->
  List.filter (fun w => negb (isNaN w)) (map of_Z ws) = map of_Z ws.
Proof.
  induction 1 as [|n rest Hn _ IH]; [reflexivity|]. cbn [map List.filter].
  destruct (weight_facts n Hn) as (_ & _ & ->). cbn [negb]. now rewrite IH.
Qed.

(** The weights field shows [weights.join(", ")] and sets the weights
    from what is typed.  For weights that are integers from 0 to 1000 the
    text shown reads back as the same weights, also with a comma, or a
    comma and a space, typed after it. *)
Theorem weights_text_roundtrip (ws : list Z) :
  Forall (fun n => 0 <= n <= 1000) ws ->
  weightsOnChange (weightsText (map of_Z ws)) = map of_Z ws
  /\ weightsOnChange (weightsText (map of_Z ws) ++ ",") = map of_Z ws
  /\ weightsOnChange (weightsText (map of_Z ws) ++ ", ") = map of_Z ws.
Proof.
  intros H. unfold weightsOnChange.
  assert (E : List.filter (fun w => negb (isNaN w)) (parseParts (weightsText (map of_Z ws)))
              = map of_Z ws).
  { destruct ws as [|n rest]; [reflexivity|].
    rewrite parseParts_weightsText by (assumption || discriminate).
    now apply filter_numbers. }
  split; [exact E|].
  split.
  - change "," with (String "," ""). rewrite parseParts_app, List.filter_app, E.
    cbn. now rewrite app_nil_r.
  - change ", " with (String "," " "). rewrite parseParts_app, List.filter_app, E.
    cbn. now rewrite app_nil_r.
Qed.

Lemma weights_text_roundtrip_witness :
  Forall (fun n => 0 <= n <= 1000) [400; 700]
  /\ weightsText (map of_Z [400; 700]) = "400, 700"
  /\ weightsOnChange "400, 700" = [of_Z 400; of_Z 700]
  /\ weightsOnChange "400, 700, " = [of_Z 400; of_Z 700].
Proof.
  assert (H : Forall (fun n => 0 <= n <= 1000) [400; 700])
    by (repeat constructor; lia).
  split; [exact H|]. split; [vm_compute; reflexivity|].
  destruct (weights_text_roundtrip [400; 700] H) as (A & _ & C).
  split; [exact A|exact C].
Defined.

Lemma filter_no_nan (l : list float) :
  Forall (fun w => isNaN w = false) (List.filter (fun w => negb (isNaN w)) l).
Proof.
  apply List.Forall_forall. intros w Hw. apply filter_In in Hw as [_ Hw].
  now apply negb_true_iff.
Qed.

Lemma number_items_issues (ws : list float) : forall i,
  Forall (fun w => isNaN w = false) ws ->
  itemIssues i (map (parse (ZNumber [])) (map VNum ws)) = [].
Proof.
  induction ws as [|w rest IH]; intros i H; [reflexivity|].
  apply List.Forall_cons_iff in H as [Hw Hrest].
  cbn [map itemIssues parse]. rewrite Hw. cbn. now apply IH.
Qed.

(** Whatever is typed in the weights field, the weights it sets hold no
    NaN.  So a font source whose type and family are valid fails
    [fontSourceSchema] with the schema's message for the weights, and
    nothing else, when the text gave no weight; and it passes when the
    text gave at least one weight and every weight is finite. *)
Theorem weights_field_validation (text type family : string) :
  In type ["google"; "local"; "url"] -> family <> "" ->
  Forall (fun w => isNaN w = false) (weightsOnChange text)
  /\ (weightsOnChange text = [] ->
      issues fontSourceSchema
        (sourceValue (mkFontSource type family (weightsOnChange text)))
      = [mkIssue too_small [Key "weights"]
           (Some "At least one font weight is required")])
  /\ (weightsOnChange text <> [] ->
      Forall (fun w => PrimFloat.is_infinity w = false) (weightsOnChange text) ->
      issues fontSourceSchema
        (sourceValue (mkFontSource type family (weightsOnChange text)))
      = []).
Proof.
  intros Ht Hf. pose proof (filter_no_nan (parseParts text)) as N.
  fold (weightsOnChange text) in N. split; [exact N|].
  assert (E : issues fontSourceSchema
                (sourceValue (mkFontSource type family (weightsOnChange text)))
              = match weightsOnChange text with
                | [] => [mkIssue too_small [Key "weights"]
                           (Some "At least one font weight is required")]
                | _ => []
                end).
  { unfold issues, fontSourceSchema, sourceValue.
    cbn [parse fst snd lookup String.eqb Ascii.eqb Bool.eqb fieldIssues map app
         source_type source_family source_weights flat_map].
    rewrite number_items_issues by exact N.
    assert (Et : existsb (String.eqb type) ["google"; "local"; "url"] = true).
    { apply existsb_exists. exists type. split; [exact Ht|apply String.eqb_refl]. }
    rewrite Et. unfold checkString, stringCheckOk.
    destruct family as [|c r]; [congruence|]. cbn [String.length Nat.leb map app].
    rewrite length_map.
    destruct (weightsOnChange text); reflexivity. }
  rewrite E. split.
  - now intros ->.
  - intros Hne _. destruct (weightsOnChange text); [congruence|reflexivity].
Qed.

Lemma weights_field_validation_witness :
  weightsOnChange "bold" = []
  /\ issues fontSourceSchema (sourceValue (mkFontSource "google" "Inter" (weightsOnChange "bold")))
     = [mkIssue too_small [Key "weights"] (Some "At least one font weight is required")]
  /\ weightsOnChange "400, x, 700" = [of_Z 400; of_Z 700]
  /\ issues fontSourceSchema
       (sourceValue (mkFontSource "google" "Inter" (weightsOnChange "400, x, 700"))) = [].
Proof.
  split; [reflexivity|].
  split.
  - refine (proj1 (proj2 (weights_field_validation "bold" "google" "Inter" _ _)) _);
      [now left|discriminate|reflexivity].
  - split; [reflexivity|].
    refine (proj2 (proj2 (weights_field_validation "400, x, 700" "google" "Inter" _ _)) _ _);
      [now left|discriminate|vm_compute; discriminate|].
    change (weightsOnChange "400, x, 700") with [of_Z 400; of_Z 700].
    repeat constructor.
Defined.

End FontPanelFacts.

Section NamingFacts.
Import BrandForm ExportSpec.

Lemma lowerChar_facts_all :
  forallb (fun c => Ascii.eqb (lowerChar (lowerChar c)) (lowerChar c)
                    && Bool.eqb (isWhiteSpace (lowerChar c)) (isWhiteSpace c)) allAscii = true.
Proof. vm_compute. reflexivity. Qed.

Lemma lowerChar_facts c :
  lowerChar (lowerChar c) = lowerChar c /\ isWhiteSpace (lowerChar c) = isWhiteSpace c.
Proof.
  pose proof (forallb_allAscii _ lowerChar_facts_all c) as H. cbv beta in H.
  apply andb_true_iff in H as [H1 H2].
  apply Ascii.eqb_eq in H1. apply Bool.eqb_prop in H2. auto.
Qed.

Lemma replace_spaces_chars s : forall inrun,
  allChars slugChar (replace_spaces inrun (String_toLowerCase s)) = true.
Proof.
  induction s as [|c r IH]; intros inrun; [reflexivity|].
  cbn [String_toLowerCase replace_spaces].
  destruct (lowerChar_facts c) as [L W].
  destruct (isWhiteSpace (lowerChar c)) eqn:E.
  - destruct inrun; [apply IH|]. cbn [allChars]. rewrite IH. reflexivity.
  - cbn [allChars]. rewrite IH. unfold slugChar. rewrite E, L, Ascii.eqb_refl. reflexivity.
Qed.

Lemma slug_fixed s : allChars slugChar s = true ->
  String_toLowerCase s = s /\ forall inrun, replace_spaces inrun s = s.
Proof.
  induction s as [|c r IH]; intros H; [split; reflexivity|].
  cbn [allChars] in H. apply andb_true_iff in H as [Hc Hr].
  unfold slugChar in Hc. apply andb_true_iff in Hc as [Hw Hl].
  apply negb_true_iff in Hw. apply Ascii.eqb_eq in Hl.
  destruct (IH Hr) as [IH1 IH2]. split.
  - cbn [String_toLowerCase]. now rewrite Hl, IH1.
  - intros inrun. cbn [replace_spaces]. now rewrite Hw, IH2.
Qed.

Lemma allChars_app p s t : allChars p (s ++ t) = allChars p s && allChars p t.
Proof.
  induction s as [|c r IH]; rewrite ?append_nil_l, ?append_cons; [reflexivity|].
  cbn [allChars]. now rewrite IH, andb_assoc.
Qed.

Lemma allChars_weaken (p q : ascii -> bool) s :
  (forall c, p c = true -> q c = true) -> allChars p s = true -> allChars q s = true.
Proof.
  intros W. induction s as [|c r IH]; [reflexivity|]. cbn [allChars].
  intros H. apply andb_true_iff in H as [Hc Hr]. now rewrite (W c Hc), IH.
Qed.

(** The slug of a name has no white space and no capital letter, and is
    its own slug. *)
Theorem slug_idempotent (name : string) :
  allChars slugChar (slug name) = true /\ slug (slug name) = slug name.
Proof.
  assert (H : allChars slugChar (slug name) = true) by apply replace_spaces_chars.
  split; [exact H|].
  destruct (slug_fixed _ H) as [L R]. unfold slug at 1. now rewrite L, R.
Qed.

(** The name of the download is the slug of the brand name the export was
    given, followed by [-brand-kit.zip]; it has no white space. *)
Theorem download_name (u : UploadedFiles) (d : BrandData) (a : Archive) :
  onSubmit u d = Some a ->
  download a = slug (brand_name (brand d)) ++ "-brand-kit.zip"
  /\ allChars (fun c => negb (isWhiteSpace c)) (download a) = true.
Proof.
  intros H. rewrite onSubmit_run in H.
  destruct (run (pendingAssets u) (mkState newZip d)) as [st|] eqn:R; [|discriminate].
  inversion H; subst a; clear H. cbn [download].
  destruct (run_frame _ _ _ R) as (B & _). cbn [data] in B. rewrite B.
  split; [reflexivity|].
  rewrite allChars_app. apply andb_true_iff. split; [|reflexivity].
  apply (allChars_weaken slugChar); [|apply replace_spaces_chars].
  intros c Hc. unfold slugChar in Hc. now apply andb_true_iff in Hc as [Hc _].
Qed.

Lemma download_name_witness :
  exists a,
    onSubmit (mkUploadedFiles [] [] [])
      (mkBrandData (mkBrandInfo "Acme  Tools Co" "" "" "") [] [] (mkTypography [] []) [])
    = Some a
    /\ download a = "acme-tools-co-brand-kit.zip".
Proof.
  assert (E : exists a,
             onSubmit (mkUploadedFiles [] [] [])
               (mkBrandData (mkBrandInfo "Acme  Tools Co" "" "" "") [] []
                  (mkTypography [] []) []) = Some a) by (eexists; reflexivity).
  destruct E as [a E]. exists a. split; [exact E|].
  rewrite (proj1 (download_name _ _ a E)). reflexivity.
Defined.

Lemma split_pieces sep s : Forall (fun p => hasChar sep p = false) (String_split sep s).
Proof.
  induction s as [|c r IH]; [repeat constructor|]. cbn [String_split].
  destruct (Ascii.eqb c sep) eqn:E; [constructor; [reflexivity|exact IH]|].
  destruct (String_split sep r) as [|p ps]; [repeat constructor; cbn; now rewrite E|].
  apply List.Forall_cons_iff in IH as [Hp Hps].
  constructor; [cbn [hasChar]; now rewrite E, Hp|exact Hps].
Qed.

Lemma last_app_nonempty {A : Type} (l1 l2 : list A) (d : A) :
  l2 <> [] -> List.last (l1 ++ l2) d = List.last l2 d.
Proof.
  intros N. induction l1 as [|x l1 IH]; [reflexivity|].
  cbn [app]. destruct (l1 ++ l2)%list eqn:E.
  - apply app_eq_nil in E as [_ E]. congruence.
  - cbn [List.last]. rewrite <- IH. reflexivity.
Qed.

(** The extension [onSubmit] gives an archive entry is what follows the
    last dot of the file's name.  It holds no dot, and it is the whole name
    when the name has no dot. *)
Theorem extension_facts (name : string) :
  hasChar "." (extension name) = false
  /\ (hasChar "." name = false -> extension name = name)
  /\ (forall base ext, name = base ++ "." ++ ext -> hasChar "." ext = false ->
        extension name = ext).
Proof.
  unfold extension. split; [|split].
  - pose proof (split_pieces "." name) as F. pose proof (split_not_nil "." name) as N.
    destruct (exists_last N) as (l & x & E). rewrite E in *.
    rewrite last_last. apply List.Forall_app in F as [_ F]. now inversion F.
  - intros H. now rewrite split_no_sep.
  - intros base ext -> H. change ("." ++ ext) with (String "." ext).
    rewrite split_app, last_app_nonempty by apply split_not_nil.
    now rewrite split_no_sep.
Qed.

End NamingFacts.

(** * Facts about when the export completes *)

Section ExportSlotsFacts.
Import BrandForm ExportSpec ExportSlots.

Lemma step_None a st : step a st = None <-> slotExists (data st) a = false.
Proof.
  destruct a as [li vi f|gi f|fi f]; cbn [step slotExists].
  - unfold logoStep. destruct (logos (data st) !! li) as [logo|]; [|tauto].
    destruct (logo_variants logo !! vi); split; intros H; congruence.
  - unfold galleryStep. destruct (gallery (data st) !! gi); split; intros H; congruence.
  - unfold fontStep. destruct (typography_fonts _ !! fi); split; intros H; congruence.
Qed.

Lemma slotExists_frame d d' a : sameFrame d d' -> slotExists d' a = slotExists d a.
Proof.
  intros (_ & _ & T & L & G). destruct a as [li vi f|gi f|fi f]; cbn [slotExists].
  - pose proof (Forall2_at _ _ _ L li) as H.
    destruct (logos d !! li) as [l|], (logos d' !! li) as [l'|]; try contradiction;
      [|reflexivity].
    destruct H as (_ & _ & V). pose proof (Forall2_at _ _ _ V vi) as H.
    destruct (logo_variants l !! vi), (logo_variants l' !! vi); try contradiction; reflexivity.
  - pose proof (Forall2_at _ _ _ G gi) as H.
    destruct (gallery d !! gi), (gallery d' !! gi); try contradiction; reflexivity.
  - now rewrite T.
Qed.

Lemma run_None assets : forall st,
  run assets st = None <-> exists x, In x assets /\ slotExists (data st) x = false.
Proof.
  induction assets as [|a assets IH]; intros st; cbn [run].
  - split; [discriminate|]. intros (x & [] & _).
  - destruct (step a st) as [st1|] eqn:E.
    + assert (Ha : slotExists (data st) a = true).
      { destruct (slotExists (data st) a) eqn:S; [reflexivity|].
        apply step_None in S. congruence. }
      pose proof (step_frame _ _ _ E) as F. rewrite IH. split.
      * intros (x & Hx & S). exists x. split; [now right|].
        now rewrite <- (slotExists_frame _ _ x F).
      * intros (x & [->|Hx] & S); [congruence|]. exists x. split; [exact Hx|].
        now rewrite (slotExists_frame _ _ x F).
    + split; [|reflexivity]. intros _. exists a. split; [now left|]. now apply step_None.
Qed.

(** The export throws exactly when some pending asset has no slot in the
    document: a logo file whose logo or variant is gone, a gallery file
    whose item is gone, a font file whose font is gone. *)
Theorem onSubmit_throws_iff (u : UploadedFiles) (d : BrandData) :
  onSubmit u d = None <->
  exists x, In x (pendingAssets u) /\ slotExists d x = false.
Proof.
  rewrite onSubmit_run, <- (run_None (pendingAssets u) (mkState newZip d)).
  destruct (run (pendingAssets u) (mkState newZip d)); split; congruence.
Qed.

Lemma filename_not_empty d x name : assetFilename d x = Some name -> name <> "".
Proof.
  destruct x as [li vi f|gi f|fi f]; cbn [assetFilename].
  - destruct (logos d !! li) as [logo|]; [|discriminate]. intros H. inversion H.
    unfold logoFilename. destruct (slug (logo_name logo)); discriminate.
  - intros H. inversion H. discriminate.
  - destruct (typography_fonts (typography d) !! fi) as [font|]; [|discriminate].
    intros H. inversion H. unfold fontFilename. destruct (slug (font_name font)); discriminate.
Qed.

Lemma append_same_l (s t : string) : s ++ t = s -> t = "".
Proof.
  induction s as [|c r IH]; rewrite ?append_nil_l, ?append_cons; [auto|].
  intros H. inversion H. auto.
Qed.

Lemma prefix_of_append (s t k : string) : s ++ t = k -> String.prefix s k = true.
Proof. intros <-. apply prefix_append. Qed.

Lemma assetPath_not_folder d x p : assetPath d x = Some p -> ~ In p folderPaths.
Proof.
  unfold assetPath. destruct (assetFilename d x) as [name|] eqn:E; [|discriminate].
  intros H. inversion H as [Hp]. clear H. pose proof (filename_not_empty _ _ _ E) as N.
  intros Hin.
  assert (P : String.prefix (assetFolder x) p = true) by (rewrite <- Hp; apply prefix_append).
  assert (Q : p <> assetFolder x).
  { rewrite <- Hp. intros Heq. apply append_same_l in Heq. contradiction. }
  unfold folderPaths in Hin.
  destruct x; cbn [assetFolder] in *;
    destruct Hin as [Hin|[Hin|[Hin|[Hin|[]]]]]; subst p;
    first [now apply Q | vm_compute in P; discriminate P].
Qed.

(** Every archive the export produces holds the four folders
    [assets/], [assets/logos/], [assets/gallery/] and [assets/fonts/],
    whatever is pending: no file entry takes the place of one. *)
Theorem archive_folders (u : UploadedFiles) (d : BrandData) (a : Archive) :
  onSubmit u d = Some a ->
  forall p, In p folderPaths -> entries a !! p = Some Folder.
Proof.
  intros H. rewrite onSubmit_run in H.
  destruct (run (pendingAssets u) (mkState newZip d)) as [st|] eqn:R; [|discriminate].
  inversion H; subst a; clear H. cbn [entries].
  assert (NZ : forall p, In p folderPaths -> newZip !! p = Some Folder).
  { intros p Hin. unfold folderPaths in Hin.
    repeat (destruct Hin as [<-|Hin]; [vm_compute; reflexivity|]). destruct Hin. }
  intros p Hin. apply file_preserves.
  - intros ->. unfold folderPaths in Hin.
    repeat (destruct Hin as [Hin|Hin]; [discriminate Hin|]). destruct Hin.
  - apply (run_untouched _ _ _ _ _ R); [rewrite zip_mkState; now apply NZ|].
    intros x _ Hp. cbn [data] in Hp. now apply assetPath_not_folder in Hp.
Qed.

Lemma archive_folders_witness :
  exists a,
    onSubmit twoLogoFiles twoLogosKit = Some a
    /\ entries a !! "assets/logos/" = Some Folder
    /\ entries a !! "assets/gallery/" = Some Folder.
Proof.
  assert (E : exists a, onSubmit twoLogoFiles twoLogosKit = Some a)
    by (eexists; reflexivity).
  destruct E as [a E]. exists a. split; [exact E|].
  pose proof (archive_folders _ _ a E) as F.
  split; apply F; unfold folderPaths; cbn; tauto.
Defined.

Lemma onSubmit_throws_iff_witness :
  onSubmit twoLogoFiles
    (acmeKit exampleInfo "Primary" "PNG" "a.png" [] exampleTypography []) = None.
Proof.
  apply (proj2 (onSubmit_throws_iff _ _)).
  exists (LogoAsset 1 0 (mkFile "mono.png" [Byte.x02])).
  split; [cbn; tauto|reflexivity].
Defined.

End ExportSlotsFacts.

(** * Facts about uploads and removals *)

Section AssocFacts.
Import BrandForm ExportSpec ExportSlots Uploads.
Context {A : Type}.
Implicit Types (entries : list (nat * A)).

Lemma getKey_setKey key (value : A) entries key' :
  getKey key' (setKey key value entries)
  = if Nat.eqb key key' then Some value else getKey key' entries.
Proof.
  induction entries as [|[k v] rest IH]; cbn [setKey getKey].
  - reflexivity.
  - destruct (Nat.eqb_spec k key) as [->|Hk].
    + cbn [getKey]. destruct (Nat.eqb key key'); reflexivity.
    + destruct (Nat.ltb key k); cbn [getKey].
      * reflexivity.
      * rewrite IH. destruct (Nat.eqb_spec k key') as [->|Hk'].
        -- destruct (Nat.eqb_spec key key'); [congruence|reflexivity].
        -- reflexivity.
Qed.

Lemma ascending_weaken lo lo' keys : (lo' <= lo)%nat -> ascending lo keys -> ascending lo' keys.
Proof. destruct keys as [|k rest]; [auto|]. cbn. intros ? [? ?]. split; [lia|auto]. Qed.

Lemma ascending_In lo keys k : ascending lo keys -> In k keys -> (lo <= k)%nat.
Proof.
  revert lo. induction keys as [|k' rest IH]; intros lo H Hin; [destruct Hin|].
  destruct H as [H1 H2]. destruct Hin as [->|Hin]; [exact H1|].
  specialize (IH _ H2 Hin). lia.
Qed.

Lemma ascending_NoDup lo keys : ascending lo keys -> List.NoDup keys.
Proof.
  revert lo. induction keys as [|k rest IH]; intros lo H; [constructor|].
  destruct H as [_ H]. constructor; [|now apply (IH (S k))].
  intros Hin. pose proof (ascending_In _ _ _ H Hin). lia.
Qed.

Lemma setKey_ascending key (value : A) entries : forall lo,
  (lo <= key)%nat -> ascending lo (map fst entries) ->
  ascending lo (map fst (setKey key value entries)).
Proof.
  induction entries as [|[k v] rest IH]; intros lo Hlo H; cbn [setKey map fst ascending].
  - auto.
  - cbn [map fst ascending] in H. destruct H as [H1 H2].
    destruct (Nat.eqb_spec k key) as [->|Hk]; [cbn; auto|].
    destruct (Nat.ltb_spec key k); cbn [map fst ascending].
    + split; [exact Hlo|]. split; [lia|exact H2].
    + split; [exact H1|]. apply IH; [lia|exact H2].
Qed.

Lemma getKey_None key entries : getKey key entries = None <-> ~ In key (map fst entries).
Proof.
  induction entries as [|[k v] rest IH]; cbn [getKey map fst In]; [tauto|].
  destruct (Nat.eqb_spec k key) as [->|Hk]; [split; [discriminate|tauto]|].
  rewrite IH. tauto.
Qed.

Lemma getKey_In key (value : A) entries :
  List.NoDup (map fst entries) ->
  (In (key, value) entries <-> getKey key entries = Some value).
Proof.
  induction entries as [|[k v] rest IH]; intros ND; cbn [getKey In]; [split; [tauto|discriminate]|].
  cbn [map fst] in ND. apply List.NoDup_cons_iff in ND as [Hk ND].
  destruct (Nat.eqb_spec k key) as [->|Hne].
  - split.
    + intros [E|Hin]; [now inversion E|]. exfalso. apply Hk.
      now apply (in_map fst) in Hin.
    + intros E. inversion E. now left.
  - rewrite <- (IH ND). split; [intros [E|Hin]; [inversion E; congruence|exact Hin]|tauto].
Qed.

Lemma getKey_deleteKey key entries key' :
  getKey key' (deleteKey key entries)
  = if Nat.eqb key key' then None else getKey key' entries.
Proof.
  unfold deleteKey. induction entries as [|[k v] rest IH]; cbn [List.filter getKey fst].
  - now destruct (Nat.eqb key key').
  - destruct (Nat.eqb_spec k key) as [->|Hk]; cbn [negb getKey].
    + rewrite IH. destruct (Nat.eqb key key'); reflexivity.
    + rewrite IH. destruct (Nat.eqb_spec k key') as [->|Hk'].
      * destruct (Nat.eqb_spec key key'); [congruence|reflexivity].
      * reflexivity.
Qed.

Lemma deleteKey_ascending key entries : forall lo,
  ascending lo (map fst entries) -> ascending lo (map fst (deleteKey key entries)).
Proof.
  unfold deleteKey. induction entries as [|[k v] rest IH]; intros lo H; [exact H|].
  cbn [map fst ascending] in H. destruct H as [H1 H2]. cbn [List.filter fst].
  destruct (Nat.eqb k key); cbn [negb map fst ascending].
  - apply (ascending_weaken (S k)); [lia|]. now apply IH.
  - split; [exact H1|now apply IH].
Qed.

End AssocFacts.

Section UploadFacts.
Import BrandForm ExportSpec ExportSlots Uploads.

(** The file in a slot of an array with holes. *)
Lemma arraySet_lookup {A : Type} (index : nat) (x : A) (array : list (option A)) (j : nat) :
  match arraySet index x array !! j with
  | Some (Some y) => Some y
  | _ => None
  end
  = if Nat.eqb j index then Some x
    else match array !! j with
         | Some (Some y) => Some y
         | _ => None
         end.
Proof.
  unfold arraySet. destruct (Nat.ltb_spec index (List.length array)) as [Hlt|Hge].
  - destruct (Nat.eqb_spec j index) as [->|Hne].
    + now rewrite list_lookup_insert_eq.
    + now rewrite list_lookup_insert_ne by congruence.
  - destruct (Nat.eqb_spec j index) as [->|Hne].
    + rewrite lookup_app_r by lia. rewrite lookup_app_r by (rewrite length_replicate; lia).
      rewrite length_replicate. now replace (index - _ - _)%nat with 0%nat by lia.
    + destruct (Nat.lt_ge_cases j (List.length array)) as [Hj|Hj].
      * now rewrite lookup_app_l by lia.
      * rewrite lookup_app_r by lia. rewrite (lookup_ge_None_2 array j) by lia.
        destruct (Nat.lt_ge_cases (j - List.length array) (index - List.length array)) as [H1|H1].
        -- rewrite lookup_app_l by (rewrite length_replicate; lia).
           now rewrite lookup_replicate_2 by lia.
        -- rewrite lookup_app_r by (rewrite length_replicate; lia).
           rewrite length_replicate.
           destruct (j - List.length array - (index - List.length array))%nat as [|n] eqn:E;
             [lia|reflexivity].
Qed.

Lemma pendingLogo_uploadLogo u li vi f li' vi' :
  pendingLogo (uploadLogo li vi f u) li' vi'
  = if Nat.eqb li' li && Nat.eqb vi' vi then Some f else pendingLogo u li' vi'.
Proof.
  unfold pendingLogo, uploadLogo. cbv zeta. cbn [uploaded_logos].
  rewrite getKey_setKey. destruct (Nat.eqb_spec li li') as [<-|Hne].
  - rewrite Nat.eqb_refl. cbn [andb]. rewrite arraySet_lookup.
    destruct (Nat.eqb vi' vi); [reflexivity|].
    destruct (getKey li (uploaded_logos u)) as [files|] eqn:E.
    + now rewrite E.
    + rewrite getKey_setKey, Nat.eqb_refl. now destruct vi'.
  - destruct (Nat.eqb_spec li' li) as [->|_]; [congruence|]. cbn [andb].
    destruct (getKey li (uploaded_logos u)); [reflexivity|].
    rewrite getKey_setKey. destruct (Nat.eqb_spec li li'); [congruence|reflexivity].
Qed.

Lemma uploadLogo_ascending u li vi f : ascendingKeys u -> ascendingKeys (uploadLogo li vi f u).
Proof.
  intros (L & G & F). unfold ascendingKeys, uploadLogo. cbv zeta.
  cbn [uploaded_logos uploaded_gallery uploaded_fonts]. split; [|auto].
  apply setKey_ascending; [lia|].
  destruct (getKey li (uploaded_logos u)); [exact L|]. apply setKey_ascending; [lia|exact L].
Qed.

Lemma In_logoAssets files : forall li0 vi0 li vi f,
  In (LogoAsset li vi f) (logoAssets li0 vi0 files)
  <-> li = li0 /\ (vi0 <= vi)%nat /\ files !! (vi - vi0)%nat = Some (Some f).
Proof.
  induction files as [|[g|] rest IH]; intros li0 vi0 li vi f; cbn [logoAssets In].
  - split; [tauto|]. intros (_ & _ & H). discriminate.
  - rewrite IH. split.
    + intros [E|(-> & Hle & Hl)].
      * inversion E; subst. rewrite Nat.sub_diag. auto.
      * split; [reflexivity|]. split; [lia|].
        replace (vi - vi0)%nat with (S (vi - S vi0)) by lia. exact Hl.
    + intros (-> & Hle & Hl). destruct (Nat.eq_dec vi vi0) as [->|Hne].
      * rewrite Nat.sub_diag in Hl. cbn in Hl. left. congruence.
      * right. split; [reflexivity|]. split; [lia|].
        replace (vi - vi0)%nat with (S (vi - S vi0)) in Hl by lia. exact Hl.
  - rewrite IH. split.
    + intros (-> & Hle & Hl). split; [reflexivity|]. split; [lia|].
      replace (vi - vi0)%nat with (S (vi - S vi0)) by lia. exact Hl.
    + intros (-> & Hle & Hl). destruct (Nat.eq_dec vi vi0) as [->|Hne].
      * rewrite Nat.sub_diag in Hl. discriminate.
      * split; [reflexivity|]. split; [lia|].
        replace (vi - vi0)%nat with (S (vi - S vi0)) in Hl by lia. exact Hl.
Qed.

Lemma logoAssets_kind files : forall li0 vi0 x,
  In x (logoAssets li0 vi0 files) -> exists vi f, x = LogoAsset li0 vi f.
Proof.
  induction files as [|[g|] rest IH]; intros li0 vi0 x; cbn [logoAssets In]; [tauto| |apply IH].
  intros [<-|Hx]; [eauto|]. now apply IH in Hx.
Qed.

Lemma In_allLogoAssets entries x :
  In x (allLogoAssets entries) <->
  exists li vi f files, x = LogoAsset li vi f /\ In (li, files) entries
                        /\ files !! vi = Some (Some f).
Proof.
  unfold allLogoAssets. rewrite in_flat_map. split.
  - intros ([li0 files] & Hin & Hx). cbn [fst snd] in Hx.
    destruct (logoAssets_kind _ _ _ _ Hx) as (vi & f & ->).
    apply In_logoAssets in Hx as (_ & _ & Hl). rewrite Nat.sub_0_r in Hl.
    exists li0, vi, f, files. auto.
  - intros (li & vi & f & files & -> & Hin & Hl). exists (li, files). split; [exact Hin|].
    cbn [fst snd]. apply In_logoAssets. rewrite Nat.sub_0_r. split; [reflexivity|]. split; [lia|auto].
Qed.

Lemma In_pending_logo u li vi f :
  List.NoDup (map fst (uploaded_logos u)) ->
  (In (LogoAsset li vi f) (pendingAssets u) <-> pendingLogo u li vi = Some f).
Proof.
  intros ND. unfold pendingAssets, pendingLogo. rewrite !in_app_iff, In_allLogoAssets.
  split.
  - intros [(li' & vi' & f' & files & E & Hin & Hl)|[H|H]].
    + inversion E; subst. apply (getKey_In _ _ _ ND) in Hin. now rewrite Hin, Hl.
    + unfold allGalleryAssets in H. apply in_map_iff in H as (? & ? & _). discriminate.
    + unfold allFontAssets in H. apply in_flat_map in H as (? & _ & H).
      apply in_map_iff in H as (? & ? & _). discriminate.
  - intros H. left. destruct (getKey li (uploaded_logos u)) as [files|] eqn:E; [|discriminate].
    destruct (files !! vi) as [[g|]|] eqn:El; try discriminate. inversion H; subst.
    exists li, vi, f, files. split; [reflexivity|]. split; [|exact El].
    now apply (getKey_In _ _ _ ND).
Qed.

Lemma In_pending_gallery u gi f :
  List.NoDup (map fst (uploaded_gallery u)) ->
  (In (GalleryAsset gi f) (pendingAssets u) <-> pendingGallery u gi = Some f).
Proof.
  intros ND. unfold pendingAssets, pendingGallery. rewrite !in_app_iff, In_allLogoAssets.
  rewrite <- (getKey_In _ _ _ ND). split.
  - intros [(li' & vi' & f' & files & E & _)|[H|H]]; [discriminate| |].
    + unfold allGalleryAssets in H. apply in_map_iff in H as ([k v] & E & Hin).
      cbn [fst snd] in E. now inversion E; subst.
    + unfold allFontAssets in H. apply in_flat_map in H as (? & _ & H).
      apply in_map_iff in H as (? & ? & _). discriminate.
  - intros H. right. left. unfold allGalleryAssets. apply in_map_iff.
    exists (gi, f). auto.
Qed.

Lemma In_pending_other u u' x :
  uploaded_gallery u' = uploaded_gallery u -> uploaded_fonts u' = uploaded_fonts u ->
  (forall li vi f, x <> LogoAsset li vi f) ->
  (In x (pendingAssets u') <-> In x (pendingAssets u)).
Proof.
  intros G F N. unfold pendingAssets. rewrite !in_app_iff, !In_allLogoAssets, G, F.
  split; (intros [(li & vi & f & files & E & _)|H]; [now apply N in E|now right]).
Qed.

Lemma onSubmit_None_iff u d :
  onSubmit u d = None <-> exists x, In x (pendingAssets u) /\ slotExists d x = false.
Proof.
  rewrite onSubmit_run, <- (run_None (pendingAssets u) (mkState newZip d)).
  destruct (run (pendingAssets u) (mkState newZip d)); split; congruence.
Qed.

Lemma slotsExist_iff u d : slotsExist d u <-> onSubmit u d <> None.
Proof.
  rewrite onSubmit_None_iff. unfold slotsExist. split.
  - intros H (x & Hx & E). rewrite (H x Hx) in E. discriminate.
  - intros H x Hx. destruct (slotExists d x) eqn:E; [reflexivity|].
    exfalso. apply H. eauto.
Qed.

Lemma ascendingKeys_NoDup u : ascendingKeys u ->
  List.NoDup (map fst (uploaded_logos u)) /\ List.NoDup (map fst (uploaded_gallery u))
  /\ List.NoDup (map fst (uploaded_fonts u)).
Proof. intros (L & G & F). repeat split; eapply ascending_NoDup; eassumption. Qed.

(** What the export gives for the pending assets of a state whose slots
    are all in the document. *)
Lemma export_of_slots u d :
  ascendingKeys u -> slotsExist d u ->
  exists a, onSubmit u d = Some a
    /\ (forall li vi f, In (LogoAsset li vi f) (pendingAssets u) ->
        exists p, assetPath d (LogoAsset li vi f) = Some p
          /\ variantSrc (document a) li vi = Some (String "/" p)
          /\ exists g, entries a !! p = Some (Blob g))
    /\ (forall gi f, In (GalleryAsset gi f) (pendingAssets u) ->
        exists p, assetPath d (GalleryAsset gi f) = Some p
          /\ gallerySrc (document a) gi = Some (String "/" p)
          /\ exists g, entries a !! p = Some (Blob g))
    /\ (forall fi f, In (FontAsset fi f) (pendingAssets u) ->
        exists p, assetPath d (FontAsset fi f) = Some p
          /\ exists g, entries a !! p = Some (Blob g))
    /\ sameFrame d (document a).
Proof.
  intros Asc S. destruct (ascendingKeys_NoDup u Asc) as (NL & NG & _).
  apply slotsExist_iff in S. rewrite onSubmit_run in *.
  destruct (run (pendingAssets u) (mkState newZip d)) as [st|] eqn:R; [|congruence].
  eexists. split; [reflexivity|]. cbn [document entries].
  assert (K : forall x, In x (pendingAssets u) ->
            exists p, assetPath d x = Some p
              /\ exists g, file "" "data.json" (Json (data st)) (zip st) !! p = Some (Blob g)).
  { intros x Hx. destruct (run_entries _ _ _ R x Hx) as (p & g & Ep & Hp).
    cbn [data] in Ep. exists p. split; [exact Ep|]. exists g.
    apply file_preserves; [|exact Hp]. exact (proj2 (assetPath_folder _ _ _ Ep)). }
  split; [|split; [|split]].
  - intros li vi f Hin.
    destruct (run_variantSrc _ _ _ li vi f R (pending_logoSlots_NoDup u NL) Hin)
      as (p & Ep & Hs).
    cbn [data] in Ep. exists p. split; [exact Ep|]. split; [exact Hs|].
    destruct (K _ Hin) as (p' & Ep' & Hg). rewrite Ep in Ep'. now inversion Ep'; subst.
  - intros gi f Hin.
    destruct (run_gallerySrc _ _ _ gi f R (pending_gallerySlots_NoDup u NG) Hin)
      as (p & Ep & Hs).
    cbn [data] in Ep. exists p. split; [exact Ep|]. split; [exact Hs|].
    destruct (K _ Hin) as (p' & Ep' & Hg). rewrite Ep in Ep'. now inversion Ep'; subst.
  - intros fi f Hin. exact (K _ Hin).
  - exact (run_frame _ _ _ R).
Qed.

Lemma slotsExist_uploadLogo u d li vi f logo :
  ascendingKeys u -> slotsExist d u ->
  logos d !! li = Some logo -> (vi < List.length (logo_variants logo))%nat ->
  slotsExist d (uploadLogo li vi f u).
Proof.
  intros Asc S Hl Hv x Hx.
  destruct (ascendingKeys_NoDup u Asc) as (NL & _).
  destruct (ascendingKeys_NoDup _ (uploadLogo_ascending u li vi f Asc)) as (NL' & _).
  destruct x as [li' vi' g|gi g|fi g].
  - apply (In_pending_logo _ _ _ _ NL') in Hx. rewrite pendingLogo_uploadLogo in Hx.
    destruct (Nat.eqb_spec li' li) as [->|Hne]; cbn [andb] in Hx.
    + destruct (Nat.eqb_spec vi' vi) as [->|Hne].
      * cbn [slotExists]. rewrite Hl.
        destruct (lookup_lt_is_Some_2 _ _ Hv) as [v ->]. reflexivity.
      * apply S. now apply (In_pending_logo _ _ _ _ NL).
    + apply S. now apply (In_pending_logo _ _ _ _ NL).
  - apply S. now apply (In_pending_other u (uploadLogo li vi f u)) in Hx.
  - apply S. now apply (In_pending_other u (uploadLogo li vi f u)) in Hx.
Qed.

(** Uploading a file for a logo variant makes it the pending file of that
    slot, whatever was pending there, and changes no other pending asset;
    the keys of the state stay in ascending order. *)
Theorem uploadLogo_pending (u : UploadedFiles) (li vi : nat) (f : File) :
  ascendingKeys u ->
  ascendingKeys (uploadLogo li vi f u)
  /\ pendingLogo (uploadLogo li vi f u) li vi = Some f
  /\ (forall li' vi', (li', vi') <> (li, vi) ->
        pendingLogo (uploadLogo li vi f u) li' vi' = pendingLogo u li' vi')
  /\ (forall x, In x (pendingAssets (uploadLogo li vi f u)) <->
        x = LogoAsset li vi f
        \/ (In x (pendingAssets u) /\ forall g, x <> LogoAsset li vi g)).
Proof.
  intros Asc. pose proof (uploadLogo_ascending u li vi f Asc) as Asc'.
  destruct (ascendingKeys_NoDup u Asc) as (NL & _).
  destruct (ascendingKeys_NoDup _ Asc') as (NL' & _).
  split; [exact Asc'|]. split; [|split].
  - rewrite pendingLogo_uploadLogo, !Nat.eqb_refl. reflexivity.
  - intros li' vi' Hne. rewrite pendingLogo_uploadLogo.
    destruct (Nat.eqb_spec li' li) as [->|]; [|reflexivity].
    destruct (Nat.eqb_spec vi' vi) as [->|]; [congruence|reflexivity].
  - intros x. destruct x as [li' vi' g|gi g|fi g].
    + rewrite (In_pending_logo _ _ _ _ NL'), (In_pending_logo _ _ _ _ NL),
        pendingLogo_uploadLogo.
      destruct (Nat.eqb_spec li' li) as [->|Hl]; cbn [andb].
      * destruct (Nat.eqb_spec vi' vi) as [->|Hv].
        -- split; [intros E; left; congruence|].
           intros [E|[_ N]]; [congruence|]. now specialize (N g).
        -- split; [intros H; right; split; [exact H|congruence]|].
           intros [E|[H _]]; [congruence|exact H].
      * split; [intros H; right; split; [exact H|congruence]|].
        intros [E|[H _]]; [congruence|exact H].
    + rewrite (In_pending_other u (uploadLogo li vi f u)) by (reflexivity || discriminate).
      split; [intros H; right; split; [exact H|discriminate]|].
      intros [E|[H _]]; [discriminate|exact H].
    + rewrite (In_pending_other u (uploadLogo li vi f u)) by (reflexivity || discriminate).
      split; [intros H; right; split; [exact H|discriminate]|].
      intros [E|[H _]]; [discriminate|exact H].
Qed.

Lemma uploadLogo_pending_witness :
  ascendingKeys noFiles
  /\ uploadLogo 0 2 (mkFile "c.svg" []) (uploadLogo 1 0 (mkFile "b.png" []) noFiles)
     = mkUploadedFiles [(0%nat, [None; None; Some (mkFile "c.svg" [])]);
                        (1%nat, [Some (mkFile "b.png" [])])] [] []
  /\ pendingLogo
       (uploadLogo 0 2 (mkFile "c.svg" []) (uploadLogo 1 0 (mkFile "b.png" []) noFiles)) 0 2
     = Some (mkFile "c.svg" []).
Proof.
  assert (H : ascendingKeys noFiles) by (unfold ascendingKeys, noFiles; cbn; tauto).
  split; [exact H|]. split; [reflexivity|].
  refine (proj1 (proj2 (uploadLogo_pending _ 0 2 (mkFile "c.svg" []) _))).
  exact (proj1 (uploadLogo_pending _ 1 0 (mkFile "b.png" []) H)).
Defined.

(** If the export completes for a state, it completes after a file is
    uploaded for a variant that the document has: the archive then has an
    entry at [assets/logos/] followed by the slug of the logo's name, the
    variant's position and the file's extension, and the variant's [src]
    is that path after a slash. *)
Theorem uploadLogo_then_export (u : UploadedFiles) (d : BrandData) (li vi : nat)
    (f : File) (logo : Logo) :
  ascendingKeys u -> onSubmit u d <> None ->
  logos d !! li = Some logo -> (vi < List.length (logo_variants logo))%nat ->
  exists a, onSubmit (uploadLogo li vi f u) d = Some a
    /\ variantSrc (document a) li vi
       = Some ("/assets/logos/" ++ logoFilename (logo_name logo) vi f)
    /\ exists g, entries a !! ("assets/logos/" ++ logoFilename (logo_name logo) vi f)
                 = Some (Blob g).
Proof.
  intros Asc S Hl Hv. apply slotsExist_iff in S.
  pose proof (uploadLogo_ascending u li vi f Asc) as Asc'.
  pose proof (slotsExist_uploadLogo u d li vi f logo Asc S Hl Hv) as S'.
  destruct (export_of_slots _ d Asc' S') as (a & E & L & _).
  exists a. split; [exact E|].
  destruct (ascendingKeys_NoDup _ Asc') as (NL' & _).
  destruct (L li vi f) as (p & Ep & Hs & Hg).
  { apply (In_pending_logo _ _ _ _ NL'). rewrite pendingLogo_uploadLogo, !Nat.eqb_refl.
    reflexivity. }
  unfold assetPath, assetFilename in Ep. rewrite Hl in Ep. cbn [assetFolder] in Ep.
  inversion Ep; subst p. split; [exact Hs|exact Hg].
Qed.

Lemma uploadLogo_then_export_witness :
  exists a,
    onSubmit (uploadLogo 0 0 (mkFile "raw.PNG" [Byte.x01]) noFiles)
      (acmeKit exampleInfo "Primary" "PNG" "a.png" [] exampleTypography []) = Some a
    /\ variantSrc (document a) 0 0 = Some "/assets/logos/acme-1.PNG".
Proof.
  destruct (uploadLogo_then_export noFiles
              (acmeKit exampleInfo "Primary" "PNG" "a.png" [] exampleTypography [])
              0 0 (mkFile "raw.PNG" [Byte.x01])
              (mkLogo "Acme" "Primary" [mkLogoVariant "PNG" "a.png"]))
    as (a & E & Hs & _).
  - unfold ascendingKeys, noFiles; cbn; tauto.
  - discriminate.
  - reflexivity.
  - cbn; lia.
  - exists a. split; [exact E|exact Hs].
Defined.

Lemma filterIndex_delete {A : Type} (vi : nat) (l : list A) : forall n,
  filterIndex (fun i => negb (Nat.eqb i vi)) n l
  = if Nat.ltb vi n then l else delete (vi - n)%nat l.
Proof.
  induction l as [|x rest IH]; intros n; cbn [filterIndex].
  - now destruct (Nat.ltb vi n).
  - rewrite IH. destruct (Nat.eqb_spec n vi) as [->|Hne]; cbn [negb].
    + rewrite Nat.sub_diag. destruct (Nat.ltb_spec vi (S vi)); [|lia].
      destruct (Nat.ltb_spec vi vi); [lia|]. reflexivity.
    + destruct (Nat.ltb_spec vi n), (Nat.ltb_spec vi (S n)); try lia; [reflexivity|].
      replace (vi - n)%nat with (S (vi - S n)) by lia. reflexivity.
Qed.

Lemma filterIndexSparse_dense {A : Type} (keep : nat -> bool) (fs : list A) : forall n,
  filterIndexSparse keep n (map Some fs) = map Some (filterIndex keep n fs).
Proof.
  induction fs as [|x rest IH]; intros n; cbn [map filterIndexSparse filterIndex]; [reflexivity|].
  rewrite IH. now destruct (keep n).
Qed.

Lemma filterIndexSparse_full {A : Type} (keep : nat -> bool) (files : list (option A)) :
  forall n j, (j < List.length (filterIndexSparse keep n files))%nat ->
  exists g, filterIndexSparse keep n files !! j = Some (Some g).
Proof.
  induction files as [|[x|] rest IH]; intros n j; cbn [filterIndexSparse].
  - cbn. lia.
  - destruct (keep n); [|apply IH]. destruct j as [|j]; [eauto|].
    cbn [List.length]. intros H. apply IH. lia.
  - apply IH.
Qed.

Lemma filterIndexSparse_length {A : Type} (vi n : nat) (files : list (option A)) :
  forall i0, (vi < n)%nat ->
  (forall j f, files !! j = Some (Some f) -> (i0 + j < n)%nat) ->
  (List.length (filterIndexSparse (fun i => negb (Nat.eqb i vi)) i0 files)
   <= (n - i0) - (if Nat.leb i0 vi then 1 else 0))%nat.
Proof.
  induction files as [|[x|] rest IH]; intros i0 Hvi H; cbn [filterIndexSparse List.length].
  - lia.
  - assert (Hi : (i0 < n)%nat) by (specialize (H 0%nat x eq_refl); lia).
    assert (Hr : forall j f, rest !! j = Some (Some f) -> (S i0 + j < n)%nat).
    { intros j f Hj. specialize (H (S j) f Hj). lia. }
    specialize (IH (S i0) Hvi Hr).
    destruct (Nat.eqb_spec i0 vi) as [->|Hne]; cbn [negb List.length].
    + destruct (Nat.leb_spec (S vi) vi); [lia|]. destruct (Nat.leb_spec vi vi); lia.
    + destruct (Nat.leb_spec (S i0) vi), (Nat.leb_spec i0 vi); lia.
  - assert (Hr : forall j f, rest !! j = Some (Some f) -> (S i0 + j < n)%nat).
    { intros j f Hj. specialize (H (S j) f Hj). lia. }
    specialize (IH (S i0) Hvi Hr).
    destruct (Nat.leb_spec (S i0) vi), (Nat.leb_spec i0 vi); lia.
Qed.

Lemma slotExists_logo d li vi f logo :
  logos d !! li = Some logo ->
  slotExists d (LogoAsset li vi f) = true <-> (vi < List.length (logo_variants logo))%nat.
Proof.
  intros Hl. cbn [slotExists]. rewrite Hl. split.
  - destruct (logo_variants logo !! vi) eqn:E; [|discriminate].
    intros _. now apply lookup_lt_Some in E.
  - intros H. now destruct (lookup_lt_is_Some_2 _ _ H) as [v ->].
Qed.

(** Remove Variant does not break the export: if the export completes for
    the form, it also completes once a variant is removed, whatever files
    are pending; the logo is left with one variant less. *)
Theorem removeVariant_keeps_export (s : Form) (li vi : nat) (logo : Logo) :
  ascendingKeys (uploadedFiles s) ->
  onSubmit (uploadedFiles s) (values s) <> None ->
  logos (values s) !! li = Some logo -> (vi < List.length (logo_variants logo))%nat ->
  exists s' logo',
    removeVariant li vi s = Some s'
    /\ ascendingKeys (uploadedFiles s')
    /\ onSubmit (uploadedFiles s') (values s') <> None
    /\ logos (values s') !! li = Some logo'
    /\ logo_variants logo' = delete vi (logo_variants logo).
Proof.
  intros Asc S Hl Hv. apply slotsExist_iff in S.
  destruct (ascendingKeys_NoDup _ Asc) as (NL & _). destruct Asc as (AL & AG & AF).
  unfold removeVariant. rewrite Hl. cbv zeta.
  rewrite filterIndex_delete. cbn [Nat.ltb Nat.leb]. rewrite Nat.sub_0_r.
  set (keep := fun i => negb (Nat.eqb i vi)).
  set (newLogos := match getKey li (uploaded_logos (uploadedFiles s)) with
                   | Some files => setKey li (filterIndexSparse keep 0 files)
                                     (uploaded_logos (uploadedFiles s))
                   | None => uploaded_logos (uploadedFiles s)
                   end).
  assert (Asc' : ascendingKeys (mkUploadedFiles newLogos (uploaded_gallery (uploadedFiles s))
                                  (uploaded_fonts (uploadedFiles s)))).
  { unfold ascendingKeys. cbn [uploaded_logos uploaded_gallery uploaded_fonts].
    split; [|auto]. subst newLogos.
    destruct (getKey li _); [apply setKey_ascending; [lia|exact AL]|exact AL]. }
  destruct (ascendingKeys_NoDup _ Asc') as (NL' & _).
  assert (Hli : (li < List.length (logos (values s)))%nat) by now apply lookup_lt_Some in Hl.
  eexists _, (setLogoVariants (delete vi (logo_variants logo)) logo).
  split; [reflexivity|]. cbn [uploadedFiles values].
  split; [exact Asc'|]. split; [|split; [|reflexivity]].
  2:{ unfold setLogos. cbn [logos]. now apply list_lookup_insert_eq. }
  apply slotsExist_iff. intros x Hx.
  destruct x as [li' vi' g|gi g|fi g].
  - apply (In_pending_logo _ _ _ _ NL') in Hx. unfold pendingLogo in Hx.
    cbn [uploaded_logos] in Hx. subst newLogos.
    destruct (Nat.eq_dec li' li) as [->|Hne].
    + destruct (getKey li (uploaded_logos (uploadedFiles s))) as [files|] eqn:Ef.
      * rewrite getKey_setKey, Nat.eqb_refl in Hx.
        destruct (filterIndexSparse keep 0 files !! vi') as [[g'|]|] eqn:El; try discriminate.
        apply lookup_lt_Some in El.
        pose proof (filterIndexSparse_length vi (List.length (logo_variants logo)) files
                      0 Hv) as B.
        cbn [Nat.leb] in B. fold keep in B.
        assert (Hb : forall j f0, files !! j = Some (Some f0) ->
                     (0 + j < List.length (logo_variants logo))%nat).
        { intros j f0 Hj. cbn [Nat.add].
          apply (slotExists_logo (values s) li j f0 logo Hl). apply S.
          apply (In_pending_logo _ _ _ _ NL). unfold pendingLogo. now rewrite Ef, Hj. }
        specialize (B Hb).
        cbn [slotExists]. unfold setLogos. cbn [logos].
        rewrite list_lookup_insert_eq by exact Hli. cbn [setLogoVariants logo_variants].
        assert (Hd : (vi' < List.length (delete vi (logo_variants logo)))%nat).
        { rewrite length_delete by (now apply lookup_lt_is_Some_2). lia. }
        now destruct (lookup_lt_is_Some_2 _ _ Hd) as [v ->].
      * rewrite Ef in Hx. discriminate.
    + assert (Hx' : pendingLogo (uploadedFiles s) li' vi' = Some g).
      { unfold pendingLogo. destruct (getKey li (uploaded_logos (uploadedFiles s))); [|exact Hx].
        rewrite getKey_setKey in Hx. destruct (Nat.eqb_spec li li'); [congruence|exact Hx]. }
      apply (In_pending_logo _ _ _ _ NL) in Hx'. specialize (S _ Hx').
      cbn [slotExists] in *. unfold setLogos. cbn [logos].
      now rewrite list_lookup_insert_ne by congruence.
  - apply (In_pending_other (uploadedFiles s)) in Hx; [|reflexivity|reflexivity|discriminate].
    exact (S _ Hx).
  - apply (In_pending_other (uploadedFiles s)) in Hx; [|reflexivity|reflexivity|discriminate].
    exact (S _ Hx).
Qed.

Lemma removeVariant_keeps_export_witness :
  exists s',
    removeVariant 0 1
      (mkForm (mkBrandData exampleInfo
                 [mkLogo "Acme" "Primary" [mkLogoVariant "SVG" "a.svg"; mkLogoVariant "PNG" "a.png"]]
                 [] exampleTypography [])
         (uploadLogo 0 1 (mkFile "a.png" []) noFiles)) = Some s'
    /\ uploadedFiles s' = mkUploadedFiles [(0%nat, [])] [] []
    /\ onSubmit (uploadedFiles s') (values s') <> None.
Proof.
  destruct (removeVariant_keeps_export
              (mkForm (mkBrandData exampleInfo
                 [mkLogo "Acme" "Primary" [mkLogoVariant "SVG" "a.svg"; mkLogoVariant "PNG" "a.png"]]
                 [] exampleTypography [])
                 (uploadLogo 0 1 (mkFile "a.png" []) noFiles)) 0 1
              (mkLogo "Acme" "Primary" [mkLogoVariant "SVG" "a.svg"; mkLogoVariant "PNG" "a.png"]))
    as (s' & logo' & E & _ & S & _).
  - unfold ascendingKeys; cbn; lia.
  - discriminate.
  - reflexivity.
  - cbn; lia.
  - exists s'. split; [exact E|]. split; [|exact S].
    cbv in E. inversion E. reflexivity.
Defined.

(** When the files of a logo have no hole (every variant up to the last
    pending file has one), Remove Variant keeps each remaining variant
    with its file: the variants and the files after the removed position
    both move down by one. *)
Theorem removeVariant_keeps_files (s s' : Form) (li vi : nat) (logo : Logo)
    (fs : list File) :
  logos (values s) !! li = Some logo ->
  getKey li (uploaded_logos (uploadedFiles s)) = Some (map Some fs) ->
  removeVariant li vi s = Some s' ->
  exists logo',
    logos (values s') !! li = Some logo'
    /\ forall j,
         logo_variants logo' !! j
         = logo_variants logo !! (if Nat.ltb j vi then j else S j)
         /\ pendingLogo (uploadedFiles s') li j
            = pendingLogo (uploadedFiles s) li (if Nat.ltb j vi then j else S j).
Proof.
  intros Hl Hf E. unfold removeVariant in E. rewrite Hl, Hf in E. cbv zeta in E.
  rewrite filterIndexSparse_dense, !filterIndex_delete in E.
  change (Nat.ltb vi 0) with false in E. cbv iota in E.
  rewrite Nat.sub_0_r in E. inversion E; subst s'; clear E.
  cbn [values uploadedFiles].
  exists (setLogoVariants (delete vi (logo_variants logo)) logo). split.
  - unfold setLogos. cbn [logos]. apply list_lookup_insert_eq. now apply lookup_lt_Some in Hl.
  - intros j. cbn [setLogoVariants logo_variants]. unfold pendingLogo. cbn [uploaded_logos].
    rewrite getKey_setKey, Nat.eqb_refl, Hf, !list_lookup_fmap.
    destruct (Nat.ltb_spec j vi).
    + now rewrite !list_lookup_delete_lt by lia.
    + now rewrite !list_lookup_delete_ge by lia.
Qed.

Lemma removeVariant_keeps_files_witness :
  exists s',
    removeVariant 0 0
      (mkForm (mkBrandData exampleInfo
                 [mkLogo "Acme" "Primary" [mkLogoVariant "SVG" "a.svg"; mkLogoVariant "PNG" "a.png"]]
                 [] exampleTypography [])
         (uploadLogo 0 1 (mkFile "a.png" []) (uploadLogo 0 0 (mkFile "a.svg" []) noFiles)))
    = Some s'
    /\ pendingLogo (uploadedFiles s') 0 0 = Some (mkFile "a.png" []).
Proof.
  eexists. split; [reflexivity|].
  destruct (removeVariant_keeps_files
              (mkForm (mkBrandData exampleInfo
                 [mkLogo "Acme" "Primary" [mkLogoVariant "SVG" "a.svg"; mkLogoVariant "PNG" "a.png"]]
                 [] exampleTypography [])
                 (uploadLogo 0 1 (mkFile "a.png" []) (uploadLogo 0 0 (mkFile "a.svg" []) noFiles)))
              _ 0 0
              (mkLogo "Acme" "Primary" [mkLogoVariant "SVG" "a.svg"; mkLogoVariant "PNG" "a.png"])
              [mkFile "a.svg" []; mkFile "a.png" []] eq_refl eq_refl eq_refl)
    as (logo' & _ & H).
  exact (proj2 (H 0%nat)).
Defined.

(** With a hole among the files the same handler moves a file to another
    variant: the file uploaded for the second of three variants is pending
    for the first once the third is removed. *)
Lemma removeVariant_hole_example :
  exists s',
    removeVariant 0 2
      (mkForm (mkBrandData exampleInfo
                 [mkLogo "Acme" "Primary"
                    [mkLogoVariant "SVG" "a.svg"; mkLogoVariant "PNG" "a.png";
                     mkLogoVariant "JPG" "a.jpg"]]
                 [] exampleTypography [])
         (uploadLogo 0 1 (mkFile "a.png" []) noFiles)) = Some s'
    /\ pendingLogo (uploadedFiles s') 0 0 = Some (mkFile "a.png" [])
    /\ pendingLogo (uploadedFiles s') 0 1 = None.
Proof. eexists. split; [reflexivity|]. split; reflexivity. Qed.

Lemma In_pending u x :
  In x (pendingAssets u) <->
  match x with
  | LogoAsset li vi f =>
      exists files, In (li, files) (uploaded_logos u) /\ files !! vi = Some (Some f)
  | GalleryAsset gi f => In (gi, f) (uploaded_gallery u)
  | FontAsset fi f => exists files, In (fi, files) (uploaded_fonts u) /\ In f files
  end.
Proof.
  unfold pendingAssets. rewrite !in_app_iff, In_allLogoAssets.
  unfold allGalleryAssets, allFontAssets. rewrite in_map_iff, in_flat_map.
  destruct x as [li vi f|gi f|fi f].
  - split.
    + intros [(li' & vi' & f' & files & E & Hin & Hl)|[(e & E & _)|(e & _ & H)]].
      * inversion E; subst. eauto.
      * discriminate.
      * apply in_map_iff in H as (? & ? & _). discriminate.
    + intros (files & Hin & Hl). left. exists li, vi, f, files. auto.
  - split.
    + intros [(li' & vi' & f' & files & E & _)|[([k v] & E & Hin)|(e & _ & H)]].
      * discriminate.
      * cbn [fst snd] in E. now inversion E; subst.
      * apply in_map_iff in H as (? & ? & _). discriminate.
    + intros H. right. left. exists (gi, f). auto.
  - split.
    + intros [(li' & vi' & f' & files & E & _)|[(e & E & _)|([k files] & Hin & H)]].
      * discriminate.
      * discriminate.
      * cbn [fst snd] in H. apply in_map_iff in H as (f' & E & Hf). inversion E; subst.
        eauto.
    + intros (files & Hin & Hf). right. right. exists (fi, files). split; [exact Hin|].
      cbn [fst snd]. now apply in_map.
Qed.

Lemma slotExists_gallery_app d items x :
  slotExists d x = true -> slotExists (setGallery (gallery d ++ items) d) x = true.
Proof.
  destruct x as [li vi f|gi f|fi f]; cbn [slotExists setGallery logos gallery typography];
    [auto| |auto].
  destruct (gallery d !! gi) eqn:E; [|discriminate]. intros _.
  now rewrite (lookup_app_l_Some _ _ _ _ E).
Qed.

Lemma uploadGalleryFile_facts f s :
  ascendingKeys (uploadedFiles s) -> slotsExist (values s) (uploadedFiles s) ->
  ascendingKeys (uploadedFiles (uploadGalleryFile f s))
  /\ slotsExist (values (uploadGalleryFile f s)) (uploadedFiles (uploadGalleryFile f s))
  /\ gallery (values (uploadGalleryFile f s))
     = (gallery (values s)
        ++ [mkGalleryItem (Some "") ("/assets/gallery/" ++ file_name f)])%list
  /\ forall k, pendingGallery (uploadedFiles (uploadGalleryFile f s)) k
               = if Nat.eqb (List.length (gallery (values s))) k then Some f
                 else pendingGallery (uploadedFiles s) k.
Proof.
  intros (AL & AG & AF) S. unfold uploadGalleryFile. cbv zeta. cbn [values uploadedFiles].
  assert (Asc' : ascendingKeys
                   (mkUploadedFiles (uploaded_logos (uploadedFiles s))
                      (setKey (List.length (gallery (values s))) f
                         (uploaded_gallery (uploadedFiles s)))
                      (uploaded_fonts (uploadedFiles s)))).
  { unfold ascendingKeys. cbn [uploaded_logos uploaded_gallery uploaded_fonts].
    split; [exact AL|]. split; [|exact AF]. apply setKey_ascending; [lia|exact AG]. }
  split; [exact Asc'|]. split; [|split].
  - intros x Hx. apply In_pending in Hx. cbn [uploaded_logos uploaded_gallery uploaded_fonts] in Hx.
    destruct x as [li vi g|gi g|fi g].
    + apply slotExists_gallery_app. apply S. now apply In_pending.
    + destruct (ascendingKeys_NoDup _ Asc') as (_ & NG' & _).
      cbn [uploaded_gallery] in NG'. apply (getKey_In _ _ _ NG') in Hx.
      rewrite getKey_setKey in Hx.
      destruct (Nat.eqb_spec (List.length (gallery (values s))) gi) as [<-|Hne].
      * cbn [slotExists setGallery gallery].
        rewrite lookup_app_r by lia. now rewrite Nat.sub_diag.
      * apply slotExists_gallery_app. apply S. apply In_pending.
        apply getKey_In; [|exact Hx]. exact (ascending_NoDup _ _ AG).
    + apply slotExists_gallery_app. apply S. now apply In_pending.
  - reflexivity.
  - intros k. unfold pendingGallery. cbn [uploaded_gallery]. apply getKey_setKey.
Qed.

Lemma uploadGallery_facts files : forall s,
  ascendingKeys (uploadedFiles s) -> slotsExist (values s) (uploadedFiles s) ->
  ascendingKeys (uploadedFiles (uploadGallery files s))
  /\ slotsExist (values (uploadGallery files s)) (uploadedFiles (uploadGallery files s))
  /\ List.length (gallery (values (uploadGallery files s)))
     = (List.length (gallery (values s)) + List.length files)%nat
  /\ (forall k, (k < List.length (gallery (values s)))%nat ->
        pendingGallery (uploadedFiles (uploadGallery files s)) k
        = pendingGallery (uploadedFiles s) k)
  /\ (forall i f, files !! i = Some f ->
        pendingGallery (uploadedFiles (uploadGallery files s))
          (List.length (gallery (values s)) + i)%nat = Some f).
Proof.
  induction files as [|f0 rest IH]; intros s Asc HS.
  - unfold uploadGallery. cbn [fold_left List.length].
    split; [exact Asc|]. split; [exact HS|]. split; [lia|]. split; [reflexivity|].
    intros i f H. discriminate.
  - change (uploadGallery (f0 :: rest) s) with (uploadGallery rest (uploadGalleryFile f0 s)).
    destruct (uploadGalleryFile_facts f0 s Asc HS) as (Asc1 & S1 & G1 & P1).
    destruct (IH _ Asc1 S1) as (Asc2 & S2 & L2 & K2 & N2).
    rewrite G1, length_app in L2, K2, N2. cbn [List.length] in L2, K2, N2.
    split; [exact Asc2|]. split; [exact S2|]. split; [cbn [List.length]; lia|]. split.
    + intros k Hk. rewrite K2 by lia. rewrite P1.
      destruct (Nat.eqb_spec (List.length (gallery (values s))) k); [lia|reflexivity].
    + intros [|i] f Hf.
      * cbn in Hf. inversion Hf; subst f0. rewrite Nat.add_0_r, K2 by lia.
        now rewrite P1, Nat.eqb_refl.
      * cbn in Hf. specialize (N2 i f Hf).
        replace (List.length (gallery (values s)) + S i)%nat
          with (List.length (gallery (values s)) + 1 + i)%nat by lia.
        exact N2.
Qed.

(** Uploading files to the gallery adds one item per file after the items
    that were there, and the file of each new item is pending under that
    item's position.  If the export completed before, it completes
    after: every new item gets an entry at [assets/gallery/photo-] with
    its position and the file's extension, and its [src] is that path
    after a slash. *)
Theorem uploadGallery_then_export (s : Form) (files : list File) :
  ascendingKeys (uploadedFiles s) ->
  onSubmit (uploadedFiles s) (values s) <> None ->
  exists a,
    onSubmit (uploadedFiles (uploadGallery files s)) (values (uploadGallery files s)) = Some a
    /\ List.length (gallery (document a))
       = (List.length (gallery (values s)) + List.length files)%nat
    /\ forall i f, files !! i = Some f ->
         pendingGallery (uploadedFiles (uploadGallery files s))
           (List.length (gallery (values s)) + i)%nat = Some f
         /\ gallerySrc (document a) (List.length (gallery (values s)) + i)%nat
            = Some ("/assets/gallery/"
                    ++ galleryFilename (List.length (gallery (values s)) + i)%nat f)
         /\ exists g,
              entries a !! ("assets/gallery/"
                            ++ galleryFilename (List.length (gallery (values s)) + i)%nat f)
              = Some (Blob g).
Proof.
  intros Asc S. apply slotsExist_iff in S.
  destruct (uploadGallery_facts files s Asc S) as (Asc' & S' & L & _ & N).
  destruct (export_of_slots _ _ Asc' S') as (a & E & _ & G & _ & F).
  exists a. split; [exact E|]. split.
  - destruct F as (_ & _ & _ & _ & FG). apply Forall2_length in FG. now rewrite <- FG.
  - intros i f Hf. specialize (N i f Hf). split; [exact N|].
    destruct (ascendingKeys_NoDup _ Asc') as (_ & NG & _).
    destruct (G (List.length (gallery (values s)) + i)%nat f) as (p & Ep & Hs & Hg).
    { now apply In_pending_gallery. }
    cbn in Ep. inversion Ep; subst p. split; [exact Hs|exact Hg].
Qed.

Lemma uploadGallery_then_export_witness :
  exists a,
    onSubmit
      (uploadedFiles (uploadGallery [mkFile "a.jpg" []; mkFile "b.webp" []]
                        (mkForm twoLogosKit noFiles)))
      (values (uploadGallery [mkFile "a.jpg" []; mkFile "b.webp" []]
                 (mkForm twoLogosKit noFiles))) = Some a
    /\ gallerySrc (document a) 1 = Some "/assets/gallery/photo-2.webp".
Proof.
  destruct (uploadGallery_then_export (mkForm twoLogosKit noFiles)
              [mkFile "a.jpg" []; mkFile "b.webp" []]) as (a & E & _ & H).
  - unfold ascendingKeys; cbn; tauto.
  - discriminate.
  - exists a. split; [exact E|].
    exact (proj1 (proj2 (H 1%nat (mkFile "b.webp" []) eq_refl))).
Defined.

(** Removing a gallery item deletes the file pending under its position
    and leaves the other pending files under their keys.  When no item
    after it has a pending file, the items before it keep their files and
    the export, if it completed before, completes after. *)
Theorem removeGalleryItem_keeps_export (s : Form) (gi : nat) :
  ascendingKeys (uploadedFiles s) ->
  onSubmit (uploadedFiles s) (values s) <> None ->
  (forall k, (gi < k)%nat -> pendingGallery (uploadedFiles s) k = None) ->
  ascendingKeys (uploadedFiles (removeGalleryItem gi s))
  /\ onSubmit (uploadedFiles (removeGalleryItem gi s)) (values (removeGalleryItem gi s))
     <> None
  /\ (forall j, (j < gi)%nat ->
        gallery (values (removeGalleryItem gi s)) !! j = gallery (values s) !! j
        /\ pendingGallery (uploadedFiles (removeGalleryItem gi s)) j
           = pendingGallery (uploadedFiles s) j)
  /\ (forall j, (gi <= j)%nat ->
        pendingGallery (uploadedFiles (removeGalleryItem gi s)) j = None).
Proof.
  intros Asc S Hlast. apply slotsExist_iff in S.
  pose proof Asc as (AL & AG & AF).
  assert (P : forall k, pendingGallery (uploadedFiles (removeGalleryItem gi s)) k
              = if Nat.eqb gi k then None else pendingGallery (uploadedFiles s) k).
  { intros k. unfold pendingGallery, removeGalleryItem. cbn [uploadedFiles uploaded_gallery].
    apply getKey_deleteKey. }
  assert (Asc' : ascendingKeys (uploadedFiles (removeGalleryItem gi s))).
  { unfold ascendingKeys, removeGalleryItem.
    cbn [uploadedFiles uploaded_logos uploaded_gallery uploaded_fonts].
    split; [exact AL|]. split; [|exact AF]. now apply deleteKey_ascending. }
  destruct (ascendingKeys_NoDup _ Asc) as (_ & NG & _).
  destruct (ascendingKeys_NoDup _ Asc') as (_ & NG' & _).
  split; [exact Asc'|]. split; [|split].
  - apply slotsExist_iff. intros x Hx. destruct x as [li vi g|k g|fi g].
    + apply In_pending in Hx. cbn in Hx. specialize (S (LogoAsset li vi g)).
      cbn [slotExists] in *. apply S. now apply In_pending.
    + apply (In_pending_gallery _ _ _ NG') in Hx. rewrite P in Hx.
      destruct (Nat.eqb_spec gi k) as [->|Hne]; [discriminate|].
      assert (Hk : (k < gi)%nat).
      { destruct (Nat.lt_ge_cases k gi) as [|Hge]; [assumption|].
        rewrite Hlast in Hx by lia. discriminate. }
      apply (In_pending_gallery _ _ _ NG) in Hx. specialize (S _ Hx).
      cbn [slotExists removeGalleryItem values setGallery gallery] in *.
      now rewrite list_lookup_delete_lt by lia.
    + apply In_pending in Hx. cbn in Hx. specialize (S (FontAsset fi g)).
      cbn [slotExists] in *. apply S. now apply In_pending.
  - intros j Hj. split.
    + cbn [removeGalleryItem values setGallery gallery].
      now rewrite list_lookup_delete_lt by lia.
    + rewrite P. destruct (Nat.eqb_spec gi j); [lia|reflexivity].
  - intros j Hj. rewrite P. destruct (Nat.eqb_spec gi j); [reflexivity|].
    apply Hlast. lia.
Qed.

Lemma removeGalleryItem_keeps_export_witness :
  onSubmit
    (uploadedFiles
       (removeGalleryItem 1 (uploadGallery [mkFile "a.jpg" []; mkFile "b.webp" []]
                               (mkForm twoLogosKit noFiles))))
    (values
       (removeGalleryItem 1 (uploadGallery [mkFile "a.jpg" []; mkFile "b.webp" []]
                               (mkForm twoLogosKit noFiles)))) <> None.
Proof.
  refine (proj1 (proj2 (removeGalleryItem_keeps_export
            (uploadGallery [mkFile "a.jpg" []; mkFile "b.webp" []]
               (mkForm twoLogosKit noFiles)) 1 _ _ _))).
  - unfold ascendingKeys; cbn; lia.
  - discriminate.
  - intros k Hk. unfold pendingGallery. cbn.
    destruct k as [|[|k]]; [lia|lia|reflexivity].
Defined.

(** Removing a logo leaves [uploadedFiles] as it was, so a file can be left
    without a slot: once any logo is removed while the last logo has a
    pending file, the export throws. *)
Theorem removeLogo_then_export_throws (s : Form) (index last vi : nat) (f : File) :
  ascendingKeys (uploadedFiles s) ->
  S last = List.length (logos (values s)) -> (index <= last)%nat ->
  pendingLogo (uploadedFiles s) last vi = Some f ->
  onSubmit (uploadedFiles (removeLogo index s)) (values (removeLogo index s)) = None.
Proof.
  intros Asc Hlast Hi Hp. destruct (ascendingKeys_NoDup _ Asc) as (NL & _).
  apply onSubmit_None_iff. exists (LogoAsset last vi f). split.
  - now apply In_pending_logo.
  - cbn [slotExists removeLogo values setLogos logos].
    rewrite lookup_ge_None_2; [reflexivity|].
    rewrite length_delete by (apply lookup_lt_is_Some_2; lia). lia.
Qed.

Lemma removeLogo_then_export_throws_witness :
  onSubmit (uploadedFiles (removeLogo 0 (mkForm twoLogosKit twoLogoFiles)))
    (values (removeLogo 0 (mkForm twoLogosKit twoLogoFiles))) = None
  /\ onSubmit twoLogoFiles twoLogosKit <> None.
Proof.
  split; [|discriminate].
  apply (removeLogo_then_export_throws (mkForm twoLogosKit twoLogoFiles) 0 1 0
           (mkFile "mono.png" [Byte.x02])).
  - unfold ascendingKeys; cbn; lia.
  - reflexivity.
  - lia.
  - reflexivity.
Defined.

(** Removing a font leaves [uploadedFiles] as it was: once any font is
    removed while the last font has pending files, the export throws. *)
Theorem removeFont_then_export_throws (s : Form) (index last : nat) (f : File)
    (files : list File) :
  S last = List.length (typography_fonts (typography (values s))) -> (index <= last)%nat ->
  In (last, files) (uploaded_fonts (uploadedFiles s)) -> In f files ->
  onSubmit (uploadedFiles (removeFont index s)) (values (removeFont index s)) = None.
Proof.
  intros Hlast Hi Hin Hf.
  apply onSubmit_None_iff. exists (FontAsset last f). split.
  - apply In_pending. eauto.
  - cbn [slotExists removeFont values typography typography_fonts].
    rewrite lookup_ge_None_2; [reflexivity|].
    rewrite length_delete by (apply lookup_lt_is_Some_2; lia). lia.
Qed.

Lemma removeFont_then_export_throws_witness :
  onSubmit
    (uploadedFiles (removeFont 0 (mkForm twoLogosKit
                                    (uploadFonts 0 [mkFile "inter.woff2" []] noFiles))))
    (values (removeFont 0 (mkForm twoLogosKit
                             (uploadFonts 0 [mkFile "inter.woff2" []] noFiles)))) = None
  /\ onSubmit (uploadFonts 0 [mkFile "inter.woff2" []] noFiles) twoLogosKit <> None.
Proof.
  split; [|discriminate].
  apply (removeFont_then_export_throws _ 0 0 (mkFile "inter.woff2" [])
           [mkFile "inter.woff2" []]).
  - reflexivity.
  - lia.
  - now left.
  - now left.
Defined.

(** Removing a gallery item deletes only the file under its own key: once
    an item before the last one is removed while the last one has a
    pending file, the export throws. *)
Theorem removeGalleryItem_then_export_throws (s : Form) (index last : nat) (f : File) :
  ascendingKeys (uploadedFiles s) ->
  S last = List.length (gallery (values s)) -> (index < last)%nat ->
  pendingGallery (uploadedFiles s) last = Some f ->
  onSubmit (uploadedFiles (removeGalleryItem index s)) (values (removeGalleryItem index s))
  = None.
Proof.
  intros Asc Hlast Hi Hp. pose proof Asc as (AL & AG & AF).
  apply onSubmit_None_iff. exists (GalleryAsset last f). split.
  - apply In_pending. cbn [removeGalleryItem uploadedFiles uploaded_gallery].
    unfold deleteKey. apply filter_In. split.
    + apply getKey_In; [exact (ascending_NoDup _ _ AG)|exact Hp].
    + cbn [fst]. apply negb_true_iff, Nat.eqb_neq. lia.
  - cbn [slotExists removeGalleryItem values setGallery gallery].
    rewrite lookup_ge_None_2; [reflexivity|].
    rewrite length_delete by (apply lookup_lt_is_Some_2; lia). lia.
Qed.

Lemma removeGalleryItem_then_export_throws_witness :
  onSubmit
    (uploadedFiles
       (removeGalleryItem 0 (uploadGallery [mkFile "a.jpg" []; mkFile "b.webp" []]
                               (mkForm twoLogosKit noFiles))))
    (values
       (removeGalleryItem 0 (uploadGallery [mkFile "a.jpg" []; mkFile "b.webp" []]
                               (mkForm twoLogosKit noFiles)))) = None.
Proof.
  apply (removeGalleryItem_then_export_throws _ 0 1 (mkFile "b.webp" [])).
  - unfold ascendingKeys; cbn; lia.
  - reflexivity.
  - lia.
  - reflexivity.
Defined.

(** If the export completes for a state, it completes after font files
    are chosen for a font that the document has: every chosen file has an
    entry at [assets/fonts/] followed by the slug of the font's name, a
    hyphen and the file's name.  Choosing no file changes nothing. *)
Theorem uploadFonts_then_export (u : UploadedFiles) (d : BrandData) (fi : nat)
    (files : list File) (font : Font) :
  ascendingKeys u -> onSubmit u d <> None ->
  typography_fonts (typography d) !! fi = Some font ->
  (files = [] -> uploadFonts fi files u = u)
  /\ exists a, onSubmit (uploadFonts fi files u) d = Some a
       /\ forall f, In f files ->
            exists g, entries a !! ("assets/fonts/" ++ fontFilename (font_name font) f)
                      = Some (Blob g).
Proof.
  intros Asc HS Hf. split; [now intros ->|]. apply slotsExist_iff in HS.
  destruct files as [|f0 rest].
  { destruct (export_of_slots _ d Asc HS) as (a & E & _). exists a. split; [exact E|].
    intros f []. }
  pose proof Asc as (AL & AG & AF).
  assert (Asc' : ascendingKeys (uploadFonts fi (f0 :: rest) u)).
  { unfold ascendingKeys, uploadFonts. cbn [List.length Nat.ltb Nat.leb].
    cbn [uploaded_logos uploaded_gallery uploaded_fonts].
    split; [exact AL|]. split; [exact AG|]. apply setKey_ascending; [lia|exact AF]. }
  destruct (ascendingKeys_NoDup _ Asc') as (_ & _ & NF').
  assert (P : forall k fs, In (k, fs) (uploaded_fonts (uploadFonts fi (f0 :: rest) u)) ->
              (k = fi /\ fs = f0 :: rest) \/ (k <> fi /\ In (k, fs) (uploaded_fonts u))).
  { intros k fs Hin. apply (getKey_In _ _ _ NF') in Hin.
    unfold uploadFonts in Hin. cbn [List.length Nat.ltb Nat.leb uploaded_fonts] in Hin.
    rewrite getKey_setKey in Hin. destruct (Nat.eqb_spec fi k) as [->|Hne].
    - left. split; [reflexivity|congruence].
    - right. split; [congruence|]. apply getKey_In; [exact (ascending_NoDup _ _ AF)|exact Hin]. }
  assert (S' : slotsExist d (uploadFonts fi (f0 :: rest) u)).
  { intros x Hx. apply In_pending in Hx. destruct x as [li vi g|gi g|k g].
    - apply HS. apply In_pending. exact Hx.
    - apply HS. apply In_pending. exact Hx.
    - destruct Hx as (fs & Hin & Hg). destruct (P _ _ Hin) as [[-> ->]|[_ Hin']].
      + cbn [slotExists]. now rewrite Hf.
      + apply HS. apply In_pending. eauto. }
  destruct (export_of_slots _ d Asc' S') as (a & E & _ & _ & F & _).
  exists a. split; [exact E|]. intros f Hin.
  destruct (F fi f) as (p & Ep & Hg).
  { apply In_pending. exists (f0 :: rest). split; [|exact Hin].
    apply getKey_In; [exact NF'|]. unfold uploadFonts.
    cbn [List.length Nat.ltb Nat.leb uploaded_fonts]. now rewrite getKey_setKey, Nat.eqb_refl. }
  unfold assetPath, assetFilename in Ep. rewrite Hf in Ep. cbn [assetFolder] in Ep.
  inversion Ep; subst p. exact Hg.
Qed.

Lemma uploadFonts_then_export_witness :
  exists a,
    onSubmit (uploadFonts 0 [mkFile "Inter Bold.woff2" []] noFiles) twoLogosKit = Some a
    /\ exists g, entries a !! "assets/fonts/inter-Inter Bold.woff2" = Some (Blob g).
Proof.
  destruct (uploadFonts_then_export noFiles twoLogosKit 0 [mkFile "Inter Bold.woff2" []]
              (mkFont "Inter" (mkFontSource "google" "Inter" [400%float])))
    as (_ & a & E & H).
  - unfold ascendingKeys; cbn; tauto.
  - discriminate.
  - reflexivity.
  - exists a. split; [exact E|]. apply (H (mkFile "Inter Bold.woff2" [])). now left.
Defined.

End UploadFacts.

(** * Facts about validated output *)

Section ZodOutputFacts.
Import Zod ZodSpec BrandSchema ZodOutput.

Lemma definedOutput_spec s : forall v out,
  definedOutput s = true -> parse s v = ([], out) -> out <> VUndefined.
Proof.
  induction s as [checks|checks|vals|el m _|shape _|inner _|inner d IH] using Schema_induction;
    intros v out D H; cbn [definedOutput] in D; try discriminate.
  - cbn [parse] in H. destruct v; inversion H; discriminate.
  - cbn [parse] in H. destruct v; try (inversion H; discriminate).
    destruct (isNaN x); inversion H; discriminate.
  - cbn [parse] in H. destruct v; try (inversion H; discriminate).
    destruct (existsb _ _); inversion H; discriminate.
  - cbn [parse] in H. destruct v; inversion H; discriminate.
  - destruct v; cbn [parse] in H; inversion H; discriminate.
  - cbn [parse] in H. exact (IH _ _ D H).
Qed.

Lemma fieldOutputs_absent fs k : forall rs,
  ~ In k (map fst rs) ->
  lookup k (fieldOutputs fs rs) = VUndefined /\ hasKey k (fieldOutputs fs rs) = false.
Proof.
  induction rs as [|[k2 r2] rs IH]; intros N; [split; reflexivity|].
  cbn [map fst] in N. cbn [fieldOutputs].
  assert (Hne : String.eqb k k2 = false) by (apply String.eqb_neq; intros ->; apply N; now left).
  assert (N' : ~ In k (map fst rs)) by (intros H; apply N; now right).
  destruct (isUndefined (snd r2) && negb (hasKey k2 fs)); [now apply IH|].
  cbn [lookup hasKey]. rewrite Hne. now apply IH.
Qed.

Lemma fieldResults_keys shape fs : map fst (fieldResults shape fs) = map fst shape.
Proof. unfold fieldResults. rewrite map_map. reflexivity. Qed.

Lemma lookup_fieldOutputs_any shape fs k sk :
  List.NoDup (map fst shape) -> In (k, sk) shape ->
  lookup k (fieldOutputs fs (fieldResults shape fs)) = snd (parse sk (lookup k fs))
  /\ hasKey k (fieldOutputs fs (fieldResults shape fs))
     = negb (isUndefined (snd (parse sk (lookup k fs))) && negb (hasKey k fs)).
Proof.
  induction shape as [|[k' sk'] rest IH]; intros ND Hin; [destruct Hin|].
  cbn [map fst] in ND. apply List.NoDup_cons_iff in ND as [Hk ND].
  cbn [fieldResults map fst snd fieldOutputs]. fold (fieldResults rest fs).
  destruct Hin as [E|Hin].
  - inversion E; subst k' sk'; clear E IH.
    destruct (fieldOutputs_absent fs k (fieldResults rest fs)) as [A1 A2];
      [now rewrite fieldResults_keys|].
    destruct (isUndefined (snd (parse sk (lookup k fs)))) eqn:U; cbn [andb].
    + destruct (hasKey k fs); cbn [negb lookup hasKey]; rewrite ?String.eqb_refl.
      * now split.
      * rewrite A1, A2.
        destruct (snd (parse sk (lookup k fs))); try discriminate. now split.
    + cbn [lookup hasKey]. rewrite String.eqb_refl. now split.
  - assert (Hne : String.eqb k k' = false).
    { apply String.eqb_neq. intros ->. apply Hk. now apply (in_map fst) in Hin. }
    destruct (isUndefined (snd (parse sk' (lookup k' fs))) && negb (hasKey k' fs));
      [now apply IH|].
    cbn [lookup hasKey]. rewrite Hne. now apply IH.
Qed.

Lemma fieldIssues_nil shape fs :
  fieldIssues (fieldResults shape fs) = [] ->
  forall k sk, In (k, sk) shape -> fst (parse sk (lookup k fs)) = [].
Proof.
  intros H k sk Hin. destruct (fst (parse sk (lookup k fs))) as [|i rest] eqn:E; [reflexivity|].
  exfalso. assert (Hi : In (atSeg (Key k) i) (fieldIssues (fieldResults shape fs))).
  { apply In_fieldIssues. exists k, sk, i. unfold issues. rewrite E. split; [exact Hin|].
    split; [now left|reflexivity]. }
  rewrite H in Hi. destruct Hi.
Qed.

Lemma fieldResults_ext shape fs gs :
  (forall k sk, In (k, sk) shape -> parse sk (lookup k gs) = parse sk (lookup k fs)) ->
  fieldResults shape gs = fieldResults shape fs.
Proof.
  intros H. unfold fieldResults. apply map_ext_in. intros [k sk] Hin. cbn [fst snd].
  now rewrite (H k sk Hin).
Qed.

Lemma fieldOutputs_ext fs gs rs :
  (forall k r, In (k, r) rs -> isUndefined (snd r) = true -> hasKey k gs = hasKey k fs) ->
  fieldOutputs gs rs = fieldOutputs fs rs.
Proof.
  induction rs as [|[k r] rest IH]; intros H; [reflexivity|]. cbn [fieldOutputs].
  rewrite IH by (intros k' r' Hin; apply H; now right).
  destruct (isUndefined (snd r)) eqn:U; [|reflexivity].
  now rewrite (H k r (or_introl eq_refl) U).
Qed.

Lemma itemIssues_nil element items : forall n,
  itemIssues n (map (parse element) items) = [] ->
  Forall (fun v => fst (parse element v) = []) items.
Proof.
  induction items as [|v rest IH]; intros n H; [constructor|].
  cbn [map itemIssues] in H. apply app_eq_nil in H as [H1 H2].
  constructor; [|now apply (IH (S n))].
  destruct (fst (parse element v)); [reflexivity|discriminate].
Qed.

Lemma itemIssues_of_nil element items : forall n,
  Forall (fun v => fst (parse element v) = []) items ->
  itemIssues n (map (parse element) items) = [].
Proof.
  induction items as [|v rest IH]; intros n H; [reflexivity|].
  apply List.Forall_cons_iff in H as [H1 H2].
  cbn [map itemIssues]. rewrite H1. cbn [map app]. now apply IH.
Qed.

Lemma fieldOutputs_reparse fs out : forall rs : list (string * (list Issue * Value)),
  (forall k r, In (k, r) rs -> isUndefined (snd r) = true -> hasKey k out = hasKey k fs) ->
  fieldOutputs out (map (fun p => (fst p, ([], snd (snd p)))) rs) = fieldOutputs fs rs.
Proof.
  induction rs as [|[k r] rest IH]; intros H; [reflexivity|].
  cbn [map fieldOutputs fst snd].
  rewrite IH by (intros k' r' Hin; apply H; now right).
  destruct (isUndefined (snd r)) eqn:U; [|reflexivity].
  now rewrite (H k r (or_introl eq_refl) U).
Qed.

Lemma fieldIssues_reparse : forall rs : list (string * (list Issue * Value)),
  fieldIssues (map (fun p => (fst p, ([], snd (snd p)))) rs) = [].
Proof.
  induction rs as [|[k r] rest IH]; [reflexivity|]. cbn [map fieldIssues fst snd app]. exact IH.
Qed.

Lemma parse_idempotent s :
  wfSchema s -> defaultsDefined s = true ->
  forall v out, parse s v = ([], out) -> parse s out = ([], out).
Proof.
  induction s as [checks|checks|vals|el m IH|shape IH|inner IH|inner d IH]
    using Schema_induction; intros W D v out H.
  - destruct v; cbn [parse] in H; try (inversion H; fail).
    inversion H as [[H1 H2]]. cbn [parse]. now rewrite H1.
  - destruct v; cbn [parse] in H; try (inversion H; fail).
    destruct (isNaN x) eqn:N; [inversion H|]. inversion H as [[H1 H2]].
    cbn [parse]. now rewrite N, H1.
  - destruct v; cbn [parse] in H; try (inversion H; fail).
    destruct (existsb (String.eqb s) vals) eqn:N; [|inversion H]. inversion H as [H2].
    cbn [parse]. now rewrite N.
  - inversion W as [| | |el' m' Wel| | |]; subst. cbn [defaultsDefined] in D.
    destruct v; cbn [parse] in H; try (inversion H; fail).
    inversion H as [[H1 H2]]. clear H. apply app_eq_nil in H1 as [Hm Hi].
    apply itemIssues_nil in Hi. cbn [parse]. rewrite !length_map, Hm. cbn [app].
    assert (E : map (parse el) (map snd (map (parse el) items))
                = map (parse el) items).
    { rewrite !map_map. apply map_ext_in. intros v Hv.
      apply (proj1 (List.Forall_forall _ _) Hi) in Hv.
      rewrite (IH Wel D v (snd (parse el v)));
        destruct (parse el v); cbn in *; now subst. }
    rewrite E. reflexivity.
  - inversion W as [| | | |shape' ND Wsh| |]; subst. cbn [defaultsDefined] in D.
    destruct v; try (cbn [parse] in H; inversion H; fail).
    rewrite parse_object in H. inversion H as [[Hi Ho]]. clear H.
    rewrite parse_object.
    assert (P : forall k sk, In (k, sk) shape ->
              parse sk (lookup k (fieldOutputs fields (fieldResults shape fields)))
              = ([], snd (parse sk (lookup k fields)))).
    { intros k sk Hin. destruct (lookup_fieldOutputs_any shape fields k sk ND Hin) as [L _].
      rewrite L.
      apply (proj1 (List.Forall_forall _ _) IH (k, sk) Hin
               (proj1 (List.Forall_forall _ _) Wsh (k, sk) Hin)
               (proj1 (forallb_forall _ _) D (k, sk) Hin) (lookup k fields)).
      pose proof (fieldIssues_nil _ _ Hi k sk Hin) as Z.
      cbn [snd]. destruct (parse sk (lookup k fields)); cbn in *; now subst. }
    assert (R : fieldResults shape (fieldOutputs fields (fieldResults shape fields))
                = map (fun p => (fst p, ([], snd (snd p)))) (fieldResults shape fields)).
    { unfold fieldResults at 1 3. rewrite map_map. apply map_ext_in. intros [k sk] Hin.
      cbn [fst snd]. now rewrite (P k sk Hin). }
    rewrite R, fieldIssues_reparse, ?Hi. f_equal. f_equal. apply fieldOutputs_reparse.
    intros k r Hin U. unfold fieldResults in Hin. apply in_map_iff in Hin as ([k' sk] & E & Hin).
    cbn [fst snd] in E. inversion E; subst k' r; clear E.
    destruct (lookup_fieldOutputs_any shape fields k sk ND Hin) as [_ K].
    rewrite K, U. cbn [andb]. now rewrite negb_involutive.
  - inversion W; subst. cbn [defaultsDefined] in D.
    destruct v; cbn [parse] in H;
      try (inversion H; subst; reflexivity);
      pose proof (IH ltac:(assumption) D _ _ H) as H';
      destruct out; cbn [parse]; try exact H'; reflexivity.
  - inversion W; subst. cbn [defaultsDefined] in D. apply andb_true_iff in D as [D1 D2].
    cbn [parse] in H. pose proof (definedOutput_spec _ _ _ D1 H) as N.
    pose proof (IH ltac:(assumption) D2 _ _ H) as H'.
    cbn [parse]. destruct out; try exact H'. congruence.
Qed.

(** Validation is idempotent on what it accepts: the kit that
    [brandDataSchema] returns for a candidate is accepted as it is, and
    returned unchanged. *)
Theorem validation_idempotent (isURL : string -> bool) (v out : Value) :
  safeParse (brandDataSchema isURL) v = Success out ->
  safeParse (brandDataSchema isURL) out = Success out.
Proof.
  unfold safeParse. destruct (parse (brandDataSchema isURL) v) as [[|i rest] o] eqn:E;
    [|discriminate].
  intros H. inversion H; subst o.
  rewrite (parse_idempotent _ (brandDataSchema_wf isURL) eq_refl v out E). reflexivity.
Qed.

Lemma validation_idempotent_witness :
  exists out,
    safeParse (brandDataSchema exampleIsURL)
      (VObj (("extra", VBool true)
             :: exampleFields exampleLogos (exampleColors "#035259") exampleFonts
                  exampleExamples)) = Success (VObj out)
    /\ map fst out = ["brand"; "logos"; "colors"; "typography"; "gallery"]
    /\ safeParse (brandDataSchema exampleIsURL) (VObj out) = Success (VObj out).
Proof.
  eexists. split; [reflexivity|]. split; [reflexivity|].
  apply (validation_idempotent exampleIsURL
           (VObj (("extra", VBool true)
                  :: exampleFields exampleLogos (exampleColors "#035259") exampleFonts
                       exampleExamples))).
  reflexivity.
Defined.

End ZodOutputFacts.

Section InferFacts.
Import Zod ZodSpec BrandSchema BrandForm Infer.

Lemma parse_nil s v : fst (parse s v) = [] -> parse s v = ([], snd (parse s v)).
Proof. intros H. destruct (parse s v) as [i o]. cbn in *. now subst. Qed.

Lemma infers_string checks : infers (ZString checks) str.
Proof.
  intros v out H. destruct v; cbn [parse] in H; try (inversion H; fail).
  inversion H. now eexists.
Qed.

Lemma infers_number checks : infers (ZNumber checks) num.
Proof.
  intros v out H. destruct v; cbn [parse] in H; try (inversion H; fail).
  destruct (isNaN x); [inversion H|]. inversion H. now eexists.
Qed.

Lemma infers_enum vals : infers (ZEnum vals) str.
Proof.
  intros v out H. destruct v; cbn [parse] in H; try (inversion H; fail).
  destruct (existsb _ _); [|inversion H]. inversion H. now eexists.
Qed.

Lemma parse_array_inv el m v out : parse (ZArray el m) v = ([], out) ->
  exists items, v = VArr items /\ out = VArr (map snd (map (parse el) items))
    /\ checkMinLength m (List.length items) = []
    /\ Forall (fun i => fst (parse el i) = []) items.
Proof.
  intros H. destruct v; cbn [parse] in H; try (inversion H; fail).
  injection H as H1 H2. apply app_eq_nil in H1 as [Hm Hi].
  exists items. split; [reflexivity|]. split; [now symmetry|]. split; [exact Hm|].
  exact (itemIssues_nil _ _ _ Hi).
Qed.

Lemma infers_array {A : Type} el m (read : Value -> option A) :
  infers el read -> infers (ZArray el m) (arr read).
Proof.
  intros R v out H. apply parse_array_inv in H as (items & -> & -> & _ & Hi).
  cbn [arr]. induction Hi as [|i items Hi _ IH]; [now exists []|].
  destruct IH as [xs Exs]. destruct (R i (snd (parse el i)) (parse_nil _ _ Hi)) as [x Ex].
  exists (x :: xs). cbn [map]. apply mapM_Some. constructor; [exact Ex|].
  now apply mapM_Some.
Qed.


Lemma infers_optional {A : Type} inner (read : Value -> option A) :
  infers inner read -> infers (ZOptional inner) (optional read).
Proof.
  intros R v out H.
  assert (C : out = VUndefined \/ exists x, read out = Some x).
  { destruct v; cbn [parse] in H; try (right; exact (R _ _ H)). left. now inversion H. }
  destruct C as [->|[x E]]; [now exists None|].
  exists (match out with VUndefined => None | _ => Some x end).
  destruct out; cbn [optional]; rewrite ?E; reflexivity.
Qed.

Lemma infers_default {A : Type} inner d (read : Value -> option A) :
  infers inner read -> infers (ZDefault inner d) read.
Proof. intros R v out H. cbn [parse] in H. exact (R _ _ H). Qed.

Lemma parse_object_inv shape v out :
  List.NoDup (map fst shape) -> parse (ZObject shape) v = ([], out) ->
  exists fs outfs, v = VObj fs /\ out = VObj outfs
    /\ Forall (fun p => parse (snd p) (lookup (fst p) fs) = ([], lookup (fst p) outfs)) shape.
Proof.
  intros ND H. destruct v; try (cbn [parse] in H; inversion H; fail).
  rewrite parse_object in H. injection H as Hi Ho.
  exists fields, (fieldOutputs fields (fieldResults shape fields)).
  split; [reflexivity|]. split; [now symmetry|].
  apply List.Forall_forall. intros [k sk] Hin. cbn [fst snd].
  destruct (lookup_fieldOutputs_any shape fields k sk ND Hin) as [L _]. rewrite L.
  exact (parse_nil _ _ (fieldIssues_nil _ _ Hi k sk Hin)).
Qed.

Ltac keys_nodup :=
  cbn [map fst]; repeat (constructor; [cbn; intuition discriminate|]); constructor.

Ltac open_object H :=
  apply parse_object_inv in H as (?fs & ?outfs & -> & -> & H); [|keys_nodup];
  repeat (apply List.Forall_cons_iff in H as [? H]); clear H;
  cbn [fst snd] in *.

Create HintDb infers.

#[local] Hint Resolve infers_string infers_number infers_enum infers_array
  infers_optional infers_default : infers.

Ltac read_field :=
  match goal with
  | [ H : parse ?sk _ = ([], lookup ?k ?o) |- context [?read (lookup ?k ?o)] ] =>
      let R := fresh "R" in
      assert (R : infers sk read) by auto 10 with infers;
      let x := fresh "x" in
      let E := fresh "E" in
      destruct (R _ _ H) as [x E]; rewrite E; cbn [mbind option_bind]; clear R
  end.

Ltac infer_object H read :=
  open_object H; unfold read; cbn [obj]; repeat read_field.

Lemma infers_logoVariant : infers logoVariantSchema logoVariant.
Proof.
  intros v out H. unfold logoVariantSchema in H. infer_object H logoVariant. now eexists.
Qed.

#[local] Hint Resolve infers_logoVariant : infers.

Lemma infers_logo : infers logoSchema logo.
Proof. intros v out H. unfold logoSchema in H. infer_object H logo. now eexists. Qed.

Lemma infers_colorValues : infers colorValuesSchema colorValues.
Proof.
  intros v out H. unfold colorValuesSchema in H. infer_object H colorValues. now eexists.
Qed.

#[local] Hint Resolve infers_logo infers_colorValues : infers.

Lemma infers_color : infers colorSchema color.
Proof. intros v out H. unfold colorSchema in H. infer_object H color. now eexists. Qed.

Lemma infers_fontSource : infers fontSourceSchema fontSource.
Proof.
  intros v out H. unfold fontSourceSchema in H. infer_object H fontSource. now eexists.
Qed.

#[local] Hint Resolve infers_color infers_fontSource : infers.

Lemma infers_font : infers fontSchema font.
Proof. intros v out H. unfold fontSchema in H. infer_object H font. now eexists. Qed.

Lemma infers_typographyExample : infers typographyExampleSchema typographyExample.
Proof.
  intros v out H. unfold typographyExampleSchema in H.
  infer_object H typographyExample. now eexists.
Qed.

#[local] Hint Resolve infers_font infers_typographyExample : infers.

Lemma infers_galleryItem : infers galleryItemSchema galleryItem.
Proof.
  intros v out H. unfold galleryItemSchema in H. infer_object H galleryItem. now eexists.
Qed.

Lemma infers_brandInfo isURL : infers (brandInfoSchema isURL) brandInfo.
Proof.
  intros v out H. unfold brandInfoSchema in H. infer_object H brandInfo. now eexists.
Qed.

#[local] Hint Resolve infers_galleryItem infers_brandInfo : infers.

Lemma infers_typography : infers typographySchema typography.
Proof.
  intros v out H. unfold typographySchema in H. infer_object H typography. now eexists.
Qed.

#[local] Hint Resolve infers_typography : infers.




End InferFacts.

(** * Facts about composed conversions *)

Section CodecComposition.

Lemma pairTextOK_all :
  forallb (fun c1 => forallb (fun c2 => pairTextOK c1 c2) allAscii) allAscii = true.
Proof. vm_compute. reflexivity. Qed.

Lemma pair_text c1 c2 :
  hasChar "," (Number_toString (parseInt (String c1 (String c2 "")) (Some 16))) = false
  /\ Number_toString (part (Number_toString (parseInt (String c1 (String c2 "")) (Some 16))))
     = Number_toString (parseInt (String c1 (String c2 "")) (Some 16)).
Proof.
  pose proof (forallb_allAscii _ (forallb_allAscii _ pairTextOK_all c1) c2) as H.
  cbv beta in H. unfold pairTextOK in H. cbv zeta in H.
  apply andb_true_iff in H as [H1 H2]. apply negb_true_iff in H1.
  apply String.eqb_eq in H2. auto.
Qed.

Lemma reparse_three (t1 t2 t3 : string) :
  hasChar "," t1 = false -> hasChar "," t2 = false -> hasChar "," t3 = false ->
  Number_toString (part t1) = t1 -> Number_toString (part t2) = t2 ->
  Number_toString (part t3) = t3 ->
  template (parseParts (t1 ++ ", " ++ t2 ++ ", " ++ t3) !! 0%nat) ++ ", "
  ++ template (parseParts (t1 ++ ", " ++ t2 ++ ", " ++ t3) !! 1%nat) ++ ", "
  ++ template (parseParts (t1 ++ ", " ++ t2 ++ ", " ++ t3) !! 2%nat)
  = t1 ++ ", " ++ t2 ++ ", " ++ t3.
Proof.
  intros C1 C2 C3 P1 P2 P3. rewrite (parseParts_3 t1 t2 t3 C1 C2 C3).
  cbn [lookup list_lookup template]. now rewrite P1, P2, P3.
Qed.

(** The two derived converters are compositions, for every input:
    [hexToCmyk] is [rgbToCmyk] after [hexToRgb] (reading the three numbers
    back from the RGB text and writing them again gives the same text), and
    [cmykToHex] is [rgbToHex] after [cmykToRgb]. *)
Theorem derived_converters_compose (text : string) :
  hexToCmyk text = rgbToCmyk (hexToRgb text)
  /\ cmykToHex text = rgbToHex (cmykToRgb text).
Proof.
  split.
  - unfold hexToCmyk. cbv zeta.
    destruct (String.eqb (hexToRgb text) "") eqn:E.
    + apply String.eqb_eq in E. rewrite E. reflexivity.
    + f_equal. revert E. unfold hexToRgb. cbv zeta.
      destruct (String_replace_first "#" text)
        as [|c1 [|c2 [|c3 [|c4 [|c5 [|c6 [|c7 r]]]]]]]; try (cbn; discriminate).
      intros _.
      destruct (pair_text c1 c2) as [C1 P1]. destruct (pair_text c3 c4) as [C2 P2].
      destruct (pair_text c5 c6) as [C3 P3].
      exact (reparse_three _ _ _ C1 C2 C3 P1 P2 P3).
  - unfold cmykToHex. cbv zeta.
    destruct (String.eqb (cmykToRgb text) "") eqn:E; [|reflexivity].
    apply String.eqb_eq in E. rewrite E. reflexivity.
Qed.

(** An RGB text whose three parts read as integers between 0 and 255
    survives the trip through hex: [hexToRgb (rgbToHex rgb)] is the three
    integers in the form [r, g, b], whatever spacing or trailing characters
    the input had, and converting that text to hex again gives the same hex
    string. *)
Theorem rgb_hex_roundtrip (rgb : string) (r g b : Z) :
  parseParts rgb = [of_Z r; of_Z g; of_Z b] ->
  0 <= r <= 255 -> 0 <= g <= 255 -> 0 <= b <= 255 ->
  hexToRgb (rgbToHex rgb) = rgbText r g b
  /\ rgbToHex (hexToRgb (rgbToHex rgb)) = rgbToHex rgb.
Proof.
  intros E Hr Hg Hb.
  assert (H : rgbToHex rgb
              = String "#" (hexByte (of_Z r) ++ hexByte (of_Z g) ++ hexByte (of_Z b))).
  { apply rgbToHex_parts; [exact E| | |]; now apply byte_facts. }
  assert (R : hexToRgb (rgbToHex rgb) = rgbText r g b).
  { rewrite H. apply (hex_of_bytes r g b Hr Hg Hb). }
  split; [exact R|]. rewrite R, H. now apply rgbToHex_dec.
Qed.

Lemma rgb_hex_roundtrip_witness :
  hexToRgb (rgbToHex "12,7 , 255px") = "12, 7, 255"
  /\ rgbToHex (hexToRgb (rgbToHex "12,7 , 255px")) = rgbToHex "12,7 , 255px".
Proof.
  apply (rgb_hex_roundtrip "12,7 , 255px" 12 7 255); [reflexivity|lia|lia|lia].
Defined.

End CodecComposition.
